(** * quack-quack-go: timing and judgment engine

    A shallow embedding of the rhythm-game sources and the properties
    their specification states about them:

    - [BMSTimingEngine]      scripts/bms-timing-engine.js (grid charts)
    - [BeatChartGenerator]   scripts/beat-chart-generator.js (procedural charts)
    - [AudioManager]         scripts/audio-manager.js (the audio clock)
    - [GameStateManager]     scripts/chart-loader.js (score state and grade)
    - [GameEngine]           scripts/game-engine.js (tap-only engine)
    - [GameEngineHold]       the engine revision with hold notes

    Numbers.  JavaScript numbers that carry times, screen positions and
    beat counts are modelled by exact rationals ([Q]); every event handler
    reads [performance.now()] once, as the argument [now].  A division by
    zero is [0] in [Q] where JavaScript gives an infinity or [NaN]; the
    properties below keep their divisors away from zero.  Scores and
    counters are integers ([Z]).  The grade computation compares a quotient
    with decimal thresholds, where binary64 rounding is observable, so it is
    modelled with primitive binary64 floats.

    Objects.  The engine with hold notes shares note objects between the
    array of live notes, the map of active holds and the timers that move
    them; they are modelled by a heap of notes addressed by index. *)

From Stdlib Require Import ZArith QArith Qround Qabs Lqa Lia.
From Stdlib Require Import Floats Uint63.
From Stdlib Require Import String Ascii Sorted Permutation DecimalString.
From stdpp Require Import base list.

Local Open Scope Z_scope.

(** ** JavaScript helpers *)

Module JS.

(** A value produced by code that may [throw]. *)
Inductive result (E A : Type) : Type :=
| Ok (a : A)
| Throw (e : E).
Arguments Ok {E A} a.
Arguments Throw {E A} e.

Definition is_ok {E A} (r : result E A) : bool :=
  match r with Ok _ => true | Throw _ => false end.

(** [Math.floor] and [Math.abs]. *)
Definition floor (x : Q) : Z := Qfloor x.
Definition abs (x : Q) : Q := Qabs x.

(** Comparisons of numbers, as booleans. *)
Definition ltb (x y : Q) : bool := negb (Qle_bool y x).
Definition leb (x y : Q) : bool := Qle_bool x y.
Definition geb (x y : Q) : bool := Qle_bool y x.

(** Truthiness of a number: [0] is falsy. *)
Definition truthy (x : Q) : bool := negb (Qeq_bool x 0).

Definition Zq (z : Z) : Q := inject_Z z.
Definition Nq (n : nat) : Q := inject_Z (Z.of_nat n).

End JS.

(** The two lanes, ['top'] and ['bottom']. *)
Inductive Lane := top | bottom.

Definition Lane_eqb (a b : Lane) : bool :=
  match a, b with
  | top, top | bottom, bottom => true
  | _, _ => false
  end.

(** ** scripts/bms-timing-engine.js *)

Module BMSTimingEngine.
Import JS.
Local Open Scope Q_scope.

(** [chartData.metadata], the fields the engine reads. *)
Record Metadata := {
  bpm : Q;
  subdivision : Z;
  beatsPerMeasure : Q;
  offset : Q
}.

(** One measure; a lane pattern may be absent ([null]/[undefined]). *)
Record Measure := {
  topLane : option string;
  bottomLane : option string
}.

Record Chart := { measures : list Measure }.

(** [chartData]: [charts] is an object keyed by difficulty. *)
Record ChartData := {
  metadata : Metadata;
  charts : list (string * Chart)
}.

Fixpoint lookup_chart (d : string) (cs : list (string * Chart)) : option Chart :=
  match cs with
  | [] => None
  | (k, c) :: rest => if String.eqb k d then Some c else lookup_chart d rest
  end.

(** The record pushed by [processLane]; [type] is always ['single']. *)
Record Note := {
  hitTime : Q;
  spawnTime : Q;
  lane : Lane;
  measureIndex : nat;
  beatPosition : Q;
  subdivisionIndex : nat;
  isTop : bool;       (* topLane: laneName === 'top' *)
  isBottom : bool     (* bottomLane: laneName === 'bottom' *)
}.

(** The constructor's derived field. *)
Definition secondsPerBeat (md : Metadata) : Q := 60 / bpm md.

(** [calculateNoteTime(measureIndex, subdivisionIndex)], in milliseconds. *)
Definition calculateNoteTime (md : Metadata) (m i : nat) : Q :=
  let beatPosition := (Nq i / Zq (subdivision md)) * beatsPerMeasure md in
  let absoluteBeat := (Nq m * beatsPerMeasure md) + beatPosition in
  let timeInSeconds := (absoluteBeat * secondsPerBeat md) + offset md in
  timeInSeconds * 1000.

Definition mkNote (md : Metadata) (m i : nat) (laneName : Lane) : Note :=
  let beatPosition := (Nq i / Zq (subdivision md)) * beatsPerMeasure md in
  let absoluteBeat := (Nq m * beatsPerMeasure md) + beatPosition in
  let timeInSeconds := (absoluteBeat * secondsPerBeat md) + offset md in
  let timeInMs := timeInSeconds * 1000 in
  {| hitTime := timeInMs;
     spawnTime := timeInMs - 3000;
     lane := laneName;
     measureIndex := m;
     beatPosition := beatPosition;
     subdivisionIndex := i;
     isTop := Lane_eqb laneName top;
     isBottom := Lane_eqb laneName bottom |}.

Definition is_one (c : ascii) : bool := Ascii.eqb c "1"%char.

(** The [for] loop of [processLane], from index [i] over the remaining
    characters. *)
Fixpoint laneLoop (md : Metadata) (m : nat) (laneName : Lane)
    (i : nat) (cs : list ascii) (notes : list Note) : list Note :=
  match cs with
  | [] => notes
  | c :: rest =>
      let notes' := if is_one c then notes ++ [mkNote md m i laneName] else notes in
      laneLoop md m laneName (S i) rest notes'
  end.

(** The guard of [processLane]: [!lanePattern || length !== subdivision]. *)
Definition invalidPattern (md : Metadata) (lanePattern : option string) : bool :=
  match lanePattern with
  | None => true
  | Some p =>
      (String.length p =? 0)%nat || negb (Z.of_nat (String.length p) =? subdivision md)%Z
  end.

(** [processLane(lanePattern, measureIndex, laneName, notes)]: the array
    [notes] is threaded through. *)
Definition processLane (md : Metadata) (lanePattern : option string)
    (m : nat) (laneName : Lane) (notes : list Note) : list Note :=
  if invalidPattern md lanePattern then notes (* console.warn; return *)
  else match lanePattern with
       | None => notes
       | Some p => laneLoop md m laneName 0 (list_ascii_of_string p) notes
       end.

(** [chart.measures.forEach((measure, measureIndex) => ...)]. *)
Fixpoint measuresLoop (md : Metadata) (m : nat) (ms : list Measure)
    (notes : list Note) : list Note :=
  match ms with
  | [] => notes
  | me :: rest =>
      let notes1 := processLane md (topLane me) m top notes in
      let notes2 := processLane md (bottomLane me) m bottom notes1 in
      measuresLoop md (S m) rest notes2
  end.

(** [notes.sort((a, b) => a.hitTime - b.hitTime)]: a stable sort, here
    by insertion. *)
Fixpoint insertNote (x : Note) (l : list Note) : list Note :=
  match l with
  | [] => [x]
  | y :: rest =>
      if ltb (hitTime x) (hitTime y) then x :: y :: rest
      else y :: insertNote x rest
  end.

Definition sortNotes (l : list Note) : list Note :=
  fold_left (fun acc x => insertNote x acc) l [].

Inductive Error :=
| DifficultyNotFound (d : string)
| PatternNull (name : string)
| PatternLength (name : string) (len : nat) (sub : Z)
| PatternChar (name : string) (c : ascii) (pos : nat).

(** [convertToGameFormat(difficulty)]. *)
Definition convertToGameFormat (cd : ChartData) (difficulty : string)
    : result Error (list Note) :=
  match lookup_chart difficulty (charts cd) with
  | None => Throw (DifficultyNotFound difficulty)
  | Some chart =>
      Ok (sortNotes (measuresLoop (metadata cd) 0 (measures chart) []))
  end.

Definition validChar (c : ascii) : bool :=
  Ascii.eqb c "0"%char || Ascii.eqb c "1"%char.

Fixpoint firstInvalid (i : nat) (cs : list ascii) : option (ascii * nat) :=
  match cs with
  | [] => None
  | c :: rest => if validChar c then firstInvalid (S i) rest else Some (c, i)
  end.

(** [validatePattern(pattern, patternName)]. *)
Definition validatePattern (md : Metadata) (pattern : option string)
    (patternName : string) : result Error bool :=
  match pattern with
  | None => Throw (PatternNull patternName)
  | Some p =>
      if (String.length p =? 0)%nat then Throw (PatternNull patternName)
      else if negb (Z.of_nat (String.length p) =? subdivision md)%Z
      then Throw (PatternLength patternName (String.length p) (subdivision md))
      else match firstInvalid 0 (list_ascii_of_string p) with
           | Some (c, i) => Throw (PatternChar patternName c i)
           | None => Ok true
           end
  end.

(** The metadata and first measure of [createTestChart()]. *)
Definition testMetadata : Metadata :=
  {| bpm := 120; subdivision := 16; beatsPerMeasure := 4; offset := 0 |}.

Definition createTestChart : ChartData :=
  {| metadata := testMetadata;
     charts :=
       [("easy"%string,
         {| measures :=
              [ {| topLane := Some "1000100010001000"%string;
                   bottomLane := Some "0010001000100010"%string |};
                {| topLane := Some "1010000010100000"%string;
                   bottomLane := Some "0000101000001010"%string |};
                {| topLane := Some "1000100010001000"%string;
                   bottomLane := Some "0100010001000100"%string |};
                {| topLane := Some "1111000011110000"%string;
                   bottomLane := Some "0000111100001111"%string |} ] |});
        ("hard"%string,
         {| measures :=
              [ {| topLane := Some "1010101010101010"%string;
                   bottomLane := Some "0101010101010101"%string |};
                {| topLane := Some "1100110011001100"%string;
                   bottomLane := Some "0011001100110011"%string |};
                {| topLane := Some "1111101011111010"%string;
                   bottomLane := Some "0101011101010111"%string |};
                {| topLane := Some "1000100010001000"%string;
                   bottomLane := Some "0010001000100010"%string |} ] |})] |}.



(** The number of onsets of a pattern, and their positions from index [i]. *)
Fixpoint onsetPositions (i : nat) (cs : list ascii) : list nat :=
  match cs with
  | [] => []
  | c :: rest =>
      if is_one c then i :: onsetPositions (Datatypes.S i) rest
      else onsetPositions (Datatypes.S i) rest
  end.

Definition onsets (p : option string) : nat :=
  match p with
  | None => O
  | Some s => length (onsetPositions 0 (list_ascii_of_string s))
  end.

(** The pattern names that [validateChart] builds:
    [`measure ${index} top lane`]. *)
Definition laneLabel (index : nat) (which : string) : string :=
  String.append "measure "
    (String.append (NilEmpty.string_of_uint (Nat.to_uint index))
       (String.append " " (String.append which " lane"))).

(** The [try]/[catch] around one [validatePattern] call: the error, if
    any, is pushed on [issues]. *)
Definition collectIssue (md : Metadata) (p : option string) (name : string)
    (issues : list Error) : list Error :=
  match validatePattern md p name with
  | Ok _ => issues
  | Throw e => issues ++ [e]
  end.

Fixpoint validateMeasures (md : Metadata) (index : nat) (ms : list Measure)
    (issues : list Error) : list Error :=
  match ms with
  | [] => issues
  | me :: rest =>
      let issues1 := collectIssue md (topLane me) (laneLabel index "top") issues in
      let issues2 := collectIssue md (bottomLane me) (laneLabel index "bottom") issues1 in
      validateMeasures md (Datatypes.S index) rest issues2
  end.

Record Report := { isValid : bool; issues : list Error }.

(** [validateChart(difficulty)]. *)
Definition validateChart (cd : ChartData) (difficulty : string) : result Error Report :=
  match lookup_chart difficulty (charts cd) with
  | None => Throw (DifficultyNotFound difficulty)
  | Some chart =>
      let found := validateMeasures (metadata cd) 0 (measures chart) [] in
      Ok {| isValid := (length found =? 0)%nat; issues := found |}
  end.

End BMSTimingEngine.

(** ** scripts/beat-chart-generator.js *)

Module BeatChartGenerator.
Import JS.
Local Open Scope Q_scope.

(** One entry of a rhythm pattern table. *)
Record Pattern := { ptop : bool; pbottom : bool }.

Definition P (t b : bool) : Pattern := {| ptop := t; pbottom := b |}.

Inductive PatternType := basic | intense | complex | sparse | buildup.

(** [initializePatterns()]. *)
Definition patterns (ty : PatternType) : list Pattern :=
  match ty with
  | basic =>
      [P true false; P false false; P false true; P false false;
       P true false; P false true; P false false; P false true]
  | intense =>
      [P true false; P false true; P true false; P false true;
       P true true; P false false; P true false; P false true]
  | complex =>
      [P true false; P true false; P false true; P false false;
       P false true; P false true; P true true; P false false]
  | sparse =>
      [P true false; P false false; P false false; P false true;
       P false false; P false false; P true false; P false false]
  | buildup =>
      [P false false; P true false; P false false; P false true;
       P false false; P true false; P false true; P true true]
  end.

Record SongSection := {
  name : string;
  start : Q;
  stop : Q;                 (* end *)
  type : PatternType;
  intensity : Q;
  patternChangeEvery : nat
}.

(** [defineSongStructure(totalBeats)]. *)
Definition defineSongStructure (totalBeats : Z) : list SongSection :=
  let beatsPerSection := 32 in
  [ {| name := "intro"; start := 0; stop := beatsPerSection;
       type := sparse; intensity := 3 # 10; patternChangeEvery := 16 |};
    {| name := "verse1"; start := beatsPerSection; stop := beatsPerSection * 2;
       type := basic; intensity := 5 # 10; patternChangeEvery := 8 |};
    {| name := "buildup1"; start := beatsPerSection * 2; stop := beatsPerSection * (5 # 2);
       type := buildup; intensity := 7 # 10; patternChangeEvery := 4 |};
    {| name := "drop1"; start := beatsPerSection * (5 # 2); stop := beatsPerSection * 4;
       type := intense; intensity := 1; patternChangeEvery := 8 |};
    {| name := "breakdown1"; start := beatsPerSection * 4; stop := beatsPerSection * 5;
       type := sparse; intensity := 4 # 10; patternChangeEvery := 8 |};
    {| name := "verse2"; start := beatsPerSection * 5; stop := beatsPerSection * 6;
       type := basic; intensity := 6 # 10; patternChangeEvery := 8 |};
    {| name := "buildup2"; start := beatsPerSection * 6; stop := beatsPerSection * (13 # 2);
       type := buildup; intensity := 8 # 10; patternChangeEvery := 4 |};
    {| name := "drop2"; start := beatsPerSection * (13 # 2); stop := beatsPerSection * 8;
       type := complex; intensity := 1; patternChangeEvery := 8 |};
    {| name := "outro"; start := beatsPerSection * 8; stop := Zq totalBeats;
       type := sparse; intensity := 3 # 10; patternChangeEvery := 16 |} ].

(** [getCurrentSection(beat, songStructure)]: the first section that
    contains the beat, else the last section; [dflt] stands for the
    last section of the remaining list. *)
Fixpoint getCurrentSection (beat : nat) (songStructure : list SongSection)
    (dflt : SongSection) : SongSection :=
  match songStructure with
  | [] => dflt
  | s :: rest =>
      if geb (Nq beat) (start s) && ltb (Nq beat) (stop s) then s
      else getCurrentSection beat rest s
  end.

Record ChartNote := {
  spawnTime : Q;
  hitTime : Q;
  topLane : bool;
  bottomLane : bool;
  beat : nat;
  section : string;
  noteIntensity : Q
}.

Definition emptyPattern : Pattern := P false false.
Definition noSection : SongSection :=
  {| name := ""; start := 0; stop := 0; type := sparse; intensity := 0;
     patternChangeEvery := 8 |}.

(** One iteration of the [while] loop of [generateChart]. *)
Definition chartStep (beatInterval travelTimeMs : Q) (songStructure : list SongSection)
    (currentBeat patternIndex : nat) (chart : list ChartNote)
    : nat * nat * list ChartNote :=
  let currentSection := getCurrentSection currentBeat songStructure noSection in
  let pattern := patterns (type currentSection) in
  let currentPattern :=
    nth (patternIndex mod length pattern) pattern emptyPattern in
  let hitTime := Nq currentBeat * beatInterval in
  let spawnTime := hitTime - travelTimeMs in
  let chart' :=
    if geb spawnTime 0 && (ptop currentPattern || pbottom currentPattern)
    then chart ++ [ {| spawnTime := spawnTime; hitTime := hitTime;
                       topLane := ptop currentPattern;
                       bottomLane := pbottom currentPattern;
                       beat := currentBeat;
                       section := name currentSection;
                       noteIntensity := intensity currentSection |} ]
    else chart in
  let currentBeat' := S currentBeat in
  let patternIndex' := S patternIndex in
  (* patternChangeEvery || 8 *)
  let every := match patternChangeEvery currentSection with O => 8%nat | n => n end in
  let patternIndex'' :=
    if (currentBeat' mod every =? 0)%nat then O else patternIndex' in
  (currentBeat', patternIndex'', chart').

(** The loop runs while [currentBeat < totalBeats]; [fuel] counts the
    iterations left. *)
Fixpoint chartLoop (beatInterval travelTimeMs : Q) (songStructure : list SongSection)
    (fuel currentBeat patternIndex : nat) (chart : list ChartNote)
    : list ChartNote :=
  match fuel with
  | O => chart
  | S fuel' =>
      let '(b, p, c) :=
        chartStep beatInterval travelTimeMs songStructure currentBeat patternIndex chart in
      chartLoop beatInterval travelTimeMs songStructure fuel' b p c
  end.

(** [generateChart(durationMs, travelTimeMs)], for an audio manager with
    the given [beatInterval] (positive: it is [60 / bpm * 1000]). *)
Definition generateChart (beatInterval durationMs travelTimeMs : Q) : list ChartNote :=
  let totalBeats := floor (durationMs / beatInterval) in
  let songStructure := defineSongStructure totalBeats in
  chartLoop beatInterval travelTimeMs songStructure (Z.to_nat totalBeats) 0 0 [].

(** [validateChart(chart)]: the issues found by the loop over
    [i < chart.length - 1]; [isValid] is false as soon as one is pushed. *)
Inductive Issue :=
| TooClose (i : nat)          (* Notes i and i+1 are too close together *)
| NegativeSpawn (i : nat).    (* Note i has negative spawn time *)

Fixpoint validateLoop (i : nat) (chart : list ChartNote) (issues : list Issue)
    : list Issue :=
  match chart with
  | current :: ((next :: _) as rest) =>
      let issues1 :=
        if ltb (hitTime next - hitTime current) 100 then issues ++ [TooClose i]
        else issues in
      let issues2 :=
        if ltb (spawnTime current) 0 then issues1 ++ [NegativeSpawn i]
        else issues1 in
      validateLoop (Datatypes.S i) rest issues2
  | _ => issues
  end.

Record Report := { isValid : bool; issues : list Issue }.

Definition validateChart (chart : list ChartNote) : Report :=
  let found := validateLoop 0 chart [] in
  {| isValid := (length found =? 0)%nat; issues := found |}.

Definition withLanes (t b : bool) (n : ChartNote) : ChartNote :=
  {| spawnTime := spawnTime n; hitTime := hitTime n; topLane := t; bottomLane := b;
     beat := beat n; section := section n; noteIntensity := noteIntensity n |}.

(** [increaseDifficulty(chart)]: [random i] is the value that
    [Math.random()] returns for the note of index [i]. *)
Fixpoint increaseLoop (random : nat -> Q) (i : nat) (chart : list ChartNote)
    : list ChartNote :=
  match chart with
  | [] => []
  | note :: rest =>
      (if ltb (random i) (1 # 10) then withLanes true true note else note)
        :: increaseLoop random (Datatypes.S i) rest
  end.

Definition increaseDifficulty (random : nat -> Q) (chart : list ChartNote)
    : list ChartNote :=
  increaseLoop random 0 chart.

(** [decreaseDifficulty(chart)]: the callback of [filter] drops the note
    or keeps it, after turning a simultaneous hit into a top hit. *)
Fixpoint decreaseLoop (index : nat) (chart : list ChartNote) : list ChartNote :=
  match chart with
  | [] => []
  | note :: rest =>
      if ltb (8 # 10) (noteIntensity note) && (index mod 4 =? 3)%nat
      then decreaseLoop (Datatypes.S index) rest
      else (if topLane note && bottomLane note
            then withLanes (topLane note) false note else note)
             :: decreaseLoop (Datatypes.S index) rest
  end.

Definition decreaseDifficulty (chart : list ChartNote) : list ChartNote :=
  decreaseLoop 0 chart.


End BeatChartGenerator.

(** ** scripts/audio-manager.js: the audio clock *)

Module AudioManager.
Import JS.
Local Open Scope Q_scope.

Record Clock := {
  hasAudio : bool;        (* this.musicAudio is loaded *)
  isPlaying : bool;
  startTime : Q;
  pausedTime : Q
}.

(** The constructor's clock fields, once a song is loaded. *)
Definition loaded : Clock :=
  {| hasAudio := true; isPlaying := false; startTime := 0; pausedTime := 0 |}.

(** [play()], once the audio element has started. *)
Definition play (now : Q) (c : Clock) : Clock :=
  if hasAudio c
  then {| hasAudio := true; isPlaying := true;
          startTime := now - pausedTime c; pausedTime := pausedTime c |}
  else c.

(** [pause()]. *)
Definition pause (now : Q) (c : Clock) : Clock :=
  if hasAudio c && isPlaying c
  then {| hasAudio := true; isPlaying := false;
          startTime := startTime c; pausedTime := now - startTime c |}
  else c.

(** [getCurrentTime()]. *)
Definition getCurrentTime (now : Q) (c : Clock) : Q :=
  if isPlaying c then now - startTime c else pausedTime c.

(** [calculateSpawnTime(hitTime, travelTimeMs)]. *)
Definition calculateSpawnTime (hitTime travelTimeMs : Q) : Q :=
  hitTime - travelTimeMs.

(** [stop()]. *)
Definition stop (c : Clock) : Clock :=
  if hasAudio c
  then {| hasAudio := true; isPlaying := false;
          startTime := startTime c; pausedTime := 0 |}
  else c.

End AudioManager.

(** ** scripts/chart-loader.js: GameStateManager *)

Module GameStateManager.

#[local] Set Warnings "-inexact-float".

(** The keys of [this.stats] that [updateScore] is called with. *)
Inductive Judgment := perfect | great | good | miss | hold.

Definition Judgment_eqb (a b : Judgment) : bool :=
  match a, b with
  | perfect, perfect | great, great | good, good | miss, miss | hold, hold => true
  | _, _ => false
  end.

Record Scores := {
  current : Z;
  combo : Z;
  maxCombo : Z
}.

Record Stats := {
  nperfect : Z;
  ngreat : Z;
  ngood : Z;
  nmiss : Z;
  nhold : Z
}.

Inductive Screen := menu | game | game_over | settings.

Record t := {
  currentState : Screen;
  scores : Scores;
  stats : Stats
}.

Definition zeroScores : Scores := {| current := 0; combo := 0; maxCombo := 0 |}.
Definition zeroStats : Stats :=
  {| nperfect := 0; ngreat := 0; ngood := 0; nmiss := 0; nhold := 0 |}.

(** The constructor, after [init()]. *)
Definition init : t :=
  {| currentState := menu; scores := zeroScores; stats := zeroStats |}.

(** [this.stats[judgment]++]. *)
Definition bump (j : Judgment) (st : Stats) : Stats :=
  match j with
  | perfect => {| nperfect := nperfect st + 1; ngreat := ngreat st; ngood := ngood st;
                  nmiss := nmiss st; nhold := nhold st |}
  | great => {| nperfect := nperfect st; ngreat := ngreat st + 1; ngood := ngood st;
                nmiss := nmiss st; nhold := nhold st |}
  | good => {| nperfect := nperfect st; ngreat := ngreat st; ngood := ngood st + 1;
               nmiss := nmiss st; nhold := nhold st |}
  | miss => {| nperfect := nperfect st; ngreat := ngreat st; ngood := ngood st;
               nmiss := nmiss st + 1; nhold := nhold st |}
  | hold => {| nperfect := nperfect st; ngreat := ngreat st; ngood := ngood st;
               nmiss := nmiss st; nhold := nhold st + 1 |}
  end.

(** [updateScore(points, judgment)]. *)
Definition updateScore (points : Z) (judgment : Judgment) (g : t) : t :=
  let sc := scores g in
  let current' := current sc + points in
  let sc' :=
    if negb (Judgment_eqb judgment miss)
    then {| current := current'; combo := combo sc + 1;
            maxCombo := Z.max (maxCombo sc) (combo sc + 1) |}
    else {| current := current'; combo := 0; maxCombo := maxCombo sc |} in
  {| currentState := currentState g; scores := sc'; stats := bump judgment (stats g) |}.


(** [endGame()]: the game-over screen becomes current; scores stay. *)
Definition endGame (g : t) : t :=
  {| currentState := game_over; scores := scores g; stats := stats g |}.

(** [setState('game')], as called by [GameEngine.startGame]. *)
Definition setStateGame (g : t) : t :=
  {| currentState := game; scores := scores g; stats := stats g |}.

Inductive Grade := gradeS | gradeA | gradeB | gradeC | gradeD.

(** A counter as a JavaScript number; counters stay far below [2^53],
    where binary64 holds every integer exactly. *)
Definition num (z : Z) : float := PrimFloat.of_uint63 (Uint63.of_Z z).

(** [calculateGrade()]. *)
Definition calculateGrade (g : t) : Grade :=
  let st := stats g in
  let total := (num (nperfect st) + num (ngreat st) + num (ngood st) + num (nmiss st))%float in
  if PrimFloat.eqb total 0 then gradeD
  else
    let accuracy :=
      ((num (nperfect st) + num (ngreat st) * 0.8 + num (ngood st) * 0.5) / total)%float in
    if PrimFloat.leb 0.95 accuracy then gradeS
    else if PrimFloat.leb 0.90 accuracy then gradeA
    else if PrimFloat.leb 0.80 accuracy then gradeB
    else if PrimFloat.leb 0.70 accuracy then gradeC
    else gradeD.





End GameStateManager.

(** ** scripts/game-engine.js: the tap-only engine *)

Module GameEngine.
Import JS.
Local Open Scope Q_scope.

(** An entry of [this.demoChart]. *)
Record ChartNote := {
  cSpawnTime : Q;
  cHitTime : Q;
  cTop : bool;
  cBottom : bool
}.

Definition patterns : list (bool * bool) :=
  [ (true, false); (false, true); (true, true); (false, false);
    (true, false); (false, true); (true, false); (false, true) ].

Definition travelTime : Q := 3000.
Definition songDuration : Q := 60000.

(** [createDemoChart()]: the loop body for index [i]. *)
Definition demoEntry (i : nat) : list ChartNote :=
  let pattern := nth (i mod length patterns) patterns (false, false) in
  let hitTime := Nq i * 800 in
  let spawnTime := hitTime - travelTime in
  if geb spawnTime 0
  then [ {| cSpawnTime := spawnTime; cHitTime := hitTime;
            cTop := fst pattern; cBottom := snd pattern |} ]
  else [].

Definition createDemoChart : list ChartNote :=
  flat_map demoEntry (seq 0 120).

(** A live note.  [attached] is the DOM state of its element
    ([note.element.parentElement] is non-null); the element itself always
    exists, since [createNote] pushes a note only when the UI made one.
    No note has a [position] property. *)
Record Note := {
  attached : bool;
  lane : Lane;
  hitTime : Q;
  spawnTime : Q;
  hit : bool;
  screenPosition : Q
}.

(** [note.position]: [undefined] on every note. *)
Definition position (n : Note) : option Q := None.

Record t := {
  gsm : GameStateManager.t;
  isPlaying : bool;
  isPaused : bool;
  notes : list Note;
  songProgress : Q;
  chartIndex : nat;
  startTime : Q           (* null before the first start: 0 in arithmetic *)
}.

Definition set_gsm (g : GameStateManager.t) (s : t) : t :=
  {| gsm := g; isPlaying := isPlaying s; isPaused := isPaused s; notes := notes s;
     songProgress := songProgress s; chartIndex := chartIndex s;
     startTime := startTime s |}.

Definition set_notes (ns : list Note) (s : t) : t :=
  {| gsm := gsm s; isPlaying := isPlaying s; isPaused := isPaused s; notes := ns;
     songProgress := songProgress s; chartIndex := chartIndex s;
     startTime := startTime s |}.

(** The constructor. *)
Definition new (g : GameStateManager.t) : t :=
  {| gsm := g; isPlaying := false; isPaused := false; notes := [];
     songProgress := 0; chartIndex := 0; startTime := 0 |}.

(** [startGame()]. *)
Definition startGame (now : Q) (s : t) : t :=
  {| gsm := GameStateManager.setStateGame (gsm s);
     isPlaying := true; isPaused := false; notes := [];
     songProgress := 0; chartIndex := 0; startTime := now |}.

(** [pauseGame()]: a toggle. *)
Definition pauseGame (s : t) : t :=
  {| gsm := gsm s; isPlaying := isPlaying s; isPaused := negb (isPaused s);
     notes := notes s; songProgress := songProgress s; chartIndex := chartIndex s;
     startTime := startTime s |}.

(** [stopGame()], with [clearAllNotes()]. *)
Definition stopGame (s : t) : t :=
  {| gsm := GameStateManager.endGame (gsm s);
     isPlaying := false; isPaused := false; notes := [];
     songProgress := songProgress s; chartIndex := chartIndex s;
     startTime := startTime s |}.

Section Env.
(** [window.innerWidth], and whether the UI can create a note element
    in a lane. *)
Variable innerWidth : Q.
Variable ui : Lane -> bool.

Definition hitZonePosition : Q := innerWidth * (15 # 100).

(** [createNote(lane, hitTime)]. *)
Definition createNote (now : Q) (l : Lane) (h : Q) (s : t) : t :=
  if ui l
  then set_notes (notes s ++ [ {| attached := true; lane := l; hitTime := h;
                                  spawnTime := now - startTime s; hit := false;
                                  screenPosition := innerWidth |} ]) s
  else s.

Definition spawnOne (now : Q) (c : ChartNote) (s : t) : t :=
  let s1 := if cTop c then createNote now top (cHitTime c) s else s in
  let s2 := if cBottom c then createNote now bottom (cHitTime c) s1 else s1 in
  {| gsm := gsm s2; isPlaying := isPlaying s2; isPaused := isPaused s2;
     notes := notes s2; songProgress := songProgress s2;
     chartIndex := Datatypes.S (chartIndex s2); startTime := startTime s2 |}.

(** [spawnNotes(gameTime)]: the [while] loop; [fuel] bounds the chart
    entries left. *)
Fixpoint spawnLoop (fuel : nat) (now gameTime : Q) (s : t) : t :=
  match fuel with
  | O => s
  | Datatypes.S fuel' =>
      match nth_error createDemoChart (chartIndex s) with
      | None => s
      | Some c =>
          if leb (cSpawnTime c) gameTime
          then spawnLoop fuel' now gameTime (spawnOne now c s)
          else s
      end
  end.

Definition spawnNotes (now gameTime : Q) (s : t) : t :=
  spawnLoop (length createDemoChart - chartIndex s) now gameTime s.

(** The game time that [update()] computes. *)
Definition gameTime (now : Q) (s : t) : Q := now - startTime s.

(** [update()]. *)
Definition update (now : Q) (s : t) : t :=
  if negb (isPlaying s) || isPaused s then s
  else
    let gt := gameTime now s in
    let progress := (gt / songDuration) * 100 in
    let s1 := {| gsm := gsm s; isPlaying := isPlaying s; isPaused := isPaused s;
                 notes := notes s; songProgress := progress;
                 chartIndex := chartIndex s; startTime := startTime s |} in
    let s2 := spawnNotes now gt s1 in
    if geb (songProgress s2) 100 then stopGame s2 else s2.

Definition distance (n : Note) : Q := abs (screenPosition n - hitZonePosition).

(** [findHittableNote(lane)]: the [forEach] over the lane's notes keeps
    the closest one within the 100px window; the result is its index
    in [this.notes]. *)
Fixpoint closestLoop (l : Lane) (i : nat) (ns : list Note)
    (closest : option (nat * Q)) : option (nat * Q) :=
  match ns with
  | [] => closest
  | n :: rest =>
      let candidate := Lane_eqb (lane n) l && negb (hit n) && attached n in
      let d := distance n in
      let better :=
        match closest with
        | None => true                       (* closestDistance = Infinity *)
        | Some (_, cd) => ltb d cd
        end in
      closestLoop l (Datatypes.S i) rest
        (if candidate && better && ltb d 100 then Some (i, d) else closest)
  end.

Definition findHittableNote (l : Lane) (s : t) : option nat :=
  option_map fst (closestLoop l 0 (notes s) None).

(** [calculateJudgment(note)]. *)
Definition calculateJudgment (n : Note) : GameStateManager.Judgment :=
  let d := distance n in
  if leb d 30 then GameStateManager.perfect
  else if leb d 60 then GameStateManager.great
  else if leb d 90 then GameStateManager.good
  else GameStateManager.miss.

(** [calculateScore(judgment)]: [scores[judgment] || 0]. *)
Definition calculateScore (j : GameStateManager.Judgment) : Z :=
  match j with
  | GameStateManager.perfect => 300
  | GameStateManager.great => 200
  | GameStateManager.good => 100
  | _ => 0
  end.

(** The filter of the no-target branch: it reads [note.position], which
    is [undefined], so [Math.abs(undefined - 100) < 30] is a comparison
    with [NaN] and is false. *)
Definition nearby (l : Lane) (n : Note) : bool :=
  Lane_eqb (lane n) l && negb (hit n) &&
  match position n with
  | Some p => ltb (abs (p - 100)) 30
  | None => false
  end.

Definition markHit (n : Note) : Note :=
  {| attached := false; lane := lane n; hitTime := hitTime n;
     spawnTime := spawnTime n; hit := true; screenPosition := screenPosition n |}.

(** [handleInput(lane)]. *)
Definition handleInput (l : Lane) (s : t) : t :=
  if negb (isPlaying s) || isPaused s then s
  else
    match findHittableNote l s with
    | Some i =>
        match notes s !! i with
        | Some hitNote =>
            let judgment := calculateJudgment hitNote in
            let score := calculateScore judgment in
            (* hitNote.hit = true; updateScore; removeNote(hitNote.element) *)
            set_gsm (GameStateManager.updateScore score judgment (gsm s))
              (set_notes (<[i := markHit hitNote]> (notes s)) s)
        | None => s
        end
    | None =>
        let nearbyNotes := List.filter (nearby l) (notes s) in
        if (0 <? length nearbyNotes)%nat
        then set_gsm (GameStateManager.updateScore 0 GameStateManager.miss (gsm s)) s
        else s
    end.

End Env.

End GameEngine.

(** ** The engine revision with hold notes *)

Module GameEngineHold.
Import JS.
Local Open Scope Q_scope.

Inductive NoteType := normal | hold.


Inductive Action := press | release.

(** An entry of [this.demoChart]. *)
Record ChartNote := {
  cSpawnTime : Q;
  cHitTime : Q;
  cTop : bool;
  cBottom : bool;
  cType : NoteType;
  cDuration : Q
}.

Record Pattern := { ptop : bool; pbottom : bool; ptype : NoteType; pduration : Q }.

Definition patterns : list Pattern :=
  [ {| ptop := true; pbottom := false; ptype := normal; pduration := 0 |};
    {| ptop := false; pbottom := true; ptype := normal; pduration := 0 |};
    {| ptop := true; pbottom := true; ptype := normal; pduration := 0 |};
    {| ptop := false; pbottom := false; ptype := normal; pduration := 0 |};
    {| ptop := true; pbottom := false; ptype := hold; pduration := 1600 |};
    {| ptop := false; pbottom := true; ptype := normal; pduration := 0 |};
    {| ptop := true; pbottom := false; ptype := normal; pduration := 0 |};
    {| ptop := false; pbottom := true; ptype := hold; pduration := 2400 |} ].

Definition travelTime : Q := 3000.
Definition songDuration : Q := 60000.

(** [createDemoChart()]: the loop body for index [i]. *)
Definition demoEntry (i : nat) : list ChartNote :=
  let pattern := nth (i mod length patterns) patterns
                   {| ptop := false; pbottom := false; ptype := normal; pduration := 0 |} in
  let hitTime := Nq i * 800 in
  let spawnTime := hitTime - travelTime in
  if geb spawnTime 0
  then [ {| cSpawnTime := spawnTime; cHitTime := hitTime;
            cTop := ptop pattern; cBottom := pbottom pattern;
            cType := ptype pattern; cDuration := pduration pattern |} ]
  else [].

Definition createDemoChart : list ChartNote :=
  flat_map demoEntry (seq 0 120).

(** A note object.  [attached] is the DOM state of its element
    ([note.element.parentElement] is non-null); [sliding] tells whether
    the interval started by [startNoteSliding] is still installed. *)
Record Note := {
  attached : bool;
  sliding : bool;
  lane : Lane;
  hitTime : Q;
  type : NoteType;
  duration : Q;
  spawnTime : Q;
  hit : bool;
  isHolding : bool;
  holdStartTime : option Q;
  holdScore : Z;
  screenPosition : Q
}.

(** The [Map] [activeHoldNotes], in insertion order, from lanes to note
    objects (heap addresses). *)
Definition HoldMap := list (Lane * nat).

Fixpoint mapGet (l : Lane) (m : HoldMap) : option nat :=
  match m with
  | [] => None
  | (k, v) :: rest => if Lane_eqb k l then Some v else mapGet l rest
  end.

Fixpoint mapHas (l : Lane) (m : HoldMap) : bool :=
  match m with
  | [] => false
  | (k, _) :: rest => Lane_eqb k l || mapHas l rest
  end.

Fixpoint mapReplace (l : Lane) (v : nat) (m : HoldMap) : HoldMap :=
  match m with
  | [] => []
  | (k, w) :: rest =>
      if Lane_eqb k l then (k, v) :: rest else (k, w) :: mapReplace l v rest
  end.

(** [Map.set]: an existing key keeps its place. *)
Definition mapSet (l : Lane) (v : nat) (m : HoldMap) : HoldMap :=
  if mapHas l m then mapReplace l v m else m ++ [(l, v)].

(** [Map.delete]. *)
Fixpoint mapDelete (l : Lane) (m : HoldMap) : HoldMap :=
  match m with
  | [] => []
  | (k, v) :: rest =>
      if Lane_eqb k l then mapDelete l rest else (k, v) :: mapDelete l rest
  end.

(** The engine.  Note objects live in [heap], addressed by their index;
    [notes] (the array [this.notes]) and [activeHoldNotes] hold
    addresses, so that both see every mutation of a note. *)
Record t := {
  gsm : GameStateManager.t;
  isPlaying : bool;
  isPaused : bool;
  heap : list Note;
  notes : list nat;
  activeHoldNotes : HoldMap;
  songProgress : Q;
  chartIndex : nat;
  startTime : Q           (* null before the first start: 0 in arithmetic *)
}.

Definition set_gsm (g : GameStateManager.t) (s : t) : t :=
  {| gsm := g; isPlaying := isPlaying s; isPaused := isPaused s; heap := heap s;
     notes := notes s; activeHoldNotes := activeHoldNotes s;
     songProgress := songProgress s; chartIndex := chartIndex s;
     startTime := startTime s |}.

Definition set_heap (h : list Note) (s : t) : t :=
  {| gsm := gsm s; isPlaying := isPlaying s; isPaused := isPaused s; heap := h;
     notes := notes s; activeHoldNotes := activeHoldNotes s;
     songProgress := songProgress s; chartIndex := chartIndex s;
     startTime := startTime s |}.

Definition set_notes (ns : list nat) (s : t) : t :=
  {| gsm := gsm s; isPlaying := isPlaying s; isPaused := isPaused s; heap := heap s;
     notes := ns; activeHoldNotes := activeHoldNotes s;
     songProgress := songProgress s; chartIndex := chartIndex s;
     startTime := startTime s |}.

Definition set_holds (m : HoldMap) (s : t) : t :=
  {| gsm := gsm s; isPlaying := isPlaying s; isPaused := isPaused s; heap := heap s;
     notes := notes s; activeHoldNotes := m;
     songProgress := songProgress s; chartIndex := chartIndex s;
     startTime := startTime s |}.

Definition set_progress (p : Q) (s : t) : t :=
  {| gsm := gsm s; isPlaying := isPlaying s; isPaused := isPaused s; heap := heap s;
     notes := notes s; activeHoldNotes := activeHoldNotes s;
     songProgress := p; chartIndex := chartIndex s; startTime := startTime s |}.

(** [gameStateManager.updateScore(points, judgment)]. *)
Definition score (points : Z) (j : GameStateManager.Judgment) (s : t) : t :=
  set_gsm (GameStateManager.updateScore points j (gsm s)) s.

(** Assignment to fields of the note object at address [id]. *)
Definition modify (id : nat) (f : Note -> Note) (s : t) : t :=
  match heap s !! id with
  | Some n => set_heap (<[id := f n]> (heap s)) s
  | None => s
  end.

(** The constructor. *)
Definition new (g : GameStateManager.t) : t :=
  {| gsm := g; isPlaying := false; isPaused := false; heap := []; notes := [];
     activeHoldNotes := []; songProgress := 0; chartIndex := 0; startTime := 0 |}.

(** [startGame()]. *)
Definition startGame (now : Q) (s : t) : t :=
  {| gsm := GameStateManager.setStateGame (gsm s);
     isPlaying := true; isPaused := false; heap := heap s; notes := [];
     activeHoldNotes := activeHoldNotes s;
     songProgress := 0; chartIndex := 0; startTime := now |}.

(** [pauseGame()]: a toggle. *)
Definition pauseGame (s : t) : t :=
  {| gsm := gsm s; isPlaying := isPlaying s; isPaused := negb (isPaused s);
     heap := heap s; notes := notes s; activeHoldNotes := activeHoldNotes s;
     songProgress := songProgress s; chartIndex := chartIndex s;
     startTime := startTime s |}.

Definition detach (n : Note) : Note :=
  {| attached := false; sliding := sliding n; lane := lane n; hitTime := hitTime n;
     type := type n; duration := duration n; spawnTime := spawnTime n; hit := hit n;
     isHolding := isHolding n; holdStartTime := holdStartTime n;
     holdScore := holdScore n; screenPosition := screenPosition n |}.

(** [clearAllNotes()]: every element is removed, the array is emptied. *)
Definition clearAllNotes (s : t) : t :=
  set_notes [] (fold_left (fun acc id => modify id detach acc) (notes s) s).

(** [stopGame()]. *)
Definition stopGame (s : t) : t :=
  let s1 := {| gsm := gsm s; isPlaying := false; isPaused := false; heap := heap s;
               notes := notes s; activeHoldNotes := activeHoldNotes s;
               songProgress := songProgress s; chartIndex := chartIndex s;
               startTime := startTime s |} in
  let s2 := set_holds [] (clearAllNotes s1) in
  set_gsm (GameStateManager.endGame (gsm s2)) s2.

Definition setHit (n : Note) : Note :=
  {| attached := attached n; sliding := sliding n; lane := lane n; hitTime := hitTime n;
     type := type n; duration := duration n; spawnTime := spawnTime n; hit := true;
     isHolding := isHolding n; holdStartTime := holdStartTime n;
     holdScore := holdScore n; screenPosition := screenPosition n |}.

(** [isHolding = true; holdStartTime = t; hit = true]. *)
Definition startHolding (t0 : Q) (n : Note) : Note :=
  {| attached := attached n; sliding := sliding n; lane := lane n; hitTime := hitTime n;
     type := type n; duration := duration n; spawnTime := spawnTime n; hit := true;
     isHolding := true; holdStartTime := Some t0;
     holdScore := holdScore n; screenPosition := screenPosition n |}.

(** [isHolding = false]. *)
Definition stopHolding (n : Note) : Note :=
  {| attached := attached n; sliding := sliding n; lane := lane n; hitTime := hitTime n;
     type := type n; duration := duration n; spawnTime := spawnTime n; hit := hit n;
     isHolding := false; holdStartTime := holdStartTime n;
     holdScore := holdScore n; screenPosition := screenPosition n |}.

Definition setHoldScore (p : Z) (n : Note) : Note :=
  {| attached := attached n; sliding := sliding n; lane := lane n; hitTime := hitTime n;
     type := type n; duration := duration n; spawnTime := spawnTime n; hit := hit n;
     isHolding := isHolding n; holdStartTime := holdStartTime n;
     holdScore := p; screenPosition := screenPosition n |}.

Definition stopSliding (n : Note) : Note :=
  {| attached := attached n; sliding := false; lane := lane n; hitTime := hitTime n;
     type := type n; duration := duration n; spawnTime := spawnTime n; hit := hit n;
     isHolding := isHolding n; holdStartTime := holdStartTime n;
     holdScore := holdScore n; screenPosition := screenPosition n |}.

Definition moveLeft (n : Note) : Note :=
  {| attached := attached n; sliding := sliding n; lane := lane n; hitTime := hitTime n;
     type := type n; duration := duration n; spawnTime := spawnTime n; hit := hit n;
     isHolding := isHolding n; holdStartTime := holdStartTime n;
     holdScore := holdScore n; screenPosition := screenPosition n - 5 |}.

(** [completeHoldNote(holdNote, judgment)]: a bonus for perfect, great
    and good; then the note stops holding and its lane leaves the map.
    The UI removes the element half a second later ([detachNote]). *)
Definition completeHoldNote (id : nat) (judgment : GameStateManager.Judgment)
    (s : t) : t :=
  match heap s !! id with
  | None => s
  | Some holdNote =>
      let s1 :=
        match judgment with
        | GameStateManager.perfect => score 500 GameStateManager.perfect s
        | GameStateManager.great => score 300 GameStateManager.great s
        | GameStateManager.good => score 100 GameStateManager.good s
        | _ => s
        end in
      let s2 := modify id stopHolding s1 in
      set_holds (mapDelete (lane holdNote) (activeHoldNotes s2)) s2
  end.

(** The truthiness test [holdNote.isHolding && holdNote.holdStartTime]:
    the start time must be a number other than [0]. *)
Definition holdingSince (n : Note) : option Q :=
  if isHolding n
  then match holdStartTime n with
       | Some t0 => if truthy t0 then Some t0 else None
       | None => None
       end
  else None.

(** The body of the [for ... of] loop of [updateHoldNotes]. *)
Definition updateHold (gameTime : Q) (id : nat) (s : t) : t :=
  match heap s !! id with
  | None => s
  | Some holdNote =>
      match holdingSince holdNote with
      | None => s
      | Some t0 =>
          let holdDuration := gameTime - t0 in
          let maxHoldTime := duration holdNote in
          let progressivePoints := (floor (holdDuration / 100) * 10)%Z in
          let newScore := (progressivePoints - holdScore holdNote)%Z in
          let s1 :=
            if (0 <? newScore)%Z
            then score newScore GameStateManager.hold
                   (modify id (setHoldScore progressivePoints) s)
            else s in
          if geb holdDuration maxHoldTime
          then completeHoldNote id GameStateManager.perfect s1
          else s1
      end
  end.

(** The iteration over the live map: the keys present when the loop
    starts are visited in order, and an entry deleted before its turn is
    skipped. *)
Fixpoint holdLoop (gameTime : Q) (keys : list Lane) (s : t) : t :=
  match keys with
  | [] => s
  | k :: rest =>
      match mapGet k (activeHoldNotes s) with
      | Some id => holdLoop gameTime rest (updateHold gameTime id s)
      | None => holdLoop gameTime rest s
      end
  end.

(** [updateHoldNotes(gameTime)]. *)
Definition updateHoldNotes (gameTime : Q) (s : t) : t :=
  holdLoop gameTime (List.map fst (activeHoldNotes s)) s.

(** The callback of the interval installed by [startNoteSliding(note)]. *)
Definition slideNote (id : nat) (s : t) : t :=
  match heap s !! id with
  | None => s
  | Some note =>
      if negb (sliding note) then s
      else if hit note || negb (attached note)
      then modify id stopSliding s
      else
        let s1 := modify id moveLeft s in
        if ltb (screenPosition note - 5) (-100)
        then
          let s2 := score 0 GameStateManager.miss s1 in
          let s3 := modify id (fun n => stopSliding (detach n)) s2 in
          set_notes (List.filter (fun i => negb (i =? id)%nat) (notes s3)) s3
        else s1
  end.

(** The UI timeout that removes the element of a resolved hold note. *)
Definition detachNote (id : nat) (s : t) : t := modify id detach s.

Section Env.
(** [window.innerWidth], and whether the UI can create a note element
    in a lane. *)
Variable innerWidth : Q.
Variable ui : Lane -> bool.

Definition hitZonePosition : Q := innerWidth * (15 # 100).

(** [createNote(lane, hitTime, type, duration)]. *)
Definition createNote (now : Q) (l : Lane) (h : Q) (ty : NoteType) (d : Q)
    (s : t) : t :=
  if ui l
  then
    let note := {| attached := true; sliding := true; lane := l; hitTime := h;
                   type := ty; duration := d; spawnTime := now - startTime s;
                   hit := false; isHolding := false; holdStartTime := None;
                   holdScore := 0; screenPosition := innerWidth |} in
    set_notes (notes s ++ [length (heap s)]) (set_heap (heap s ++ [note]) s)
  else s.

Definition spawnOne (now : Q) (c : ChartNote) (s : t) : t :=
  let s1 := if cTop c
            then createNote now top (cHitTime c) (cType c) (cDuration c) s else s in
  let s2 := if cBottom c
            then createNote now bottom (cHitTime c) (cType c) (cDuration c) s1 else s1 in
  {| gsm := gsm s2; isPlaying := isPlaying s2; isPaused := isPaused s2;
     heap := heap s2; notes := notes s2; activeHoldNotes := activeHoldNotes s2;
     songProgress := songProgress s2;
     chartIndex := Datatypes.S (chartIndex s2); startTime := startTime s2 |}.

(** [spawnNotes(gameTime)]: the [while] loop; [fuel] bounds the chart
    entries left. *)
Fixpoint spawnLoop (fuel : nat) (now gameTime : Q) (s : t) : t :=
  match fuel with
  | O => s
  | Datatypes.S fuel' =>
      match nth_error createDemoChart (chartIndex s) with
      | None => s
      | Some c =>
          if leb (cSpawnTime c) gameTime
          then spawnLoop fuel' now gameTime (spawnOne now c s)
          else s
      end
  end.

Definition spawnNotes (now gameTime : Q) (s : t) : t :=
  spawnLoop (length createDemoChart - chartIndex s) now gameTime s.

(** The game time that [update()] computes. *)
Definition gameTime (now : Q) (s : t) : Q := now - startTime s.

(** [update()]. *)
Definition update (now : Q) (s : t) : t :=
  if negb (isPlaying s) || isPaused s then s
  else
    let gt := gameTime now s in
    let progress := (gt / songDuration) * 100 in
    let s1 := set_progress progress s in
    let s2 := spawnNotes now gt s1 in
    let s3 := updateHoldNotes gt s2 in
    if geb (songProgress s3) 100 then stopGame s3 else s3.

Definition distance (n : Note) : Q := abs (screenPosition n - hitZonePosition).

(** [findHittableNote(lane)]: the [forEach] over the lane's notes keeps
    the closest one within the 100px window; the result is the note's
    address. *)
Fixpoint closestLoop (h : list Note) (l : Lane) (ids : list nat)
    (closest : option (nat * Q)) : option (nat * Q) :=
  match ids with
  | [] => closest
  | id :: rest =>
      match h !! id with
      | None => closestLoop h l rest closest
      | Some n =>
          let candidate := Lane_eqb (lane n) l && negb (hit n) && attached n in
          let d := distance n in
          let better :=
            match closest with
            | None => true                     (* closestDistance = Infinity *)
            | Some (_, cd) => ltb d cd
            end in
          closestLoop h l rest
            (if candidate && better && ltb d 100 then Some (id, d) else closest)
      end
  end.

Definition findHittableNote (l : Lane) (s : t) : option nat :=
  option_map fst (closestLoop (heap s) l (notes s) None).

(** [calculateJudgment(note)]. *)
Definition calculateJudgment (n : Note) : GameStateManager.Judgment :=
  let d := distance n in
  if leb d 30 then GameStateManager.perfect
  else if leb d 60 then GameStateManager.great
  else if leb d 90 then GameStateManager.good
  else GameStateManager.miss.

(** [calculateScore(judgment)]: [scores[judgment] || 0]. *)
Definition calculateScore (j : GameStateManager.Judgment) : Z :=
  match j with
  | GameStateManager.perfect => 300
  | GameStateManager.great => 200
  | GameStateManager.good => 100
  | _ => 0
  end.

(** The filter of the no-target branch of [handleKeyPress]. *)
Definition nearby (h : list Note) (l : Lane) (id : nat) : bool :=
  match h !! id with
  | Some n => Lane_eqb (lane n) l && negb (hit n) && ltb (distance n) 100
  | None => false
  end.

Definition nearbyNotes (l : Lane) (s : t) : list nat :=
  List.filter (nearby (heap s) l) (notes s).

(** [handleKeyPress(lane)]. *)
Definition handleKeyPress (now : Q) (l : Lane) (s : t) : t :=
  match findHittableNote l s with
  | Some id =>
      match heap s !! id with
      | None => s
      | Some hitNote =>
          let judgment := calculateJudgment hitNote in
          match type hitNote with
          | hold =>
              let s1 := modify id (startHolding (now - startTime s)) s in
              let s2 := set_holds (mapSet l id (activeHoldNotes s1)) s1 in
              score (calculateScore judgment) judgment s2
          | normal =>
              let s1 := modify id setHit s in
              let s2 := score (calculateScore judgment) judgment s1 in
              modify id detach s2               (* uiManager.removeNote *)
          end
      end
  | None =>
      if (0 <? length (nearbyNotes l s))%nat
      then score 0 GameStateManager.miss s
      else s
  end.

(** [handleKeyRelease(lane)]. *)
Definition handleKeyRelease (now : Q) (l : Lane) (s : t) : t :=
  match mapGet l (activeHoldNotes s) with
  | None => s
  | Some id =>
      match heap s !! id with
      | None => s
      | Some holdNote =>
          if isHolding holdNote
          then
            let currentTime := now - startTime s in
            (* a null holdStartTime counts as 0 in the subtraction *)
            let holdStart :=
              match holdStartTime holdNote with Some t0 => t0 | None => 0 end in
            let holdDuration := currentTime - holdStart in
            let maxHoldTime := duration holdNote in
            if geb holdDuration maxHoldTime
            then completeHoldNote id GameStateManager.perfect s
            else
              let completionPercentage := holdDuration / maxHoldTime in
              let judgment :=
                if geb completionPercentage (9 # 10) then GameStateManager.great
                else if geb completionPercentage (7 # 10) then GameStateManager.good
                else GameStateManager.miss in
              completeHoldNote id judgment s
          else s
      end
  end.

(** [handleInput(lane, action)]. *)
Definition handleInput (now : Q) (l : Lane) (action : Action) (s : t) : t :=
  if negb (isPlaying s) || isPaused s then s
  else match action with
       | press => handleKeyPress now l s
       | release => handleKeyRelease now l s
       end.

(** The pattern table of [startNoteFlow()]. *)
Definition flowPatterns : list nat :=
  [ 1; 0; 2; 0; 1; 2; 0; 1;
    0; 2; 1; 0; 2; 0; 1; 0;
    1; 1; 2; 0; 4; 0; 2; 2;
    0; 1; 0; 2; 0; 1; 0; 2;
    3; 0; 0; 1; 0; 5; 0; 0;
    1; 2; 1; 2; 0; 0; 3; 0;
    0; 0; 1; 0; 0; 2; 0; 1;
    2; 1; 0; 1; 2; 0; 1; 2 ]%nat.

(** One callback of the note-flow interval, for the closure's current
    [patternIndex] and [noteId]. *)
Definition flowTick (now : Q) (patternIndex noteId : nat) (s : t) : t :=
  if negb (isPlaying s) then s
  else
    let pattern := nth (patternIndex mod length flowPatterns) flowPatterns O in
    let s1 := if (pattern =? 1)%nat || (pattern =? 3)%nat
              then createNote now top (Nq noteId) normal 0 s else s in
    let id1 := if (pattern =? 1)%nat || (pattern =? 3)%nat
               then Datatypes.S noteId else noteId in
    let s2 := if (pattern =? 2)%nat || (pattern =? 3)%nat
              then createNote now bottom (Nq id1) normal 0 s1 else s1 in
    let s3 := if (pattern =? 4)%nat
              then createNote now top (Nq id1) hold 1800 s2 else s2 in
    if (pattern =? 5)%nat
    then createNote now bottom (Nq id1) hold 1800 s3 else s3.

End Env.

(** Everything that can happen to an engine: calls of its public methods
    and callbacks of the timers it installs. *)
Inductive Event :=
| EStart (now : Q)
| EPause
| EStop
| EUpdate (now : Q)
| EInput (now : Q) (l : Lane) (a : Action)
| ESlide (id : nat)
| EFlow (now : Q) (patternIndex noteId : nat)
| EDetach (id : nat).

Definition step (innerWidth : Q) (ui : Lane -> bool) (e : Event) (s : t) : t :=
  match e with
  | EStart now => startGame now s
  | EPause => pauseGame s
  | EStop => stopGame s
  | EUpdate now => update innerWidth ui now s
  | EInput now l a => handleInput innerWidth now l a s
  | ESlide id => slideNote id s
  | EFlow now p i => flowTick innerWidth ui now p i s
  | EDetach id => detachNote id s
  end.

(** The state after a sequence of events, oldest first. *)
Definition run (innerWidth : Q) (ui : Lane -> bool) (es : list Event) (s : t) : t :=
  fold_left (fun acc e => step innerWidth ui e acc) es s.

End GameEngineHold.

(** ** scripts/bms-timing-engine.js: the chart loader *)

Module BMSChartLoader.
Import JS.
Local Open Scope Q_scope.

(** [chartData.metadata] as loaded: a field may be [undefined]. *)
Record RawMetadata := {
  title : option string;
  artist : option string;
  bpm : option Q;
  subdivision : option Z;
  beatsPerMeasure : option Q;
  offset : option Q
}.

(** A difficulty as loaded: [measures] may be missing. *)
Record RawChart := { measures : option (list BMSTimingEngine.Measure) }.

Record RawChartData := {
  metadata : option RawMetadata;
  charts : option (list (string * RawChart))
}.

Inductive Error :=
| MissingMetadata
| MissingField (field : string)
| NoCharts
| MissingMeasures (difficulty : string)
| NoMeasures (difficulty : string)
| MissingLane (index : nat) (difficulty : string)
| TopLength (index len : nat) (sub : Z)
| BottomLength (index len : nat) (sub : Z)
| TopChars (index : nat)
| BottomChars (index : nat)
| NoTemplate.               (* TypeError: reading a property of undefined *)

Definition emptyLane (p : option string) : bool :=
  match p with
  | None => true
  | Some s => (String.length s =? 0)%nat
  end.

Definition laneLength (p : option string) : nat :=
  match p with Some s => String.length s | None => O end.

(** [/^[01]*$/.test(lane)]. *)
Definition onlyBits (p : option string) : bool :=
  match p with
  | Some s => forallb BMSTimingEngine.validChar (list_ascii_of_string s)
  | None => false
  end.

(** The callback of [chart.measures.forEach] in
    [validateChartDifficulty]: the first failing check throws. *)
Definition checkMeasure (sub : Z) (difficulty : string) (index : nat)
    (me : BMSTimingEngine.Measure) : option Error :=
  let t := BMSTimingEngine.topLane me in
  let b := BMSTimingEngine.bottomLane me in
  if emptyLane t || emptyLane b then Some (MissingLane index difficulty)
  else if negb (Z.of_nat (laneLength t) =? sub)%Z then Some (TopLength index (laneLength t) sub)
  else if negb (Z.of_nat (laneLength b) =? sub)%Z then Some (BottomLength index (laneLength b) sub)
  else if negb (onlyBits t) then Some (TopChars index)
  else if negb (onlyBits b) then Some (BottomChars index)
  else None.

Fixpoint checkMeasures (sub : Z) (difficulty : string) (index : nat)
    (ms : list BMSTimingEngine.Measure) : option Error :=
  match ms with
  | [] => None
  | me :: rest =>
      match checkMeasure sub difficulty index me with
      | Some e => Some e
      | None => checkMeasures sub difficulty (Datatypes.S index) rest
      end
  end.

(** [validateChartDifficulty(chart, difficultyName, metadata)]; the result
    is the measures array when nothing was thrown. *)
Definition validateChartDifficulty (chart : RawChart) (difficultyName : string)
    (sub : Z) : result Error (list BMSTimingEngine.Measure) :=
  match measures chart with
  | None => Throw (MissingMeasures difficultyName)
  | Some ms =>
      if (length ms =? 0)%nat then Throw (NoMeasures difficultyName)
      else match checkMeasures sub difficultyName 0 ms with
           | Some e => Throw e
           | None => Ok ms
           end
  end.

(** The loop over [Object.entries(chartData.charts)]. *)
Fixpoint validateAll (sub : Z) (cs : list (string * RawChart))
    : result Error (list (string * BMSTimingEngine.Chart)) :=
  match cs with
  | [] => Ok []
  | (d, c) :: rest =>
      match validateChartDifficulty c d sub with
      | Throw e => Throw e
      | Ok ms =>
          match validateAll sub rest with
          | Throw e => Throw e
          | Ok done => Ok ((d, {| BMSTimingEngine.measures := ms |}) :: done)
          end
      end
  end.

(** [processChartData(chartData)].  The returned chart data is given with
    the fields that the timing engine reads; [offset] has its default. *)
Definition processChartData (chartData : RawChartData)
    : result Error BMSTimingEngine.ChartData :=
  match metadata chartData with
  | None => Throw MissingMetadata
  | Some md =>
      match title md, artist md, bpm md, subdivision md, beatsPerMeasure md with
      | None, _, _, _, _ => Throw (MissingField "title")
      | _, None, _, _, _ => Throw (MissingField "artist")
      | _, _, None, _, _ => Throw (MissingField "bpm")
      | _, _, _, None, _ => Throw (MissingField "subdivision")
      | _, _, _, _, None => Throw (MissingField "beatsPerMeasure")
      | Some _, Some _, Some b, Some sub, Some bpmeasure =>
          let off := match offset md with Some o => o | None => 0 end in
          match charts chartData with
          | None => Throw NoCharts
          | Some cs =>
              if (length cs =? 0)%nat then Throw NoCharts
              else match validateAll sub cs with
                   | Throw e => Throw e
                   | Ok typed =>
                       Ok {| BMSTimingEngine.metadata :=
                               {| BMSTimingEngine.bpm := b;
                                  BMSTimingEngine.subdivision := sub;
                                  BMSTimingEngine.beatsPerMeasure := bpmeasure;
                                  BMSTimingEngine.offset := off |};
                             BMSTimingEngine.charts := typed |}
                   end
          end
      end
  end.

(** The keys of the template table. *)
Inductive PatternType := basic | intermediate | advanced | expert.

Definition T (t b : string) : BMSTimingEngine.Measure :=
  {| BMSTimingEngine.topLane := Some t; BMSTimingEngine.bottomLane := Some b |}.

(** [getPatternTemplates(subdivision)], at one key. *)
Definition getPatternTemplates (sub : option Z) (ty : PatternType)
    : list BMSTimingEngine.Measure :=
  match sub with
  | Some 16%Z =>
      match ty with
      | basic => [ T "1000100010001000" "0010001000100010";
                   T "1000000010000000" "0000100000001000" ]
      | intermediate => [ T "1010000010100000" "0000101000001010";
                          T "1001001010010010" "0100100001001001" ]
      | advanced => [ T "1010101010101010" "0101010101010101";
                      T "1100110011001100" "0011001100110011" ]
      | expert => [ T "1111101011111010" "0101011101010111";
                    T "1011010110110101" "0100101001001010" ]
      end
  | Some 8%Z =>
      match ty with
      | basic => [ T "10001000" "01000100" ]
      | intermediate => [ T "10101010" "01010101" ]
      | _ => []
      end
  | _ => []
  end.

(** The [for] loop of [generateChart]: measure [i] is template
    [i % selectedPattern.length]; with no template the property read
    throws. *)
Fixpoint generateMeasures (selected : list BMSTimingEngine.Measure) (i count : nat)
    : result Error (list BMSTimingEngine.Measure) :=
  match count with
  | O => Ok []
  | Datatypes.S count' =>
      match nth_error selected (i mod length selected) with
      | None => Throw NoTemplate
      | Some me =>
          match generateMeasures selected (Datatypes.S i) count' with
          | Throw e => Throw e
          | Ok rest => Ok (me :: rest)
          end
      end
  end.

(** [generateChart(metadata, difficulty, measureCount, patternType)], with
    [createChartFromPatterns]. *)
Definition generateChart (md : RawMetadata) (difficulty : string)
    (measureCount : nat) (patternType : PatternType)
    : result Error BMSTimingEngine.ChartData :=
  let selectedPattern := getPatternTemplates (subdivision md) patternType in
  match generateMeasures selectedPattern 0 measureCount with
  | Throw e => Throw e
  | Ok ms =>
      processChartData
        {| metadata := Some md;
           charts := Some [(difficulty, {| measures := Some ms |})] |}
  end.

(** [estimateDuration(chartData)], in seconds: the [reduce] keeps the
    first of the longest charts and throws on an empty object. *)
Fixpoint longest (best : BMSTimingEngine.Chart) (cs : list (string * BMSTimingEngine.Chart))
    : BMSTimingEngine.Chart :=
  match cs with
  | [] => best
  | (_, c) :: rest =>
      if (length (BMSTimingEngine.measures best) <? length (BMSTimingEngine.measures c))%nat
      then longest c rest else longest best rest
  end.

Definition estimateDuration (cd : BMSTimingEngine.ChartData) : result Error Q :=
  match BMSTimingEngine.charts cd with
  | [] => Throw NoCharts
  | (_, c) :: rest =>
      let longestChart := longest c rest in
      let measureCount := Nq (length (BMSTimingEngine.measures longestChart)) in
      let md := BMSTimingEngine.metadata cd in
      let totalBeats := measureCount * BMSTimingEngine.beatsPerMeasure md in
      Ok ((totalBeats / BMSTimingEngine.bpm md) * 60)
  end.

End BMSChartLoader.

(** ** Scenarios *)

Module Scenario.
Import JS.
Local Open Scope Q_scope.
Local Open Scope string_scope.

(** The chart of the end-to-end timing scenario: 120 BPM, 16
    subdivisions, 4 beats per measure, no offset, one measure with quarter
    notes in the top lane and any bottom lane. *)
Definition quarterNotes (bottom : option string) : BMSTimingEngine.ChartData :=
  {| BMSTimingEngine.metadata := BMSTimingEngine.testMetadata;
     BMSTimingEngine.charts :=
       [("easy",
         {| BMSTimingEngine.measures :=
              [ {| BMSTimingEngine.topLane := Some "1000100010001000";
                   BMSTimingEngine.bottomLane := bottom |} ] |})] |}.

(** A chart whose top lane pattern has 3 characters for 16 subdivisions. *)
Definition shortPattern : string := "101".

Definition malformedChart : BMSTimingEngine.ChartData :=
  {| BMSTimingEngine.metadata := BMSTimingEngine.testMetadata;
     BMSTimingEngine.charts :=
       [("easy",
         {| BMSTimingEngine.measures :=
              [ {| BMSTimingEngine.topLane := Some shortPattern;
                   BMSTimingEngine.bottomLane := Some "1000100010001000" |} ] |})] |}.

(** A finished session with the given judgment counts. *)
Definition counts (p gr go mi : Z) : GameStateManager.t :=
  {| GameStateManager.currentState := GameStateManager.game_over;
     GameStateManager.scores := GameStateManager.zeroScores;
     GameStateManager.stats :=
       {| GameStateManager.nperfect := p; GameStateManager.ngreat := gr;
          GameStateManager.ngood := go; GameStateManager.nmiss := mi;
          GameStateManager.nhold := 0 |} |}.

(** A window 1000 px wide (hit zone at 150 px) in which the UI can
    always create note elements. *)
Definition width : Q := 1000.
Definition uiReady : Lane -> bool := fun _ => true.

(** The tap-only engine, started at 0 ms, with a first frame at 1000 ms. *)
Definition started : GameEngine.t :=
  GameEngine.update width uiReady 1000
    (GameEngine.startGame 0 (GameEngine.new GameStateManager.init)).

(** The session is paused at 1000 ms and resumed at 3000 ms ([pauseGame]
    takes no time stamp); the next frame comes at 3016 ms. *)
Definition resumed : GameEngine.t :=
  GameEngine.pauseGame (GameEngine.pauseGame started).

Import GameEngineHold.

Definition fresh : GameEngineHold.t := GameEngineHold.new GameStateManager.init.

(** The note object at an address. *)
Definition noteAt (s : GameEngineHold.t) (id : nat) : option Note := heap s !! id.

Definition play (es : list Event) (s : GameEngineHold.t) : GameEngineHold.t :=
  run width uiReady es s.

(** [n] callbacks of the sliding interval of note [id]: 170 of them take
    a note from the right edge (1000 px) to the hit zone (150 px). *)
Definition slides (id n : nat) : list Event := repeat (ESlide id) n.


Definition beforeRelease : list Event :=
  [EStart 0; EUpdate 200] ++ slides 0 170 ++ [EInput 2920 top press].

(** After the start: the first note is spawned, slides half the way, and
    the game is stopped. *)
Definition stoppedEarly : list Event :=
  [EUpdate 200] ++ slides 0 85 ++ [EStop].

(** A session with one top-lane hold note of 1000 ms, slid to the hit
    zone. *)
Definition oneSecondHold : GameEngineHold.t :=
  play (slides 0 170)
    (createNote width uiReady 0 top 3000 hold 1000 (startGame 0 fresh)).

(** The note is pressed at 2720 ms; the frame at 3720 ms finds it held
    for exactly 1000 ms. *)
Definition oneSecondPressed : GameEngineHold.t :=
  play [EInput 2720 top press] oneSecondHold.

Definition oneSecondHeld : GameEngineHold.t :=
  play [EUpdate 3720] oneSecondPressed.



(** A state with one unresolved top-lane note at the hit zone whose
    element is no longer in the document. *)
Definition orphan : Note :=
  {| attached := false; sliding := false; lane := top; hitTime := 3200;
     type := normal; duration := 0; spawnTime := 200; hit := false;
     isHolding := false; holdStartTime := None; holdScore := 0;
     screenPosition := 150 |}.


(** The note object of the one-second session, before the press and
    after it. *)
Definition slidNote : Note :=
  Eval vm_compute in
    match noteAt oneSecondHold 0 with Some n => n | None => orphan end.

Definition pressedNote : Note :=
  Eval vm_compute in
    match noteAt oneSecondPressed 0 with Some n => n | None => orphan end.

(** Raw metadata as a chart file gives them. *)
Definition rawMetadata (sub : Z) : BMSChartLoader.RawMetadata :=
  {| BMSChartLoader.title := Some "Demo Song"; BMSChartLoader.artist := Some "Demo Artist";
     BMSChartLoader.bpm := Some 128; BMSChartLoader.subdivision := Some sub;
     BMSChartLoader.beatsPerMeasure := Some 4; BMSChartLoader.offset := None |}.

(** Chart data as loaded from a file, with one difficulty of two
    measures. *)
Definition rawChart : BMSChartLoader.RawChartData :=
  {| BMSChartLoader.metadata := Some (rawMetadata 16);
     BMSChartLoader.charts :=
       Some [("easy",
              {| BMSChartLoader.measures :=
                   Some [ BMSChartLoader.T "1000100010001000" "0010001000100010";
                          BMSChartLoader.T "1010000010100000" "0000101000001010" ] |})] |}.

End Scenario.

(** ** Predicates on schedules *)

Module Schedule.
Local Open Scope Q_scope.

Definition isTopNote (n : BMSTimingEngine.Note) : bool :=
  Lane_eqb (BMSTimingEngine.lane n) top.

(** The order of the sorted schedule. *)
Definition notAfter (a b : BMSTimingEngine.Note) : Prop :=
  BMSTimingEngine.hitTime a <= BMSTimingEngine.hitTime b.

(** The schedule invariant of a generated note. *)
Definition scheduled (travelTimeMs : Q) (n : BeatChartGenerator.ChartNote) : Prop :=
  BeatChartGenerator.spawnTime n = BeatChartGenerator.hitTime n - travelTimeMs /\
  0 <= BeatChartGenerator.spawnTime n.




(** A note with a simultaneous hit turned into a top hit. *)
Definition topOnly (n : BeatChartGenerator.ChartNote) : BeatChartGenerator.ChartNote :=
  if BeatChartGenerator.topLane n && BeatChartGenerator.bottomLane n
  then BeatChartGenerator.withLanes true false n else n.

(** What the second note of a pair keeps of the first: the times, the
    beat and the section, and every lane that the first one plays. *)
Definition addsLanes (a b : BeatChartGenerator.ChartNote) : Prop :=
  BeatChartGenerator.spawnTime b = BeatChartGenerator.spawnTime a /\
  BeatChartGenerator.hitTime b = BeatChartGenerator.hitTime a /\
  BeatChartGenerator.beat b = BeatChartGenerator.beat a /\
  BeatChartGenerator.section b = BeatChartGenerator.section a /\
  BeatChartGenerator.noteIntensity b = BeatChartGenerator.noteIntensity a /\
  (BeatChartGenerator.topLane a = true -> BeatChartGenerator.topLane b = true) /\
  (BeatChartGenerator.bottomLane a = true -> BeatChartGenerator.bottomLane b = true).

(** The pairs of neighbours that [validateChart] inspects are far enough
    apart, and the first of each pair does not spawn early. *)
Definition spaced (chart : list BeatChartGenerator.ChartNote) : Prop :=
  forall k cur next,
    chart !! k = Some cur -> chart !! Datatypes.S k = Some next ->
    100 <= BeatChartGenerator.hitTime next - BeatChartGenerator.hitTime cur /\
    0 <= BeatChartGenerator.spawnTime cur.

(** A lane pattern that [validatePattern] accepts: present, not empty, as
    long as the subdivision, made of the characters 0 and 1. *)
Definition wellFormed (md : BMSTimingEngine.Metadata) (p : option string) : bool :=
  match p with
  | None => false
  | Some s =>
      negb (String.length s =? 0)%nat &&
      (Z.of_nat (String.length s) =? BMSTimingEngine.subdivision md)%Z &&
      forallb BMSTimingEngine.validChar (list_ascii_of_string s)
  end.

Definition wellFormedMeasure (md : BMSTimingEngine.Metadata)
    (me : BMSTimingEngine.Measure) : bool :=
  wellFormed md (BMSTimingEngine.topLane me) &&
  wellFormed md (BMSTimingEngine.bottomLane me).

(** The notes that a lane contributes, in closed form. *)
Definition laneNotes (md : BMSTimingEngine.Metadata) (p : option string) (m : nat)
    (ln : Lane) : list BMSTimingEngine.Note :=
  if BMSTimingEngine.invalidPattern md p then []
  else match p with
       | None => []
       | Some s =>
           List.map (fun j => BMSTimingEngine.mkNote md m j ln)
             (BMSTimingEngine.onsetPositions 0 (list_ascii_of_string s))
       end.

(** The number of lane patterns of a list of measures that are not well
    formed. *)
Definition illFormedLanes (md : BMSTimingEngine.Metadata)
    (ms : list BMSTimingEngine.Measure) : nat :=
  list_sum (List.map (fun me =>
    ((if wellFormed md (BMSTimingEngine.topLane me) then 0 else 1)
     + (if wellFormed md (BMSTimingEngine.bottomLane me) then 0 else 1))%nat) ms).

(** The onsets of all lanes of a list of measures. *)
Fixpoint totalOnsets (ms : list BMSTimingEngine.Measure) : nat :=
  match ms with
  | [] => O
  | me :: rest =>
      (BMSTimingEngine.onsets (BMSTimingEngine.topLane me)
       + BMSTimingEngine.onsets (BMSTimingEngine.bottomLane me)
       + totalOnsets rest)%nat
  end.

(** A note of a chart of [count] measures: it lies on the grid, in one of
    the measures and at an index below the subdivision. *)
Definition onGrid (md : BMSTimingEngine.Metadata) (count : nat)
    (n : BMSTimingEngine.Note) : Prop :=
  (BMSTimingEngine.measureIndex n < count)%nat /\
  (Z.of_nat (BMSTimingEngine.subdivisionIndex n) < BMSTimingEngine.subdivision md)%Z /\
  BMSTimingEngine.hitTime n =
    BMSTimingEngine.calculateNoteTime md (BMSTimingEngine.measureIndex n)
      (BMSTimingEngine.subdivisionIndex n).

End Schedule.

(** ** The invariant of the map of active holds *)

Module ActiveHolds.
Import GameEngineHold.

(** An entry is sound when it maps its lane to a hold note of that lane
    that has been hit and is holding. *)
Definition entryOk (s : t) (e : Lane * nat) : Prop :=
  exists n, heap s !! (snd e) = Some n /\
    lane n = fst e /\ type n = hold /\ hit n = true /\ isHolding n = true.

(** At most one entry per lane, and every entry is sound. *)
Definition sound (s : t) : Prop :=
  NoDup (List.map fst (activeHoldNotes s)) /\ Forall (entryOk s) (activeHoldNotes s).




(** Relations between a state and a later one, used to carry the
    invariant across operations.  [keeps]: every note object keeps its
    lane and type, and stays hit and holding if it was.  [steady]: no
    note starts holding, and every live note was live or is new.
    [calm]: both, with the map untouched. *)
Definition keeps (s s' : t) : Prop :=
  forall id n, heap s !! id = Some n ->
    exists n', heap s' !! id = Some n' /\ lane n' = lane n /\ type n' = type n /\
      (hit n = true -> hit n' = true) /\ (isHolding n = true -> isHolding n' = true).

Definition steady (s s' : t) : Prop :=
  (forall id n', heap s' !! id = Some n' -> isHolding n' = true ->
     exists n, heap s !! id = Some n /\ isHolding n = true /\ lane n = lane n') /\
  (forall id, In id (notes s') -> In id (notes s) \/ heap s !! id = None).

Definition calm (s s' : t) : Prop :=
  keeps s s' /\ steady s s' /\ activeHoldNotes s' = activeHoldNotes s.

(** The state after a press that starts a hold. *)
Definition held (now : Q) (l : Lane) (id : nat) (s : t) : t :=
  let s1 := modify id (startHolding (now - startTime s)) s in
  set_holds (mapSet l id (activeHoldNotes s1)) s1.

(** A field assignment that leaves lane, type, hit and holding alone. *)
Definition cosmetic (f : Note -> Note) : Prop :=
  forall n, lane (f n) = lane n /\ type (f n) = type n /\
    (hit n = true -> hit (f n) = true) /\ isHolding (f n) = isHolding n.

End ActiveHolds.

(** ** A hold note held through a sequence of frames *)

Module HoldRun.
Import GameEngineHold.
Local Open Scope Z_scope.

(** The score state of an engine. *)
Definition currentOf (s : t) : Z := GameStateManager.current (GameStateManager.scores (gsm s)).
Definition comboOf (s : t) : Z := GameStateManager.combo (GameStateManager.scores (gsm s)).
Definition perfectOf (s : t) : Z := GameStateManager.nperfect (GameStateManager.stats (gsm s)).
Definition greatOf (s : t) : Z := GameStateManager.ngreat (GameStateManager.stats (gsm s)).
Definition goodOf (s : t) : Z := GameStateManager.ngood (GameStateManager.stats (gsm s)).
Definition missOf (s : t) : Z := GameStateManager.nmiss (GameStateManager.stats (gsm s)).
Definition holdOf (s : t) : Z := GameStateManager.nhold (GameStateManager.stats (gsm s)).

(** The frames at the given times, oldest first. *)
Definition frames (w : Q) (ui : Lane -> bool) (times : list Q) (s : t) : t :=
  fold_left (fun acc now => update w ui now acc) times s.

(** Since [s0], [points] progressive points have been awarded in [k]
    awards, and nothing else was judged. *)
Definition awarded (s0 s : t) (points k : Z) : Prop :=
  currentOf s = currentOf s0 + points /\ comboOf s = comboOf s0 + k /\
  holdOf s = holdOf s0 + k /\ perfectOf s = perfectOf s0 /\
  greatOf s = greatOf s0 /\ goodOf s = goodOf s0 /\ missOf s = missOf s0.

(** The note at [id] is the only active hold, held since [t0] with
    [10 * j] progressive points so far. *)
Definition midHold (s0 s : t) (l : Lane) (id : nat) (t0 : Q) (j k : Z) : Prop :=
  isPlaying s = true /\ isPaused s = false /\ startTime s = startTime s0 /\
  activeHoldNotes s = [(l, id)] /\
  (exists n, heap s !! id = Some n /\ lane n = l /\ isHolding n = true /\
     holdStartTime n = Some t0 /\ (duration n == 1000)%Q /\ holdScore n = 10 * j) /\
  0 <= k <= j /\ j <= 9 /\
  awarded s0 s (10 * j) k.

(** A later state that differs by appended note objects (and by the
    live notes and the chart index) only. *)
Definition extends (s s' : t) : Prop :=
  gsm s' = gsm s /\ isPlaying s' = isPlaying s /\ isPaused s' = isPaused s /\
  startTime s' = startTime s /\ songProgress s' = songProgress s /\
  activeHoldNotes s' = activeHoldNotes s /\
  (forall id n, heap s !! id = Some n -> heap s' !! id = Some n).

End HoldRun.

(** ** The tally of scores and judgments *)

Module Tally.
Import GameStateManager.
Local Open Scope Z_scope.

(** The judgments that count for the combo. *)
Definition judged (g : t) : Z :=
  nperfect (stats g) + ngreat (stats g) + ngood (stats g) + nhold (stats g).

(** The combo is at most the best combo, which is at most the number of
    judgments other than misses; nothing is negative. *)
Definition consistent (g : t) : Prop :=
  0 <= combo (scores g) /\ combo (scores g) <= maxCombo (scores g) /\
  maxCombo (scores g) <= judged g /\ 0 <= current (scores g) /\
  0 <= nperfect (stats g) /\ 0 <= ngreat (stats g) /\ 0 <= ngood (stats g) /\
  0 <= nmiss (stats g) /\ 0 <= nhold (stats g).

(** The score, the best combo and every count of the later state are at
    least those of the earlier one. *)
Definition advances (g g' : t) : Prop :=
  current (scores g) <= current (scores g') /\
  maxCombo (scores g) <= maxCombo (scores g') /\
  nperfect (stats g) <= nperfect (stats g') /\ ngreat (stats g) <= ngreat (stats g') /\
  ngood (stats g) <= ngood (stats g') /\ nmiss (stats g) <= nmiss (stats g') /\
  nhold (stats g) <= nhold (stats g').

Definition tally (s s' : GameEngineHold.t) : Prop :=
  advances (GameEngineHold.gsm s) (GameEngineHold.gsm s') /\
  (consistent (GameEngineHold.gsm s) -> consistent (GameEngineHold.gsm s')).

End Tally.

(** ** The targets of a key press *)

Module Target.
Import GameEngineHold.
Local Open Scope Q_scope.

(** A live note that a press in lane [l] can hit: it is in the lane, not
    hit yet, and its element is still in the document. *)
Definition hittable (h : list Note) (l : Lane) (id : nat) (n : Note) : Prop :=
  h !! id = Some n /\ lane n = l /\ hit n = false /\ attached n = true.

(** The running minimum of [findHittableNote] bounds a distance: it is at
    most the distance, or there is none and the distance is outside the
    hit window. *)
Definition bounds (c : option (nat * Q)) (x : Q) : Prop :=
  match c with
  | Some (_, d) => d <= x
  | None => 100 <= x
  end.

Definition inWindow (c : option (nat * Q)) : Prop :=
  match c with
  | Some (_, d) => d < 100
  | None => True
  end.

End Target.

(** ** How note objects change *)

Module Aging.
Import GameEngineHold.
Local Open Scope Q_scope.

(** What a note object keeps, and what can only go one way: its lane,
    type, times and duration stay; once hit it stays hit; once its slide
    interval is cleared it stays cleared; once its element is removed it
    stays removed; it never moves to the right and its progressive hold
    score never goes down. *)
Definition ages (n n' : Note) : Prop :=
  lane n' = lane n /\ type n' = type n /\ hitTime n' = hitTime n /\
  duration n' = duration n /\ spawnTime n' = spawnTime n /\
  (hit n = true -> hit n' = true) /\
  (sliding n = false -> sliding n' = false) /\
  (attached n = false -> attached n' = false) /\
  screenPosition n' <= screenPosition n /\
  (holdScore n <= holdScore n')%Z.

(** Every note object of the earlier state is still there, aged. *)
Definition persists (s s' : t) : Prop :=
  forall id n, heap s !! id = Some n ->
    exists n', heap s' !! id = Some n' /\ ages n n'.

End Aging.

(** ** Sessions: from a start to the end of the game *)

Module Session.
Import GameEngineHold.

(** A sequence of events without a start of the game. *)
Definition noStart (es : list Event) : bool :=
  forallb (fun e => match e with EStart _ => false | _ => true end) es.

(** A note whose slide interval can still count it as missed: the
    interval is installed, the element is in the document, and the note
    is not hit. *)
Definition slidable (n : Note) : bool := sliding n && attached n && negb (hit n).

(** No note object can slide off any more. *)
Definition settled (s : t) : Prop :=
  forall id n, heap s !! id = Some n -> slidable n = false.

(** Every note that can still slide off is a live note. *)
Definition tracked (s : t) : Prop :=
  forall id n, heap s !! id = Some n -> slidable n = true -> In id (notes s).

(** The engine after the end of a game. *)
Definition halted (s : t) : Prop :=
  isPlaying s = false /\ notes s = [] /\ activeHoldNotes s = [] /\
  GameStateManager.currentState (gsm s) = GameStateManager.game_over /\
  settled s.

End Session.

(** * Properties *)

Local Open Scope Q_scope.

(** ** Comparisons of numbers *)

Module JSFacts.
Import JS.

Lemma ltb_lt (x y : Q) : ltb x y = true <-> x < y.
Proof.
  unfold ltb. rewrite negb_true_iff.
  destruct (Qle_bool y x) eqn:E.
  - apply Qle_bool_iff in E. split; [discriminate | intros H; lra].
  - split; [intros _ | reflexivity].
    apply Qnot_le_lt. intros H. apply Qle_bool_iff in H. congruence.
Qed.

Lemma ltb_ge (x y : Q) : ltb x y = false <-> y <= x.
Proof. unfold ltb. rewrite negb_false_iff. apply Qle_bool_iff. Qed.

Lemma leb_le (x y : Q) : leb x y = true <-> x <= y.
Proof. apply Qle_bool_iff. Qed.

Lemma geb_ge (x y : Q) : geb x y = true <-> y <= x.
Proof. apply Qle_bool_iff. Qed.

Lemma geb_lt (x y : Q) : geb x y = false <-> x < y.
Proof.
  unfold geb. destruct (Qle_bool y x) eqn:E.
  - apply Qle_bool_iff in E. split; [discriminate | intros H; lra].
  - split; [intros _ | reflexivity].
    apply Qnot_le_lt. intros H. apply Qle_bool_iff in H. congruence.
Qed.

End JSFacts.

(** ** Grid charts *)

Module BMSFacts.
Import JS JSFacts BMSTimingEngine Schedule.

(** *** The stable sort and a lane filter commute *)

Lemma insertNote_front x l :
  Forall (fun z => hitTime x < hitTime z) l -> insertNote x l = x :: l.
Proof.
  destruct l as [|y rest]; [reflexivity|].
  intros H. apply Forall_cons_1 in H as [Hy _]. simpl.
  apply ltb_lt in Hy. now rewrite Hy.
Qed.

Lemma insertNote_Forall (P : Note -> Prop) x l :
  P x -> Forall P l -> Forall P (insertNote x l).
Proof.
  intros Hx. induction 1 as [|y rest Hy Hrest IH]; simpl.
  - repeat constructor; assumption.
  - destruct (ltb (hitTime x) (hitTime y)); repeat constructor; assumption.
Qed.

Lemma insertNote_sorted x l :
  StronglySorted notAfter l -> StronglySorted notAfter (insertNote x l).
Proof.
  induction 1 as [|y rest Hs IH Hall]; simpl.
  - repeat constructor.
  - destruct (ltb (hitTime x) (hitTime y)) eqn:E.
    + apply ltb_lt in E. constructor.
      * constructor; assumption.
      * constructor; [unfold notAfter; lra|].
        eapply Forall_impl; [exact Hall|]. unfold notAfter. intros z Hz. simpl in Hz. lra.
    + apply ltb_ge in E. constructor; [exact IH|].
      apply insertNote_Forall; [exact E | exact Hall].
Qed.

Lemma filter_insertNote (p : Note -> bool) x l :
  StronglySorted notAfter l ->
  List.filter p (insertNote x l) =
    if p x then insertNote x (List.filter p l) else List.filter p l.
Proof.
  induction 1 as [|y rest Hs IH Hall]; simpl.
  - destruct (p x); reflexivity.
  - destruct (ltb (hitTime x) (hitTime y)) eqn:E; simpl.
    + destruct (p x) eqn:Px; [|reflexivity].
      destruct (p y) eqn:Py; simpl; [now rewrite E|].
      symmetry. apply insertNote_front.
      apply ltb_lt in E.
      assert (Hrest : Forall (fun z => hitTime x < hitTime z) rest).
      { eapply Forall_impl; [exact Hall|]. unfold notAfter. intros z Hz. simpl in Hz. lra. }
      clear - Hrest. induction Hrest as [|z zs Hz Hzs IHz]; simpl; [constructor|].
      destruct (p z); [constructor|]; assumption.
    + rewrite IH. destruct (p x), (p y); simpl; try rewrite E; reflexivity.
Qed.

Lemma filter_sort_from (p : Note -> bool) l acc :
  StronglySorted notAfter acc ->
  List.filter p (fold_left (fun a x => insertNote x a) l acc) =
    fold_left (fun a x => insertNote x a) (List.filter p l) (List.filter p acc).
Proof.
  revert acc. induction l as [|x l IH]; intros acc Hacc; simpl; [reflexivity|].
  rewrite IH by (apply insertNote_sorted; exact Hacc).
  rewrite filter_insertNote by exact Hacc.
  destruct (p x); reflexivity.
Qed.

Lemma filter_sortNotes (p : Note -> bool) l :
  List.filter p (sortNotes l) = sortNotes (List.filter p l).
Proof. unfold sortNotes. apply filter_sort_from. constructor. Qed.

(** *** What a lane contributes *)

Lemma laneLoop_app md m ln i cs notes :
  laneLoop md m ln i cs notes = notes ++ laneLoop md m ln i cs [].
Proof.
  revert i notes. induction cs as [|c cs IH]; intros i notes; simpl.
  - now rewrite app_nil_r.
  - destruct (is_one c).
    + rewrite IH. rewrite (IH _ [_]). now rewrite app_assoc.
    + apply IH.
Qed.

Lemma laneLoop_lane md m ln i cs :
  Forall (fun n => lane n = ln) (laneLoop md m ln i cs []).
Proof.
  revert i. induction cs as [|c cs IH]; intros i; simpl; [constructor|].
  destruct (is_one c); [|apply IH].
  rewrite laneLoop_app. apply Forall_app. split; [|apply IH].
  repeat constructor.
Qed.

Lemma processLane_app md p m ln notes :
  processLane md p m ln notes = notes ++ processLane md p m ln [].
Proof.
  unfold processLane. destruct (invalidPattern md p); [now rewrite app_nil_r|].
  destruct p; [apply laneLoop_app | now rewrite app_nil_r].
Qed.

Lemma processLane_lane md p m ln :
  Forall (fun n => lane n = ln) (processLane md p m ln []).
Proof.
  unfold processLane. destruct (invalidPattern md p); [constructor|].
  destruct p; [apply laneLoop_lane | constructor].
Qed.

Lemma filter_other_lane (l : list Note) :
  Forall (fun n => lane n = bottom) l -> List.filter isTopNote l = [].
Proof.
  induction 1 as [|n l Hn _ IH]; simpl; [reflexivity|].
  unfold isTopNote at 1. now rewrite Hn.
Qed.

(** Every note that [processLane] pushes is scheduled 3000 ms before its
    hit time, whatever the sign of the result. *)
Lemma mkNote_spawn md m i ln :
  spawnTime (mkNote md m i ln) = hitTime (mkNote md m i ln) - 3000.
Proof. reflexivity. Qed.

Lemma laneLoop_spawn md m ln i cs :
  Forall (fun n => spawnTime n = hitTime n - 3000) (laneLoop md m ln i cs []).
Proof.
  revert i. induction cs as [|c cs IH]; intros i; simpl; [constructor|].
  destruct (is_one c); [|apply IH].
  rewrite laneLoop_app. apply Forall_app. split; [|apply IH].
  repeat constructor.
Qed.

(** The grid formula of the conversion, in milliseconds. *)
Lemma mkNote_hitTime md m i ln :
  ~ bpm md == 0 ->
  hitTime (mkNote md m i ln) ==
    (Nq m * beatsPerMeasure md + (Nq i / Zq (subdivision md)) * beatsPerMeasure md)
      * (60000 / bpm md) + offset md * 1000.
Proof.
  intros Hb. unfold mkNote, secondsPerBeat. simpl.
  generalize (Nq i / Zq (subdivision md)). intros q. field. exact Hb.
Qed.

(** Sorting keeps whatever holds of every note. *)
Lemma sortNotes_Forall (P : Note -> Prop) l : Forall P l -> Forall P (sortNotes l).
Proof.
  unfold sortNotes. intros H.
  assert (G : forall acc, Forall P acc ->
            Forall P (fold_left (fun a x => insertNote x a) l acc)).
  { induction H as [|x l Hx Hl IH]; intros acc Hacc; simpl; [exact Hacc|].
    apply IH. now apply insertNote_Forall. }
  apply G. constructor.
Qed.

Lemma processLane_spawn md p m ln :
  Forall (fun n => spawnTime n = hitTime n - 3000) (processLane md p m ln []).
Proof.
  unfold processLane. destruct (invalidPattern md p); [constructor|].
  destruct p; [apply laneLoop_spawn | constructor].
Qed.

Lemma measuresLoop_spawn md m ms notes :
  Forall (fun n => spawnTime n = hitTime n - 3000) notes ->
  Forall (fun n => spawnTime n = hitTime n - 3000) (measuresLoop md m ms notes).
Proof.
  revert m notes. induction ms as [|me ms IH]; intros m notes H; simpl; [exact H|].
  apply IH. rewrite processLane_app. apply Forall_app. split; [|apply processLane_spawn].
  rewrite processLane_app. apply Forall_app. split; [exact H | apply processLane_spawn].
Qed.

(** Every note of a converted chart is scheduled 3000 ms before its hit
    time. *)
Lemma convert_spawn_offset cd d notes :
  convertToGameFormat cd d = Ok notes ->
  Forall (fun n => spawnTime n = hitTime n - 3000) notes.
Proof.
  unfold convertToGameFormat. destruct (lookup_chart d (charts cd)); [|discriminate].
  intros H. inversion H; subst notes.
  apply sortNotes_Forall, measuresLoop_spawn. constructor.
Qed.

(** *** C7 *)

(** C7: converting the chart with bpm 120, subdivision 16, 4 beats per
    measure, offset 0 and the single top-lane pattern "1000100010001000"
    succeeds, and the top-lane notes of the result are exactly four, with
    hit times 0, 500, 1000 and 1500 ms, each the value of the grid formula
    ((m * beatsPerMeasure + (i / subdivision) * beatsPerMeasure)
       * 60000 / bpm) + offset in ms
    at its measure [m] and subdivision index [i], whatever the bottom lane
    holds. *)
Theorem quarter_notes_hit_times (bottom : option string) :
  exists notes,
    convertToGameFormat (Scenario.quarterNotes bottom) "easy" = Ok notes /\
    Forall2 Qeq (List.map hitTime (List.filter isTopNote notes))
      [0; 500; 1000; 1500] /\
    Forall (fun n =>
              hitTime n ==
                (Nq (measureIndex n) * 4 + (Nq (subdivisionIndex n) / 16) * 4)
                  * (60000 / 120) + 0 * 1000)
      (List.filter isTopNote notes).
Proof.
  eexists. split; [reflexivity|].
  rewrite filter_sortNotes. cbn [measures measuresLoop metadata Scenario.quarterNotes].
  rewrite (processLane_app _ bottom).
  rewrite List.filter_app.
  rewrite (filter_other_lane (processLane _ bottom _ _ [])) by apply processLane_lane.
  rewrite app_nil_r.
  split; vm_compute; repeat constructor.
Qed.

(** *** C6 *)




(** *** C2 *)

(** C2 (the grid path breaks it): converting the engine's own test chart
    emits, as its first note, the top-lane note at hit time 0 with spawn
    time -3000: a negative spawn time is neither dropped nor shifted. *)
Theorem test_chart_negative_spawn :
  exists n rest,
    convertToGameFormat createTestChart "easy" = Ok (n :: rest) /\
    hitTime n == 0 /\ spawnTime n == -3000 /\ spawnTime n < 0.
Proof.
  eexists. eexists. split; [vm_compute; reflexivity|].
  simpl. repeat split.
Qed.

End BMSFacts.

(** ** Procedural charts *)

Module GeneratorFacts.
Import JS JSFacts BeatChartGenerator Schedule.

Lemma chartStep_scheduled bi tt st b p chart :
  Forall (scheduled tt) chart ->
  Forall (scheduled tt) (snd (chartStep bi tt st b p chart)).
Proof.
  intros H. unfold chartStep. cbn [snd].
  destruct (geb (Nq b * bi - tt) 0) eqn:E; [|exact H].
  destruct (_ || _); [|exact H].
  apply Forall_app. split; [exact H|].
  repeat constructor. cbn [spawnTime]. now apply geb_ge in E.
Qed.

Lemma chartLoop_scheduled bi tt st fuel b p chart :
  Forall (scheduled tt) chart ->
  Forall (scheduled tt) (chartLoop bi tt st fuel b p chart).
Proof.
  revert b p chart. induction fuel as [|fuel IH]; intros b p chart H; [exact H|].
  cbn [chartLoop].
  pose proof (chartStep_scheduled bi tt st b p chart H) as Hs.
  destruct (chartStep bi tt st b p chart) as [[b' p'] c']. now apply IH.
Qed.

(** The procedural path keeps the schedule invariant: every generated
    note spawns exactly one travel time before its hit time, and never
    before the start of the game. *)
Lemma generateChart_scheduled bi d tt :
  Forall (scheduled tt) (generateChart bi d tt).
Proof. unfold generateChart. apply chartLoop_scheduled. constructor. Qed.

End GeneratorFacts.

(** ** The grade *)

Module GradeFacts.
Import GameStateManager.

#[local] Set Warnings "-inexact-float".


(** Sample grades; in the last one the exact quotient 4.8 / 6 is 0.8,
    and its binary64 value lies just below the threshold. *)
Example grade_samples :
  calculateGrade (Scenario.counts 20 0 0 0) = gradeS /\
  calculateGrade (Scenario.counts 19 0 0 1) = gradeS /\
  calculateGrade (Scenario.counts 18 0 0 2) = gradeA /\
  calculateGrade (Scenario.counts 0 10 0 0) = gradeB /\
  calculateGrade (Scenario.counts 7 0 0 3) = gradeC /\
  calculateGrade (Scenario.counts 0 0 10 0) = gradeD /\
  calculateGrade (Scenario.counts 3 1 2 0) = gradeC.
Proof. vm_compute. repeat split. Qed.

End GradeFacts.

(** ** Pausing *)

Module ClockFacts.
Import JS.

(** The audio clock accounts for a pause: after pausing at [tp] and
    resuming at [tr], the reported time is the unpaused time minus the
    length of the pause. *)
Lemma audio_pause_round_trip (c : AudioManager.Clock) (tp tr now : Q) :
  AudioManager.hasAudio c = true ->
  AudioManager.isPlaying c = true ->
  AudioManager.getCurrentTime now (AudioManager.play tr (AudioManager.pause tp c))
    == AudioManager.getCurrentTime now c - (tr - tp).
Proof.
  intros Ha Hp. unfold AudioManager.play, AudioManager.pause, AudioManager.getCurrentTime.
  rewrite Ha, Hp. simpl. ring.
Qed.

(** The engine's clock does not: [pauseGame] never reads the time, and
    the game time after a pause and a resume is the unpaused one. *)
Lemma engine_pause_keeps_clock (s : GameEngine.t) (now : Q) :
  GameEngine.gameTime now (GameEngine.pauseGame (GameEngine.pauseGame s))
    = GameEngine.gameTime now s.
Proof. reflexivity. Qed.

Lemma hold_engine_pause_keeps_clock (s : GameEngineHold.t) (now : Q) :
  GameEngineHold.gameTime now (GameEngineHold.pauseGame (GameEngineHold.pauseGame s))
    = GameEngineHold.gameTime now s.
Proof. reflexivity. Qed.

(** C1 (the engine breaks it): started at 0, paused from 1000 to 3000 ms
    and updated at 3016 ms, the engine computes the game time 3016 and
    the progress 3016/600 percent, the same as with no pause; a clock
    that leaves out the pause of 2000 ms would report 1016. *)
Theorem engine_pause_counts_as_game_time :
  GameEngine.gameTime 3016 Scenario.resumed == 3016 /\
  GameEngine.songProgress (GameEngine.update Scenario.width Scenario.uiReady 3016 Scenario.resumed)
    == 3016 / 600 /\
  GameEngine.songProgress (GameEngine.update Scenario.width Scenario.uiReady 3016 Scenario.started)
    == 3016 / 600 /\
  ~ GameEngine.gameTime 3016 Scenario.resumed - (3016 - 2000) <= 16.
Proof.
  repeat split; try (vm_compute; reflexivity).
  intros H. vm_compute in H. apply H. reflexivity.
Qed.

End ClockFacts.

(** ** The tap-only engine *)

Module TapFacts.
Import JS GameEngine.

Lemma no_note_is_nearby l ns : List.filter (nearby l) ns = [].
Proof.
  induction ns as [|n ns IH]; [reflexivity|]. simpl.
  unfold nearby at 1. simpl. now rewrite andb_false_r.
Qed.

(** In the tap-only engine a press that finds no target never registers
    a miss: the filter of the no-target branch reads a property that no
    note has. *)
Lemma tap_press_without_target w l s :
  findHittableNote w l s = None -> handleInput w l s = s.
Proof.
  intros H. unfold handleInput. destruct (negb (isPlaying s) || isPaused s); [reflexivity|].
  rewrite H. now rewrite no_note_is_nearby.
Qed.

Lemma tap_press_without_target_witness :
  handleInput Scenario.width top Scenario.started = Scenario.started.
Proof.
  apply (tap_press_without_target Scenario.width top Scenario.started).
  vm_compute. reflexivity.
Defined.

End TapFacts.

(** ** Frame lemmas of the engine with hold notes *)

Module HoldFrame.
Import JS JSFacts GameEngineHold.

Lemma Lane_eqb_eq (a b : Lane) : Lane_eqb a b = true <-> a = b.
Proof. destruct a, b; simpl; split; congruence. Qed.

Lemma Lane_eqb_refl (a : Lane) : Lane_eqb a a = true.
Proof. now destruct a. Qed.

Lemma Lane_eqb_neq (a b : Lane) : Lane_eqb a b = false <-> a <> b.
Proof. destruct a, b; simpl; split; congruence. Qed.

(** *** Assignments to a note object *)

Lemma modify_heap_eq id f s n :
  heap s !! id = Some n -> heap (modify id f s) !! id = Some (f n).
Proof.
  intros H. unfold modify. rewrite H. simpl.
  apply list_lookup_insert_eq. eapply lookup_lt_Some, H.
Qed.

Lemma modify_heap_ne id id' f s :
  id <> id' -> heap (modify id f s) !! id' = heap s !! id'.
Proof.
  intros H. unfold modify. destruct (heap s !! id); [|reflexivity].
  simpl. now apply list_lookup_insert_ne.
Qed.

Lemma modify_heap_none id id' f s :
  heap s !! id' = None -> heap (modify id f s) !! id' = None.
Proof.
  intros H. destruct (Nat.eq_dec id id') as [->|Hne].
  - unfold modify. now rewrite H.
  - now rewrite modify_heap_ne.
Qed.

Lemma modify_heap_some id id' f s n' :
  heap (modify id f s) !! id' = Some n' ->
  exists n, heap s !! id' = Some n /\
    ((id' <> id /\ n' = n) \/ (id' = id /\ n' = f n)).
Proof.
  intros H. destruct (Nat.eq_dec id id') as [->|Hne].
  - destruct (heap s !! id') as [n|] eqn:E.
    + rewrite (modify_heap_eq _ _ _ _ E) in H. inversion H; subst. eauto.
    + rewrite modify_heap_none in H by exact E. discriminate.
  - rewrite modify_heap_ne in H by exact Hne. exists n'. split; [exact H|].
    left. split; congruence.
Qed.

Lemma modify_length id f s : length (heap (modify id f s)) = length (heap s).
Proof.
  unfold modify. destruct (heap s !! id); [|reflexivity]. simpl. apply length_insert.
Qed.

Lemma modify_shell id f s :
  gsm (modify id f s) = gsm s /\ isPlaying (modify id f s) = isPlaying s /\
  isPaused (modify id f s) = isPaused s /\ notes (modify id f s) = notes s /\
  activeHoldNotes (modify id f s) = activeHoldNotes s /\
  songProgress (modify id f s) = songProgress s /\
  chartIndex (modify id f s) = chartIndex s /\
  startTime (modify id f s) = startTime s.
Proof. unfold modify. destruct (heap s !! id); repeat split. Qed.

(** *** The map of active holds *)

Lemma mapGet_In l id m : mapGet l m = Some id -> In (l, id) m.
Proof.
  induction m as [|[k v] m IH]; simpl; [discriminate|].
  destruct (Lane_eqb k l) eqn:E.
  - apply Lane_eqb_eq in E. intros H. inversion H; subst. now left.
  - intros H. right. now apply IH.
Qed.

Lemma mapHas_false l m : mapHas l m = false <-> ~ In l (List.map fst m).
Proof.
  induction m as [|[k v] m IH]; simpl; [tauto|].
  rewrite orb_false_iff, IH, Lane_eqb_neq. tauto.
Qed.


Lemma mapReplace_keys l v m : List.map fst (mapReplace l v m) = List.map fst m.
Proof.
  induction m as [|[k w] m IH]; simpl; [reflexivity|].
  destruct (Lane_eqb k l); simpl; [reflexivity | now rewrite IH].
Qed.

Lemma mapReplace_In l v m e :
  In e (mapReplace l v m) -> e = (l, v) \/ In e m.
Proof.
  induction m as [|[k w] m IH]; simpl; [tauto|].
  destruct (Lane_eqb k l) eqn:E; simpl.
  - apply Lane_eqb_eq in E. subst k. intros [H|H]; [now left | right; now right].
  - intros [H|H]; [right; now left|]. destruct (IH H); [now left | right; now right].
Qed.

Lemma mapSet_NoDup l v m :
  NoDup (List.map fst m) -> NoDup (List.map fst (mapSet l v m)).
Proof.
  intros H. unfold mapSet. destruct (mapHas l m) eqn:E.
  - now rewrite mapReplace_keys.
  - rewrite List.map_app. simpl. apply mapHas_false in E.
    apply NoDup_ListNoDup. apply NoDup_ListNoDup in H.
    apply List.NoDup_app; [exact H | repeat constructor; intros [] | ].
    intros x Hx [<-|[]]. contradiction.
Qed.

Lemma mapSet_In l v m e : In e (mapSet l v m) -> e = (l, v) \/ In e m.
Proof.
  unfold mapSet. destruct (mapHas l m).
  - apply mapReplace_In.
  - intros H. apply in_app_or in H. destruct H as [H|[H|[]]]; [now right | now left].
Qed.

Lemma mapDelete_In l m e : In e (mapDelete l m) -> In e m /\ fst e <> l.
Proof.
  induction m as [|[k w] m IH]; simpl; [tauto|].
  destruct (Lane_eqb k l) eqn:E.
  - intros H. destruct (IH H). split; [now right | assumption].
  - intros [H|H].
    + subst e. split; [now left|]. simpl. now apply Lane_eqb_neq.
    + destruct (IH H). split; [now right | assumption].
Qed.

Lemma mapDelete_keys l m :
  NoDup (List.map fst m) -> NoDup (List.map fst (mapDelete l m)).
Proof.
  induction m as [|[k w] m IH]; simpl; [trivial|].
  intros H. apply NoDup_cons in H as [Hk Hm].
  destruct (Lane_eqb k l); [now apply IH|].
  simpl. apply NoDup_cons. split; [|now apply IH].
  intros Hin. apply Hk. clear - Hin.
  apply list_elem_of_In in Hin. apply list_elem_of_In.
  apply in_map_iff in Hin as [e [He Hin]]. apply mapDelete_In in Hin as [Hin _].
  apply in_map_iff. eauto.
Qed.

Lemma mapGet_delete_ne l k m : k <> l -> mapGet k (mapDelete l m) = mapGet k m.
Proof.
  intros Hne. induction m as [|[k' w] m IH]; simpl; [reflexivity|].
  destruct (Lane_eqb k' l) eqn:E.
  - apply Lane_eqb_eq in E. subst k'.
    assert (Lane_eqb l k = false) as -> by (apply Lane_eqb_neq; congruence).
    exact IH.
  - simpl. now rewrite IH.
Qed.

Lemma mapGet_delete_eq l m : mapGet l (mapDelete l m) = None.
Proof.
  induction m as [|[k w] m IH]; simpl; [reflexivity|].
  destruct (Lane_eqb k l) eqn:E; [exact IH|]. simpl. now rewrite E.
Qed.



End HoldFrame.

(** ** The engine with hold notes *)

Module HoldFacts.
Import JS JSFacts GameEngineHold HoldFrame.

(** *** C10 *)

(** C10: a release on a lane that has no entry in the map of active
    holds leaves the whole engine state as it was. *)
Theorem release_without_hold_is_noop (w now : Q) (l : Lane) (s : t) :
  mapGet l (activeHoldNotes s) = None ->
  handleInput w now l release s = s.
Proof.
  intros H. unfold handleInput, handleKeyRelease.
  destruct (negb (isPlaying s) || isPaused s); [reflexivity|].
  now rewrite H.
Qed.

Lemma release_without_hold_is_noop_witness :
  let s := Scenario.play Scenario.beforeRelease Scenario.fresh in
  mapGet bottom (activeHoldNotes s) = None /\
  handleInput Scenario.width 3000 bottom release s = s.
Proof.
  intros s.
  assert (H : mapGet bottom (activeHoldNotes s) = None) by (vm_compute; reflexivity).
  split; [exact H|].
  exact (release_without_hold_is_noop Scenario.width 3000 bottom s H).
Defined.

(** *** C5 *)

Lemma closestLoop_some w h l ids c r :
  closestLoop w h l ids c = Some r ->
  c = Some r \/ (In (fst r) ids /\ nearby w h l (fst r) = true).
Proof.
  revert c. induction ids as [|id rest IH]; intros c H; simpl in H; [now left|].
  destruct (h !! id) as [n|] eqn:Hn.
  - apply IH in H. destruct H as [H|[Hin Hnear]]; [|right; split; [now right | exact Hnear]].
    destruct (_ && _ && ltb (distance w n) 100) eqn:Hc; [|now left].
    right. inversion H; subst r; clear H. simpl. split; [now left|].
    unfold nearby. rewrite Hn.
    apply andb_true_iff in Hc as [Hc Hd].
    apply andb_true_iff in Hc as [Hc _].
    apply andb_true_iff in Hc as [Hc _].
    now rewrite Hc, Hd.
  - apply IH in H. destruct H as [H|[Hin Hnear]]; [now left|].
    right. split; [now right | exact Hnear].
Qed.

(** A target is always one of the nearby notes. *)
Lemma findHittableNote_nearby w l s id :
  findHittableNote w l s = Some id -> In id (nearbyNotes w l s).
Proof.
  unfold findHittableNote, nearbyNotes. intros H.
  destruct (closestLoop w (heap s) l (notes s) None) as [r|] eqn:E; [|discriminate].
  simpl in H. inversion H; subst id; clear H.
  apply closestLoop_some in E. destruct E as [E|[Hin Hnear]]; [discriminate|].
  apply filter_In. split; assumption.
Qed.



(** *** C4 *)

(** A release before the hold is over, at a completion ratio below 0.7,
    resolves the note and leaves the score state as it was. *)
Lemma release_below_good_keeps_score w now l s id n t0 :
  isPlaying s = true -> isPaused s = false ->
  mapGet l (activeHoldNotes s) = Some id -> heap s !! id = Some n ->
  isHolding n = true -> holdStartTime n = Some t0 ->
  now - startTime s - t0 < duration n ->
  (now - startTime s - t0) / duration n < 7 # 10 ->
  let s' := handleInput w now l release s in
  gsm s' = gsm s /\
  mapGet (lane n) (activeHoldNotes s') = None /\
  heap s' !! id = Some (stopHolding n).
Proof.
  intros Hp Hq Hget Hn Hh Ht Hearly Hratio. cbv zeta.
  unfold handleInput, handleKeyRelease. rewrite Hp, Hq, Hget, Hn, Hh, Ht. cbv zeta. cbn [negb orb].
  assert (E1 : geb (now - startTime s - t0) (duration n) = false) by (now apply geb_lt).
  assert (E2 : geb ((now - startTime s - t0) / duration n) (9 # 10) = false)
    by (apply geb_lt; lra).
  assert (E3 : geb ((now - startTime s - t0) / duration n) (7 # 10) = false)
    by (now apply geb_lt).
  rewrite E1, E2, E3. unfold completeHoldNote. rewrite Hn. unfold set_holds. cbn.
  destruct (modify_shell id stopHolding s) as (A1 & _ & _ & _ & A5 & _).
  rewrite A1, A5. repeat split.
  - apply mapGet_delete_eq.
  - now apply modify_heap_eq.
Qed.


(** *** C3, C9: the refuting runs *)

(** C3 (as stated, refuted): a 1000 ms hold note pressed at the hit zone
    and found held for exactly 1000 ms by the next frame earns the
    progressive 100 points and the bonus of 500, but the combo goes from
    1 (after the press) to 3: one step for the progressive award and one
    for the completion. *)
Lemma one_second_hold_combo :
  let pressed := Scenario.oneSecondPressed in
  let held := Scenario.oneSecondHeld in
  GameStateManager.combo (GameStateManager.scores (gsm pressed)) = 1%Z /\
  GameStateManager.combo (GameStateManager.scores (gsm held)) = 3%Z /\
  GameStateManager.current (GameStateManager.scores (gsm held))
    = (GameStateManager.current (GameStateManager.scores (gsm pressed)) + 100 + 500)%Z /\
  option_map holdScore (Scenario.noteAt held 0) = Some 100%Z /\
  GameStateManager.combo (GameStateManager.scores (gsm held))
    <> (GameStateManager.combo (GameStateManager.scores (gsm pressed)) + 1)%Z.
Proof. vm_compute. repeat split. discriminate. Qed.


End HoldFacts.

(** ** The map of active holds along a run *)

Module HoldInvariant.
Import JS JSFacts GameEngineHold HoldFrame ActiveHolds.

(** *** Calm operations *)

Lemma calm_refl s : calm s s.
Proof.
  repeat split; try reflexivity.
  - intros id n H. exists n. tauto.
  - intros id n H Hh. exists n. tauto.
  - intros id H. now left.
Qed.

Lemma calm_trans s1 s2 s3 : calm s1 s2 -> calm s2 s3 -> calm s1 s3.
Proof.
  intros (K1 & (S1 & L1) & M1) (K2 & (S2 & L2) & M2). repeat split.
  - intros id n H. destruct (K1 id n H) as (n2 & E2 & A1 & A2 & A3 & A4).
    destruct (K2 id n2 E2) as (n3 & E3 & B1 & B2 & B3 & B4).
    exists n3. repeat split; try congruence; tauto.
  - intros id n3 E3 Hh. destruct (S2 id n3 E3 Hh) as (n2 & E2 & Hh2 & A1).
    destruct (S1 id n2 E2 Hh2) as (n1 & E1 & Hh1 & B1).
    exists n1. repeat split; congruence.
  - intros id H. destruct (L2 id H) as [H2|H2].
    + apply L1, H2.
    + right. destruct (heap s1 !! id) as [n|] eqn:E; [|reflexivity].
      destruct (K1 id n E) as (n2 & E2 & _). congruence.
  - congruence.
Qed.

Lemma calm_sound s s' : calm s s' -> sound s -> sound s'.
Proof.
  intros (K & _ & M) (Hnd & Hall). split; rewrite M; [exact Hnd|].
  eapply Forall_impl; [exact Hall|]. intros e (n & Hn & Hl & Ht & Hh & Hi).
  destruct (K _ _ Hn) as (n' & Hn' & A1 & A2 & A3 & A4).
  exists n'. repeat split; try congruence; tauto.
Qed.


(** A state that differs only outside the heap, the live notes and the
    map. *)
Lemma calm_shell s s' :
  heap s' = heap s -> notes s' = notes s -> activeHoldNotes s' = activeHoldNotes s ->
  calm s s'.
Proof.
  intros Hh Hn Hm. repeat split; try assumption.
  - intros id n H. exists n. rewrite Hh. tauto.
  - intros id n H Hi. exists n. rewrite <- Hh. tauto.
  - intros id H. left. now rewrite <- Hn.
Qed.

Lemma calm_score p j s : calm s (score p j s).
Proof. now apply calm_shell. Qed.

Lemma calm_modify id f s : cosmetic f -> calm s (modify id f s).
Proof.
  intros Hf. destruct (modify_shell id f s) as (_ & _ & _ & Hn & Hm & _).
  repeat split; try assumption.
  - intros i n H. destruct (Nat.eq_dec id i) as [->|Hne].
    + exists (f n). rewrite (modify_heap_eq _ _ _ _ H).
      destruct (Hf n) as (A1 & A2 & A3 & A4). repeat split; try congruence; tauto.
    + exists n. rewrite modify_heap_ne by exact Hne. tauto.
  - intros i n' H Hi. apply modify_heap_some in H as (n & Hn0 & [[_ ->]|[-> ->]]).
    + exists n. tauto.
    + exists n. destruct (Hf n) as (A1 & A2 & A3 & A4). repeat split; congruence.
  - intros i H. left. now rewrite <- Hn.
Qed.

Lemma calm_filter (p : nat -> bool) s : calm s (set_notes (List.filter p (notes s)) s).
Proof.
  repeat split; try reflexivity.
  - intros id n H. exists n. tauto.
  - intros id n H Hh. exists n. tauto.
  - intros id H. left. apply filter_In in H. tauto.
Qed.

Lemma cosmetic_detach : cosmetic detach.
Proof. intros n. repeat split; trivial. Qed.

Lemma cosmetic_stopSliding : cosmetic stopSliding.
Proof. intros n. repeat split; trivial. Qed.

Lemma cosmetic_moveLeft : cosmetic moveLeft.
Proof. intros n. repeat split; trivial. Qed.

Lemma cosmetic_setHit : cosmetic setHit.
Proof. intros n. repeat split; trivial. Qed.

Lemma cosmetic_setHoldScore p : cosmetic (setHoldScore p).
Proof. intros n. repeat split; trivial. Qed.

Lemma cosmetic_stop_detach : cosmetic (fun n => stopSliding (detach n)).
Proof. intros n. repeat split; trivial. Qed.

Lemma calm_createNote w ui now l h ty d s : calm s (createNote w ui now l h ty d s).
Proof.
  unfold createNote. destruct (ui l); [|apply calm_refl].
  unfold calm, keeps, steady, set_notes, set_heap. cbn.
  repeat split.
  - intros id n H. exists n. rewrite lookup_app_l by (eapply lookup_lt_Some, H). tauto.
  - intros id n' H Hh.
    destruct (lt_dec id (length (heap s))) as [Hlt|Hge].
    + rewrite lookup_app_l in H by exact Hlt. exists n'. tauto.
    + rewrite lookup_app_r in H by lia.
      destruct (id - length (heap s))%nat; simpl in H; [|discriminate].
      inversion H; subst n'. discriminate Hh.
  - intros id H. apply in_app_or in H as [H|[<-|[]]]; [now left|].
    right. apply lookup_ge_None. lia.
Qed.

Lemma calm_spawnOne w ui now c s : calm s (spawnOne w ui now c s).
Proof.
  unfold spawnOne.
  set (s1 := if cTop c then _ else s).
  set (s2 := if cBottom c then _ else s1).
  assert (H1 : calm s s1) by (unfold s1; destruct (cTop c); [apply calm_createNote | apply calm_refl]).
  assert (H2 : calm s1 s2) by (unfold s2; destruct (cBottom c); [apply calm_createNote | apply calm_refl]).
  eapply calm_trans; [exact H1|]. eapply calm_trans; [exact H2|].
  now apply calm_shell.
Qed.

Lemma calm_spawnLoop w ui fuel now gt s : calm s (spawnLoop w ui fuel now gt s).
Proof.
  revert s. induction fuel as [|fuel IH]; intros s; simpl; [apply calm_refl|].
  destruct (nth_error createDemoChart (chartIndex s)) as [c|]; [|apply calm_refl].
  destruct (leb (cSpawnTime c) gt); [|apply calm_refl].
  eapply calm_trans; [apply calm_spawnOne | apply IH].
Qed.

Lemma calm_spawnNotes w ui now gt s : calm s (spawnNotes w ui now gt s).
Proof. apply calm_spawnLoop. Qed.

Lemma calm_flowTick w ui now p i s : calm s (flowTick w ui now p i s).
Proof.
  unfold flowTick. destruct (negb (isPlaying s)); [apply calm_refl|].
  repeat match goal with
         | |- calm _ (if ?b then _ else _) => destruct b
         | |- calm ?a (createNote _ _ _ _ _ _ _ ?b) =>
             apply (calm_trans a b); [|apply calm_createNote]
         end; apply calm_refl.
Qed.

Lemma calm_slideNote id s : calm s (slideNote id s).
Proof.
  unfold slideNote. destruct (heap s !! id) as [note|]; [|apply calm_refl].
  destruct (negb (sliding note)); [apply calm_refl|].
  destruct (hit note || negb (attached note)).
  { apply calm_modify, cosmetic_stopSliding. }
  destruct (ltb _ _).
  - eapply calm_trans; [apply (calm_modify id moveLeft), cosmetic_moveLeft|].
    eapply calm_trans; [apply (calm_score 0 GameStateManager.miss)|].
    eapply calm_trans; [apply (calm_modify id), cosmetic_stop_detach|].
    apply calm_filter.
  - apply calm_modify, cosmetic_moveLeft.
Qed.

Lemma calm_pauseGame s : calm s (pauseGame s).
Proof. now apply calm_shell. Qed.

Lemma calm_startGame now s : calm s (startGame now s).
Proof.
  repeat split; try reflexivity.
  - intros id n H. exists n. tauto.
  - intros id n H Hh. exists n. tauto.
  - intros id [].
Qed.

Lemma calm_detachNote id s : calm s (detachNote id s).
Proof. apply calm_modify, cosmetic_detach. Qed.

(** *** Stopping *)

Lemma stopGame_clears s : activeHoldNotes (stopGame s) = [] /\ notes (stopGame s) = [].
Proof. split; reflexivity. Qed.

Lemma sound_stopGame s : sound (stopGame s).
Proof.
  destruct (stopGame_clears s) as [Hm _]. unfold sound. rewrite Hm.
  split; constructor.
Qed.


(** *** Resolving a hold *)

Lemma sound_entry s l id :
  sound s -> mapGet l (activeHoldNotes s) = Some id ->
  exists n, heap s !! id = Some n /\ lane n = l /\ isHolding n = true.
Proof.
  intros [_ Hall] Hget. apply mapGet_In in Hget.
  rewrite List.Forall_forall in Hall. destruct (Hall _ Hget) as (n & Hn & Hl & _ & _ & Hh).
  exists n. simpl in *. tauto.
Qed.

Lemma completeHoldNote_unfold id j s n :
  heap s !! id = Some n ->
  exists p,
    completeHoldNote id j s
      = set_holds (mapDelete (lane n) (activeHoldNotes s))
          (modify id stopHolding (set_gsm p s)).
Proof.
  intros Hn. unfold completeHoldNote. rewrite Hn.
  destruct j; eexists; unfold score;
    match goal with
    | |- context [modify id stopHolding ?x] =>
        destruct (modify_shell id stopHolding x) as (_ & _ & _ & _ & -> & _)
    end; try reflexivity.
  all: instantiate (1 := gsm s); destruct s; reflexivity.
Qed.

Lemma sound_completeHoldNote s l id j :
  sound s -> mapGet l (activeHoldNotes s) = Some id ->
  sound (completeHoldNote id j s).
Proof.
  intros Hs Hget. destruct (sound_entry s l id Hs Hget) as (n & Hn & Hl & Hh).
  destruct (completeHoldNote_unfold id j s n Hn) as (p & ->).
  destruct Hs as [Hnd Hall]. split; simpl.
  - now apply mapDelete_keys.
  - apply List.Forall_forall. intros e He. apply mapDelete_In in He as [He Hne].
    rewrite List.Forall_forall in Hall.
    destruct (Hall e He) as (ne & Hne' & Hle & Hte & Hhe & Hie).
    exists ne. repeat split; try assumption.
    unfold set_holds; cbn [heap].
    rewrite modify_heap_ne; [exact Hne'|].
    intros E. rewrite <- E in Hne'. rewrite Hn in Hne'. inversion Hne'; subst ne.
    apply Hne. congruence.
Qed.


(** *** The frame's pass over the active holds *)

Lemma updateHold_steps gt id s :
  exists s1, calm s s1 /\
    (updateHold gt id s = s1 \/
     updateHold gt id s = completeHoldNote id GameStateManager.perfect s1).
Proof.
  unfold updateHold. destruct (heap s !! id) as [n|]; [|exists s; split; [apply calm_refl | now left]].
  destruct (holdingSince n) as [t0|]; [|exists s; split; [apply calm_refl | now left]].
  set (s1 := if (0 <? _)%Z then _ else s).
  exists s1. split.
  - unfold s1. destruct (0 <? _)%Z; [|apply calm_refl].
    eapply calm_trans; [apply calm_modify, cosmetic_setHoldScore | apply calm_score].
  - destruct (geb _ _); [now right | now left].
Qed.

Lemma sound_updateHold gt l id s :
  sound s -> mapGet l (activeHoldNotes s) = Some id -> sound (updateHold gt id s).
Proof.
  intros Hs Hget. destruct (updateHold_steps gt id s) as (s1 & Hc & [->| ->]).
  - eapply calm_sound; eassumption.
  - apply (sound_completeHoldNote s1 l); [eapply calm_sound; eassumption|].
    destruct Hc as (_ & _ & ->). exact Hget.
Qed.


Lemma sound_holdLoop gt keys s : sound s -> sound (holdLoop gt keys s).
Proof.
  revert s. induction keys as [|k keys IH]; intros s Hs; simpl; [exact Hs|].
  destruct (mapGet k (activeHoldNotes s)) as [id|] eqn:E; [|now apply IH].
  apply IH. now apply (sound_updateHold gt k).
Qed.


Lemma update_steps w ui now s :
  update w ui now s = s \/
  exists s1, calm s s1 /\
    (update w ui now s = updateHoldNotes (gameTime now s) s1 \/
     update w ui now s = stopGame (updateHoldNotes (gameTime now s) s1)).
Proof.
  unfold update. destruct (negb (isPlaying s) || isPaused s); [now left|].
  right. cbv zeta.
  match goal with
  | |- context [updateHoldNotes _ ?x] => exists x
  end.
  split.
  - eapply calm_trans; [|apply calm_spawnNotes]. apply calm_shell; reflexivity.
  - match goal with
    | |- context [if ?b then _ else _] => destruct b
    end; [right | left]; reflexivity.
Qed.

Lemma sound_update w ui now s : sound s -> sound (update w ui now s).
Proof.
  intros Hs. destruct (update_steps w ui now s) as [->|(s1 & Hc & [->| ->])].
  - exact Hs.
  - apply sound_holdLoop. eapply calm_sound; eassumption.
  - apply sound_stopGame.
Qed.


(** *** Presses and releases *)

Lemma findHittableNote_target w l s id :
  findHittableNote w l s = Some id ->
  In id (notes s) /\ exists n, heap s !! id = Some n /\ lane n = l /\ hit n = false.
Proof.
  intros H. apply HoldFacts.findHittableNote_nearby in H.
  unfold nearbyNotes in H. apply filter_In in H as [Hin Hnear].
  split; [exact Hin|]. unfold nearby in Hnear.
  destruct (heap s !! id) as [n|]; [|discriminate].
  exists n. apply andb_true_iff in Hnear as [Hnear _].
  apply andb_true_iff in Hnear as [Hl Hh].
  apply Lane_eqb_eq in Hl. apply negb_true_iff in Hh. tauto.
Qed.

Lemma keeps_startHolding t0 id s : keeps s (modify id (startHolding t0) s).
Proof.
  intros i n H. destruct (Nat.eq_dec id i) as [->|Hne].
  - exists (startHolding t0 n). rewrite (modify_heap_eq _ _ _ _ H). repeat split.
  - exists n. rewrite modify_heap_ne by exact Hne. tauto.
Qed.

Lemma keeps_sound s s' :
  keeps s s' -> activeHoldNotes s' = activeHoldNotes s -> sound s -> sound s'.
Proof.
  intros K M (Hnd & Hall). split; rewrite M; [exact Hnd|].
  eapply Forall_impl; [exact Hall|]. intros e (n & Hn & Hl & Ht & Hh & Hi).
  destruct (K _ _ Hn) as (n' & Hn' & A1 & A2 & A3 & A4).
  exists n'. repeat split; try congruence; tauto.
Qed.

Lemma sound_held now l id n s :
  sound s -> heap s !! id = Some n -> lane n = l -> type n = hold ->
  sound (held now l id s).
Proof.
  intros Hs Hn Hl Ht. unfold held.
  set (s1 := modify id (startHolding (now - startTime s)) s).
  assert (Hs1 : sound s1).
  { apply (keeps_sound s); [apply keeps_startHolding | | exact Hs].
    apply (modify_shell id _ s). }
  destruct Hs1 as [Hnd Hall]. split; simpl.
  - now apply mapSet_NoDup.
  - apply List.Forall_forall. intros e He. apply mapSet_In in He as [->|He].
    + exists (startHolding (now - startTime s) n). unfold set_holds; cbn [heap snd fst].
      split; [apply modify_heap_eq, Hn|]. repeat split; assumption.
    + rewrite List.Forall_forall in Hall. exact (Hall e He).
Qed.


Lemma handleKeyPress_steps w now l s :
  calm s (handleKeyPress w now l s) \/
  exists id n, findHittableNote w l s = Some id /\ heap s !! id = Some n /\
    type n = hold /\
    handleKeyPress w now l s
      = score (calculateScore (calculateJudgment w n)) (calculateJudgment w n)
          (held now l id s).
Proof.
  unfold handleKeyPress. destruct (findHittableNote w l s) as [id|] eqn:E.
  - destruct (heap s !! id) as [n|] eqn:Hn; [|left; apply calm_refl].
    destruct (type n) eqn:Ht.
    + left. eapply calm_trans; [apply (calm_modify id setHit), cosmetic_setHit|].
      eapply calm_trans; [apply calm_score|].
      apply calm_modify, cosmetic_detach.
    + right. exists id, n. repeat split; assumption.
  - left. destruct (0 <? _)%nat; [apply calm_score | apply calm_refl].
Qed.

Lemma sound_handleInput w now l a s : sound s -> sound (handleInput w now l a s).
Proof.
  intros Hs. unfold handleInput.
  destruct (negb (isPlaying s) || isPaused s); [exact Hs|]. destruct a.
  - destruct (handleKeyPress_steps w now l s) as [Hc|(id & n & Hf & Hn & Ht & ->)].
    + eapply calm_sound; eassumption.
    + apply (calm_sound (held now l id s)); [apply calm_score|].
      apply findHittableNote_target in Hf as (_ & n' & Hn' & Hl & _).
      rewrite Hn in Hn'. inversion Hn'; subst n'.
      now apply (sound_held now l id n).
  - unfold handleKeyRelease.
    destruct (mapGet l (activeHoldNotes s)) as [id|] eqn:Hget; [|exact Hs].
    destruct (heap s !! id) as [n|]; [|exact Hs].
    destruct (isHolding n); [|exact Hs].
    destruct (geb _ _); now apply (sound_completeHoldNote s l).
Qed.


(** *** Every event *)

Lemma sound_step w ui e s : sound s -> sound (step w ui e s).
Proof.
  intros Hs. destruct e; simpl.
  - eapply calm_sound; [apply calm_startGame | exact Hs].
  - eapply calm_sound; [apply calm_pauseGame | exact Hs].
  - apply sound_stopGame.
  - now apply sound_update.
  - now apply sound_handleInput.
  - eapply calm_sound; [apply calm_slideNote | exact Hs].
  - eapply calm_sound; [apply calm_flowTick | exact Hs].
  - eapply calm_sound; [apply calm_detachNote | exact Hs].
Qed.


Lemma sound_run w ui es s : sound s -> sound (run w ui es s).
Proof.
  revert s. induction es as [|e es IH]; intros s Hs; [exact Hs|].
  apply IH. now apply sound_step.
Qed.


Lemma sound_new g : sound (new g).
Proof. split; constructor. Qed.




End HoldInvariant.

(** ** Scoring of a hold held to completion *)

Module HoldScoring.
Import JS JSFacts GameEngineHold HoldFrame HoldRun.

(** *** Arithmetic of the progressive award *)

Lemma truthy_nonzero (x : Q) : ~ x == 0 -> truthy x = true.
Proof.
  intros H. unfold truthy. apply negb_true_iff.
  destruct (Qeq_bool x 0) eqn:E; [|reflexivity].
  apply Qeq_bool_iff in E. contradiction.
Qed.

Lemma floor_tenth_below (x : Q) : x < 1000 -> (floor (x / 100) <= 9)%Z.
Proof.
  intros H. unfold floor.
  assert (Hq : inject_Z (Qfloor (x / 100)) < inject_Z 10).
  { eapply Qle_lt_trans; [apply Qfloor_le|]. change (inject_Z 10) with 10.
    unfold Qdiv. change (/ 100) with (1 # 100). lra. }
  rewrite <- Zlt_Qlt in Hq. lia.
Qed.

Lemma floor_tenth_exact (x : Q) : x == 1000 -> floor (x / 100) = 10%Z.
Proof.
  intros H. unfold floor.
  assert (E : x / 100 == 10) by (rewrite H; reflexivity).
  rewrite E. reflexivity.
Qed.

(** *** Spawning leaves the hold alone *)

Lemma extends_refl s : extends s s.
Proof. repeat split; trivial. Qed.

Lemma extends_trans s1 s2 s3 : extends s1 s2 -> extends s2 s3 -> extends s1 s3.
Proof.
  intros (A1 & A2 & A3 & A4 & A5 & A6 & A7) (B1 & B2 & B3 & B4 & B5 & B6 & B7).
  repeat split; try congruence. intros id n H. apply B7, A7, H.
Qed.

Lemma extends_createNote w ui now l h ty d s : extends s (createNote w ui now l h ty d s).
Proof.
  unfold createNote. destruct (ui l); [|apply extends_refl].
  unfold extends, set_notes, set_heap. cbn. repeat split.
  intros id n H. rewrite lookup_app_l by (eapply lookup_lt_Some, H). exact H.
Qed.

Lemma extends_spawnOne w ui now c s : extends s (spawnOne w ui now c s).
Proof.
  unfold spawnOne.
  set (s1 := if cTop c then _ else s).
  set (s2 := if cBottom c then _ else s1).
  assert (H1 : extends s s1)
    by (unfold s1; destruct (cTop c); [apply extends_createNote | apply extends_refl]).
  assert (H2 : extends s1 s2)
    by (unfold s2; destruct (cBottom c); [apply extends_createNote | apply extends_refl]).
  eapply extends_trans; [exact H1|]. eapply extends_trans; [exact H2|].
  repeat split; trivial.
Qed.

Lemma extends_spawnLoop w ui fuel now gt s : extends s (spawnLoop w ui fuel now gt s).
Proof.
  revert s. induction fuel as [|fuel IH]; intros s; simpl; [apply extends_refl|].
  destruct (nth_error createDemoChart (chartIndex s)) as [c|]; [|apply extends_refl].
  destruct (leb (cSpawnTime c) gt); [|apply extends_refl].
  eapply extends_trans; [apply extends_spawnOne | apply IH].
Qed.

Lemma extends_spawnNotes w ui now gt s : extends s (spawnNotes w ui now gt s).
Proof. apply extends_spawnLoop. Qed.

(** *** One frame *)

Lemma update_running w ui now s :
  isPlaying s = true -> isPaused s = false ->
  update w ui now s =
    let gt := gameTime now s in
    let s2 := spawnNotes w ui now gt (set_progress (gt / songDuration * 100) s) in
    let s3 := updateHoldNotes gt s2 in
    if geb (songProgress s3) 100 then stopGame s3 else s3.
Proof. intros Hp Hq. unfold update. now rewrite Hp, Hq. Qed.

Lemma updateHoldNotes_single gt l id s :
  activeHoldNotes s = [(l, id)] -> updateHoldNotes gt s = updateHold gt id s.
Proof.
  intros H. unfold updateHoldNotes. rewrite H. simpl. rewrite H. simpl.
  now rewrite Lane_eqb_refl.
Qed.

Lemma updateHold_holding gt id s n t0 :
  heap s !! id = Some n -> isHolding n = true -> holdStartTime n = Some t0 ->
  ~ t0 == 0 ->
  updateHold gt id s =
    let p := (floor ((gt - t0) / 100) * 10)%Z in
    let s1 := if (0 <? p - holdScore n)%Z
              then score (p - holdScore n) GameStateManager.hold
                     (modify id (setHoldScore p) s)
              else s in
    if geb (gt - t0) (duration n)
    then completeHoldNote id GameStateManager.perfect s1 else s1.
Proof.
  intros Hn Hh Ht Hz. unfold updateHold, holdingSince.
  rewrite Hn, Hh, Ht, (truthy_nonzero _ Hz). reflexivity.
Qed.

Lemma award_fields d p id s n :
  heap s !! id = Some n ->
  let s' := score d GameStateManager.hold (modify id (setHoldScore p) s) in
  isPlaying s' = isPlaying s /\ isPaused s' = isPaused s /\
  startTime s' = startTime s /\ songProgress s' = songProgress s /\
  activeHoldNotes s' = activeHoldNotes s /\
  gsm s' = GameStateManager.updateScore d GameStateManager.hold (gsm s) /\
  heap s' !! id = Some (setHoldScore p n).
Proof.
  intros Hn. cbv zeta. unfold score, set_gsm. cbn.
  destruct (modify_shell id (setHoldScore p) s) as (A1 & A2 & A3 & A4 & A5 & A6 & A7 & A8).
  rewrite A1, A2, A3, A5, A6, A8. repeat split. now apply modify_heap_eq.
Qed.

Lemma progress_below (gt : Q) : gt < songDuration -> geb (gt / songDuration * 100) 100 = false.
Proof.
  intros H. apply geb_lt. unfold songDuration in *. unfold Qdiv.
  change (/ 60000) with (1 # 60000). lra.
Qed.

(** A frame before the hold is over: the award, if any, raises the hold
    score to the tens of milliseconds held so far. *)
Lemma frame_before w ui now s0 s l id t0 j k :
  midHold s0 s l id t0 j k -> ~ t0 == 0 ->
  now - startTime s0 < t0 + 1000 -> t0 + 1000 < songDuration ->
  exists j' k', midHold s0 (update w ui now s) l id t0 j' k'.
Proof.
  intros (Hp & Hq & Hst & Hmap & (n & Hn & Hl & Hh & Ht & Hd & Hs) & Hk & Hj & Haw)
    Hz Hnow Hend.
  rewrite update_running by assumption. cbv zeta.
  set (gt := gameTime now s).
  set (s1 := set_progress _ s).
  destruct (extends_spawnNotes w ui now gt s1) as (E1 & E2 & E3 & E4 & E5 & E6 & E7).
  set (s2 := spawnNotes w ui now gt s1) in *.
  assert (Hn2 : heap s2 !! id = Some n) by (apply E7; exact Hn).
  rewrite (updateHoldNotes_single gt l id s2) by (rewrite E6; exact Hmap).
  rewrite (updateHold_holding gt id s2 n t0) by assumption. cbv zeta.
  assert (Hgt : gt - t0 < 1000) by (unfold gt, gameTime; rewrite Hst; lra).
  assert (Hno : geb (gt - t0) (duration n) = false) by (apply geb_lt; lra).
  assert (Hprog : geb (gt / songDuration * 100) 100 = false)
    by (apply progress_below; lra).
  rewrite Hno.
  pose proof (floor_tenth_below _ Hgt) as Hfl.
  set (f := floor ((gt - t0) / 100)) in *. clearbody f.
  destruct Haw as (W1 & W2 & W3 & W4 & W5 & W6 & W7).
  unfold currentOf, comboOf, holdOf, perfectOf, greatOf, goodOf, missOf in *.
  destruct (0 <? f * 10 - holdScore n)%Z eqn:Haward.
  - apply Z.ltb_lt in Haward.
    destruct (award_fields (f * 10 - holdScore n) (f * 10) id s2 n Hn2)
      as (A1 & A2 & A3 & A4 & A5 & A6 & A7).
    cbv zeta in *.
    set (s3 := score _ _ _) in *.
    rewrite A4, E5. cbn [songProgress set_progress s1]. rewrite Hprog.
    exists f, (k + 1)%Z.
    unfold midHold, awarded, currentOf, comboOf, holdOf, perfectOf, greatOf, goodOf, missOf.
    rewrite A1, A2, A3, A5, A6, E1, E2, E3, E4, E6. cbn.
    repeat split; try assumption; try lia.
    exists (setHoldScore (f * 10) n). repeat split; cbn; try assumption; try lia.
  - apply Z.ltb_ge in Haward.
    rewrite E5. cbn [songProgress set_progress s1]. rewrite Hprog.
    exists j, k.
    unfold midHold, awarded, currentOf, comboOf, holdOf, perfectOf, greatOf, goodOf, missOf.
    rewrite E1, E2, E3, E4, E6. cbn.
    repeat split; try assumption; try lia.
    exists n. repeat split; assumption.
Qed.

Lemma frames_before w ui times s0 s l id t0 j k :
  midHold s0 s l id t0 j k -> ~ t0 == 0 ->
  Forall (fun now => now - startTime s0 < t0 + 1000) times ->
  t0 + 1000 < songDuration ->
  exists j' k', midHold s0 (frames w ui times s) l id t0 j' k'.
Proof.
  intros Hm Hz Hall Hend. revert s j k Hm.
  induction Hall as [|now times Hnow Hall IH]; intros s j k Hm; [eauto|].
  destruct (frame_before w ui now s0 s l id t0 j k Hm Hz Hnow Hend) as (j' & k' & Hm').
  exact (IH _ _ _ Hm').
Qed.

Lemma complete_perfect_fields id s n :
  heap s !! id = Some n ->
  let s' := completeHoldNote id GameStateManager.perfect s in
  isPlaying s' = isPlaying s /\ isPaused s' = isPaused s /\
  startTime s' = startTime s /\ songProgress s' = songProgress s /\
  activeHoldNotes s' = mapDelete (lane n) (activeHoldNotes s) /\
  gsm s' = GameStateManager.updateScore 500 GameStateManager.perfect (gsm s) /\
  heap s' !! id = Some (stopHolding n).
Proof.
  intros Hn. cbv zeta. unfold completeHoldNote. rewrite Hn.
  unfold set_holds, score. cbn.
  set (s1 := set_gsm _ s).
  destruct (modify_shell id stopHolding s1) as (A1 & A2 & A3 & A4 & A5 & A6 & A7 & A8).
  rewrite A1, A2, A3, A5, A6, A8. repeat split.
  apply modify_heap_eq. exact Hn.
Qed.

(** The frame that finds the note held for exactly 1000 ms: the last
    progressive award brings the hold score to 100, and the forced
    completion adds the perfect bonus. *)
Lemma frame_last w ui now s0 s l id t0 j k :
  midHold s0 s l id t0 j k -> ~ t0 == 0 ->
  now - startTime s0 == t0 + 1000 -> t0 + 1000 < songDuration ->
  let s' := update w ui now s in
  (currentOf s' = currentOf s0 + 100 + 500 /\
   perfectOf s' = perfectOf s0 + 1 /\ greatOf s' = greatOf s0 /\
   goodOf s' = goodOf s0 /\ missOf s' = missOf s0 /\
   holdOf s' = holdOf s0 + (k + 1) /\ comboOf s' = comboOf s0 + (k + 1) + 1)%Z /\
  (exists n', heap s' !! id = Some n' /\ isHolding n' = false /\ holdScore n' = 100%Z) /\
  activeHoldNotes s' = [].
Proof.
  intros (Hp & Hq & Hst & Hmap & (n & Hn & Hl & Hh & Ht & Hd & Hs) & Hk & Hj & Haw)
    Hz Hnow Hend.
  cbv zeta. rewrite update_running by assumption. cbv zeta.
  set (gt := gameTime now s).
  set (s1 := set_progress _ s).
  destruct (extends_spawnNotes w ui now gt s1) as (E1 & E2 & E3 & E4 & E5 & E6 & E7).
  set (s2 := spawnNotes w ui now gt s1) in *.
  assert (Hn2 : heap s2 !! id = Some n) by (apply E7; exact Hn).
  rewrite (updateHoldNotes_single gt l id s2) by (rewrite E6; exact Hmap).
  rewrite (updateHold_holding gt id s2 n t0) by assumption. cbv zeta.
  assert (Hgt : gt - t0 == 1000) by (unfold gt, gameTime; rewrite Hst; lra).
  assert (Hyes : geb (gt - t0) (duration n) = true) by (apply geb_ge; lra).
  assert (Hprog : geb (gt / songDuration * 100) 100 = false)
    by (apply progress_below; lra).
  rewrite Hyes, (floor_tenth_exact _ Hgt), Hs.
  change (10 * 10)%Z with 100%Z.
  assert (Haward : (0 <? 100 - 10 * j)%Z = true) by (apply Z.ltb_lt; lia).
  rewrite Haward.
  destruct (award_fields (100 - 10 * j) 100 id s2 n Hn2)
    as (A1 & A2 & A3 & A4 & A5 & A6 & A7).
  cbv zeta in *.
  set (s3 := score _ _ _) in *.
  destruct (complete_perfect_fields id s3 _ A7) as (B1 & B2 & B3 & B4 & B5 & B6 & B7).
  cbv zeta in *.
  set (s4 := completeHoldNote _ _ _) in *.
  rewrite B4, A4, E5. cbn [songProgress set_progress s1]. rewrite Hprog.
  destruct Haw as (W1 & W2 & W3 & W4 & W5 & W6 & W7).
  unfold currentOf, comboOf, holdOf, perfectOf, greatOf, goodOf, missOf in *.
  rewrite B5, B6, A5, A6, E1, E6. cbn [activeHoldNotes gsm set_progress s1].
  rewrite Hmap. cbn. rewrite Hl, Lane_eqb_refl.
  repeat split; try lia.
  exists (stopHolding (setHoldScore 100 n)). repeat split. exact B7.
Qed.

(** C3 (amended): a hold note of 1000 ms, the only active hold, pressed
    at game time [t0] and met by any frames before [t0 + 1000] and then
    by a frame at exactly [t0 + 1000], earns exactly 100 progressive
    points and the perfect bonus of 500, no increment twice: the note
    ends with hold score 100, resolved, out of the map, with one more
    perfect.  The combo goes up once for the completion and once for
    each of the [k] frames that awarded progressive points, with
    [1 <= k <= 10]. *)
Theorem one_second_hold_scoring w ui s l id n t0 times last :
  isPlaying s = true -> isPaused s = false ->
  activeHoldNotes s = [(l, id)] ->
  heap s !! id = Some n -> lane n = l -> isHolding n = true ->
  holdStartTime n = Some t0 -> ~ t0 == 0 ->
  duration n == 1000 -> holdScore n = 0%Z ->
  Forall (fun now => now - startTime s < t0 + 1000) times ->
  last - startTime s == t0 + 1000 ->
  t0 + 1000 < songDuration ->
  let s' := update w ui last (frames w ui times s) in
  (currentOf s' = currentOf s + 100 + 500)%Z /\
  (perfectOf s' = perfectOf s + 1)%Z /\
  greatOf s' = greatOf s /\ goodOf s' = goodOf s /\ missOf s' = missOf s /\
  (exists k, 1 <= k <= 10 /\ holdOf s' = holdOf s + k /\
             comboOf s' = comboOf s + k + 1)%Z /\
  (exists n', heap s' !! id = Some n' /\ isHolding n' = false /\ holdScore n' = 100%Z) /\
  activeHoldNotes s' = [].
Proof.
  intros Hp Hq Hmap Hn Hl Hh Ht Hz Hd Hs Hall Hlast Hend.
  assert (Hm : midHold s s l id t0 0 0).
  { unfold midHold, awarded. repeat split; try assumption; try lia.
    exists n. repeat split; assumption. }
  destruct (frames_before w ui times s s l id t0 0 0 Hm Hz Hall Hend) as (j & k & Hm').
  pose proof Hm' as (_ & _ & _ & _ & _ & Hk & Hj & _).
  destruct (frame_last w ui last s _ l id t0 j k Hm' Hz Hlast Hend)
    as ((C1 & C2 & C3 & C4 & C5 & C6 & C7) & Hnote & Hmap').
  cbv zeta. repeat split; try assumption.
  exists (k + 1)%Z. repeat split; try assumption; lia.
Qed.

Lemma one_second_hold_scoring_witness :
  let s := Scenario.oneSecondPressed in
  let s' := update Scenario.width Scenario.uiReady 3720
              (frames Scenario.width Scenario.uiReady [2736; 2900; 2916; 3300] s) in
  (currentOf s' = currentOf s + 100 + 500)%Z /\
  (perfectOf s' = perfectOf s + 1)%Z /\
  greatOf s' = greatOf s /\ goodOf s' = goodOf s /\ missOf s' = missOf s /\
  (exists k, 1 <= k <= 10 /\ holdOf s' = holdOf s + k /\
             comboOf s' = comboOf s + k + 1)%Z /\
  (exists n', heap s' !! 0%nat = Some n' /\ isHolding n' = false /\ holdScore n' = 100%Z) /\
  activeHoldNotes s' = [].
Proof.
  eapply (one_second_hold_scoring Scenario.width Scenario.uiReady
            Scenario.oneSecondPressed top 0%nat _ (2720 - 0)
            [2736; 2900; 2916; 3300] 3720);
    try (vm_compute; reflexivity).
  - vm_compute. discriminate.
  - repeat constructor.
Defined.

End HoldScoring.

(** ** More on grid charts *)

Module GridFacts.
Import JS JSFacts BMSTimingEngine Schedule BMSFacts.

Lemma firstInvalid_none i cs :
  firstInvalid i cs = None <-> forallb validChar cs = true.
Proof.
  revert i. induction cs as [|c cs IH]; intros i; simpl; [tauto|].
  destruct (validChar c); simpl; [apply IH | split; discriminate].
Qed.

Lemma validatePattern_cases md p name :
  if wellFormed md p then validatePattern md p name = Ok true
  else exists e, validatePattern md p name = Throw e.
Proof.
  unfold validatePattern, wellFormed. destruct p as [s|]; [|eauto].
  destruct (String.length s =? 0)%nat; cbn [negb andb]; [eauto|].
  destruct (Z.of_nat (String.length s) =? subdivision md)%Z; cbn [negb andb]; [|eauto].
  destruct (firstInvalid 0 (list_ascii_of_string s)) as [[c i]|] eqn:E.
  - assert (H : forallb validChar (list_ascii_of_string s) = false).
    { destruct (forallb _ _) eqn:F; [|reflexivity].
      apply firstInvalid_none with (i := 0%nat) in F. congruence. }
    rewrite H. eauto.
  - apply firstInvalid_none in E. now rewrite E.
Qed.

(** [validatePattern] returns [true] exactly on the well-formed patterns,
    and throws on every other one. *)
Theorem validatePattern_accepts md p name :
  (validatePattern md p name = Ok true <-> wellFormed md p = true) /\
  (wellFormed md p = false -> exists e, validatePattern md p name = Throw e).
Proof.
  pose proof (validatePattern_cases md p name) as H.
  destruct (wellFormed md p).
  - split; [tauto | discriminate].
  - destruct H as [e He]. split; [|eauto].
    rewrite He. split; discriminate.
Qed.

Lemma wellFormed_valid md p : wellFormed md p = true -> invalidPattern md p = false.
Proof.
  unfold wellFormed, invalidPattern. destruct p as [s|]; [|discriminate].
  intros H. apply andb_true_iff in H as [H _]. apply andb_true_iff in H as [H1 H2].
  apply negb_true_iff in H1. now rewrite H1, H2.
Qed.

Lemma laneLoop_positions md m ln i cs :
  laneLoop md m ln i cs [] =
    List.map (fun j => mkNote md m j ln) (onsetPositions i cs).
Proof.
  revert i. induction cs as [|c cs IH]; intros i; simpl; [reflexivity|].
  destruct (is_one c); simpl; [|apply IH].
  rewrite laneLoop_app. now rewrite IH.
Qed.

Lemma processLane_laneNotes md p m ln notes :
  processLane md p m ln notes = notes ++ laneNotes md p m ln.
Proof.
  unfold processLane, laneNotes.
  destruct (invalidPattern md p); [now rewrite app_nil_r|].
  destruct p as [s|]; [|now rewrite app_nil_r].
  now rewrite laneLoop_app, laneLoop_positions.
Qed.

Lemma laneNotes_length md p m ln :
  length (laneNotes md p m ln) = (if invalidPattern md p then O else onsets p).
Proof.
  unfold laneNotes, onsets. destruct (invalidPattern md p); [reflexivity|].
  destruct p as [s|]; [|reflexivity]. now rewrite List.length_map.
Qed.

(** [processLane] appends one note for each character 1 of the pattern, in
    pattern order, each at its own subdivision index, and appends nothing
    for a pattern that is missing, empty or of the wrong length. *)
Theorem processLane_emits_onsets md p m ln notes :
  processLane md p m ln notes = notes ++ laneNotes md p m ln /\
  length (laneNotes md p m ln) = (if invalidPattern md p then O else onsets p) /\
  List.map subdivisionIndex (laneNotes md p m ln) =
    (if invalidPattern md p then []
     else match p with
          | Some s => onsetPositions 0 (list_ascii_of_string s)
          | None => []
          end).
Proof.
  unfold processLane, laneNotes, onsets.
  destruct (invalidPattern md p); [now rewrite app_nil_r|].
  destruct p as [s|]; [|now rewrite app_nil_r].
  rewrite laneLoop_app, laneLoop_positions. repeat split.
  - now rewrite List.length_map.
  - rewrite List.map_map. simpl. apply List.map_id.
Qed.

(** *** The sorted schedule *)

Lemma insertNote_perm x l : Permutation (x :: l) (insertNote x l).
Proof.
  induction l as [|y l IH]; simpl; [reflexivity|].
  destruct (ltb (hitTime x) (hitTime y)); [reflexivity|].
  rewrite perm_swap. now apply perm_skip.
Qed.

Lemma sortNotes_perm l : Permutation l (sortNotes l).
Proof.
  unfold sortNotes.
  assert (G : forall acc, Permutation (acc ++ l)
                (fold_left (fun a x => insertNote x a) l acc)).
  { induction l as [|x l IH]; intros acc; simpl; [now rewrite app_nil_r|].
    rewrite <- IH. rewrite <- insertNote_perm. simpl.
    symmetry. apply Permutation_middle. }
  apply (G []).
Qed.

Lemma sortNotes_sorted l : StronglySorted notAfter (sortNotes l).
Proof.
  unfold sortNotes.
  assert (G : forall acc, StronglySorted notAfter acc ->
            StronglySorted notAfter (fold_left (fun a x => insertNote x a) l acc)).
  { induction l as [|x l IH]; intros acc Hacc; simpl; [exact Hacc|].
    apply IH. now apply insertNote_sorted. }
  apply G. constructor.
Qed.

Lemma measuresLoop_length md m ms notes :
  length (measuresLoop md m ms notes) =
    (length notes
     + list_sum (List.map (fun me =>
         (if invalidPattern md (topLane me) then O else onsets (topLane me))
         + (if invalidPattern md (bottomLane me) then O else onsets (bottomLane me)))%nat
         ms))%nat.
Proof.
  revert m notes. induction ms as [|me ms IH]; intros m notes; simpl; [lia|].
  rewrite IH.
  rewrite !processLane_laneNotes, !List.length_app, !laneNotes_length. lia.
Qed.

(** A successful conversion returns the collected notes in ascending order
    of hit time: nothing is lost or duplicated by the sort, and each
    lane contributes its onsets unless its pattern was skipped. *)
Theorem convert_sorted_schedule cd d notes :
  convertToGameFormat cd d = Ok notes ->
  StronglySorted notAfter notes /\
  exists chart,
    lookup_chart d (charts cd) = Some chart /\
    Permutation (measuresLoop (metadata cd) 0 (measures chart) []) notes /\
    length notes =
      list_sum (List.map (fun me =>
         (if invalidPattern (metadata cd) (topLane me) then O else onsets (topLane me))
         + (if invalidPattern (metadata cd) (bottomLane me) then O
            else onsets (bottomLane me)))%nat
         (measures chart)).
Proof.
  unfold convertToGameFormat.
  destruct (lookup_chart d (charts cd)) as [chart|]; [|discriminate].
  intros H. inversion H; subst notes; clear H.
  split; [apply sortNotes_sorted|].
  exists chart. split; [reflexivity|]. split; [apply sortNotes_perm|].
  rewrite <- (Permutation_length (sortNotes_perm _)).
  now rewrite measuresLoop_length.
Qed.

Lemma convert_sorted_schedule_witness :
  exists notes,
    convertToGameFormat createTestChart "hard" = Ok notes /\
    StronglySorted notAfter notes.
Proof.
  eexists. split; [reflexivity|].
  exact (proj1 (convert_sorted_schedule createTestChart "hard" _ eq_refl)).
Defined.

(** A difficulty that the chart does not define makes both the conversion
    and the validation throw; any other one makes both return. *)
Theorem missing_difficulty_throws cd d :
  (lookup_chart d (charts cd) = None ->
   convertToGameFormat cd d = Throw (DifficultyNotFound d) /\
   validateChart cd d = Throw (DifficultyNotFound d)) /\
  (lookup_chart d (charts cd) <> None ->
   is_ok (convertToGameFormat cd d) = true /\ is_ok (validateChart cd d) = true).
Proof.
  unfold convertToGameFormat, validateChart.
  destruct (lookup_chart d (charts cd)); split; intros H; try congruence; now split.
Qed.

(** *** The grid *)

Lemma Nq_succ n : Nq (Datatypes.S n) == Nq n + 1.
Proof. unfold Nq. rewrite Nat2Z.inj_succ. unfold Z.succ. now rewrite inject_Z_plus. Qed.

Lemma Nq_lt i j : (i < j)%nat -> Nq i < Nq j.
Proof. intros H. unfold Nq. rewrite <- Zlt_Qlt. lia. Qed.



(** The grid is continuous: position [subdivision] of a measure is
    position 0 of the next one. *)
Theorem next_measure_continues md m k :
  subdivision md = Z.of_nat k -> k <> O ->
  calculateNoteTime md m k == calculateNoteTime md (Datatypes.S m) 0.
Proof.
  intros Hs Hk. unfold calculateNoteTime. rewrite Hs, Nq_succ.
  generalize (secondsPerBeat md). intros spb.
  assert (Hk' : ~ Nq k == 0).
  { unfold Nq. change 0 with (inject_Z 0). rewrite inject_Z_injective. lia. }
  unfold Zq. fold (Nq k). change (Nq 0) with 0. field. exact Hk'.
Qed.

Lemma next_measure_continues_witness :
  calculateNoteTime testMetadata 2 16 == calculateNoteTime testMetadata 3 0.
Proof.
  apply (next_measure_continues testMetadata 2 16); [reflexivity | discriminate].
Defined.

(** With a positive tempo, measure length and subdivision, a later
    position of a measure has a later hit time. *)
Theorem note_time_increases md m i j :
  0 < bpm md -> 0 < beatsPerMeasure md -> (0 < subdivision md)%Z ->
  (i < j)%nat ->
  calculateNoteTime md m i < calculateNoteTime md m j.
Proof.
  intros Hb HB Hs Hij. unfold calculateNoteTime, secondsPerBeat.
  apply Nq_lt in Hij.
  assert (Hs' : 0 < / Zq (subdivision md)).
  { apply Qinv_lt_0_compat. unfold Zq. change 0 with (inject_Z 0).
    now rewrite <- Zlt_Qlt. }
  assert (Hc : 0 < 60 / bpm md).
  { unfold Qdiv. apply Qmult_lt_0_compat; [reflexivity | now apply Qinv_lt_0_compat]. }
  set (c := 60 / bpm md) in *. clearbody c.
  unfold Qdiv.
  set (a := / Zq (subdivision md)) in *. set (x := Nq i) in *. set (y := Nq j) in *.
  set (mm := Nq m). set (B := beatsPerMeasure md) in *. set (off := offset md).
  clearbody a x y mm B off.
  assert (H1 : 0 < a * B) by nra.
  assert (H2 : x * (a * B) < y * (a * B)) by nra.
  assert (H3 : (mm * B + x * a * B) * c < (mm * B + y * a * B) * c) by nra.
  lra.
Qed.

Lemma note_time_increases_witness :
  calculateNoteTime testMetadata 0 3 < calculateNoteTime testMetadata 0 7.
Proof.
  apply (note_time_increases testMetadata 0 3 7); try reflexivity. lia.
Defined.

(** *** Validation of a chart *)

Lemma collectIssue_length md p name found :
  length (collectIssue md p name found) =
    (length found + (if wellFormed md p then 0 else 1))%nat.
Proof.
  unfold collectIssue.
  pose proof (validatePattern_cases md p name) as H.
  destruct (wellFormed md p).
  - rewrite H. lia.
  - destruct H as [e ->]. rewrite List.length_app. simpl. lia.
Qed.

Lemma validateMeasures_length md i ms found :
  length (validateMeasures md i ms found) = (length found + illFormedLanes md ms)%nat.
Proof.
  revert i found. induction ms as [|me ms IH]; intros i found; simpl.
  - unfold illFormedLanes. simpl. lia.
  - rewrite IH, !collectIssue_length. unfold illFormedLanes. simpl. lia.
Qed.

Lemma illFormedLanes_zero md ms :
  illFormedLanes md ms = O <-> forallb (wellFormedMeasure md) ms = true.
Proof.
  induction ms as [|me ms IH]; [split; reflexivity|].
  unfold illFormedLanes in *. simpl. unfold wellFormedMeasure at 1.
  destruct (wellFormed md (topLane me)), (wellFormed md (bottomLane me)); simpl;
    try (split; [lia | discriminate]).
  exact IH.
Qed.

Lemma wellFormed_onsets md ms :
  forallb (wellFormedMeasure md) ms = true ->
  list_sum (List.map (fun me =>
     (if invalidPattern md (topLane me) then O else onsets (topLane me))
     + (if invalidPattern md (bottomLane me) then O else onsets (bottomLane me)))%nat ms)
  = totalOnsets ms.
Proof.
  induction ms as [|me ms IH]; [reflexivity|]. simpl. intros H.
  apply andb_true_iff in H as [Hme Hms]. unfold wellFormedMeasure in Hme.
  apply andb_true_iff in Hme as [Ht Hb].
  rewrite (wellFormed_valid _ _ Ht), (wellFormed_valid _ _ Hb), (IH Hms). lia.
Qed.

Lemma illFormedLanes_eqb md ms :
  (illFormedLanes md ms =? 0)%nat = forallb (wellFormedMeasure md) ms.
Proof.
  destruct (forallb _ _) eqn:F.
  - apply Nat.eqb_eq. now apply illFormedLanes_zero.
  - apply Nat.eqb_neq. intros E. apply illFormedLanes_zero in E. congruence.
Qed.

Lemma validateChart_found cd d chart :
  lookup_chart d (charts cd) = Some chart ->
  validateChart cd d =
    Ok {| isValid := forallb (wellFormedMeasure (metadata cd)) (measures chart);
          issues := validateMeasures (metadata cd) 0 (measures chart) [] |}.
Proof.
  intros Hc. unfold validateChart. rewrite Hc.
  rewrite validateMeasures_length. cbn [length Nat.add]. now rewrite illFormedLanes_eqb.
Qed.

Lemma wellFormed_converts cd d chart :
  lookup_chart d (charts cd) = Some chart ->
  forallb (wellFormedMeasure (metadata cd)) (measures chart) = true ->
  exists notes, convertToGameFormat cd d = Ok notes /\
    length notes = totalOnsets (measures chart).
Proof.
  intros Hc Hall. unfold convertToGameFormat. rewrite Hc. eexists. split; [reflexivity|].
  rewrite <- (Permutation_length (sortNotes_perm _)), measuresLoop_length.
  now rewrite wellFormed_onsets.
Qed.

(** For a difficulty that the chart defines, [validateChart] returns a
    report with one issue for each lane pattern that is not well formed,
    and it is valid exactly when every lane of every measure is well
    formed.  A chart reported valid is converted without skipping a lane:
    the schedule has one note for each onset of the chart. *)
Theorem validateChart_report cd d chart :
  lookup_chart d (charts cd) = Some chart ->
  exists r,
    validateChart cd d = Ok r /\
    length (issues r) = illFormedLanes (metadata cd) (measures chart) /\
    isValid r = forallb (wellFormedMeasure (metadata cd)) (measures chart) /\
    (isValid r = true ->
     exists notes, convertToGameFormat cd d = Ok notes /\
       length notes = totalOnsets (measures chart)).
Proof.
  intros Hc. eexists. split; [apply (validateChart_found cd d chart Hc)|].
  cbn [issues isValid]. split; [|split; [reflexivity|]].
  - now rewrite validateMeasures_length.
  - apply (wellFormed_converts cd d chart Hc).
Qed.

Lemma validateChart_report_witness :
  exists r,
    validateChart Scenario.malformedChart "easy" = Ok r /\
    length (issues r) = 1%nat /\ isValid r = false.
Proof.
  destruct (validateChart_report Scenario.malformedChart "easy" _ eq_refl)
    as (r & Hr & Hi & Hv & _).
  exists r. split; [exact Hr|]. split; [rewrite Hi | rewrite Hv]; reflexivity.
Defined.

End GridFacts.

(** ** The chart loader *)

Module LoaderFacts.
Import JS BMSTimingEngine Schedule GridFacts.

Lemma checkMeasure_none md d i me :
  BMSChartLoader.checkMeasure (subdivision md) d i me = None ->
  wellFormedMeasure md me = true.
Proof.
  unfold BMSChartLoader.checkMeasure, wellFormedMeasure, wellFormed,
    BMSChartLoader.emptyLane, BMSChartLoader.laneLength, BMSChartLoader.onlyBits.
  destruct (topLane me) as [t|], (bottomLane me) as [b|]; simpl; try discriminate.
  - destruct (String.length t =? 0)%nat; simpl; [discriminate|].
    destruct (String.length b =? 0)%nat; simpl; [discriminate|].
    destruct (Z.of_nat (String.length t) =? subdivision md)%Z; simpl; [|discriminate].
    destruct (Z.of_nat (String.length b) =? subdivision md)%Z; simpl; [|discriminate].
    destruct (forallb validChar (list_ascii_of_string t)); simpl; [|discriminate].
    destruct (forallb validChar (list_ascii_of_string b)); simpl; [reflexivity | discriminate].
  - destruct (String.length t =? 0)%nat; discriminate.
Qed.

Lemma checkMeasures_none md d i ms :
  BMSChartLoader.checkMeasures (subdivision md) d i ms = None ->
  forallb (wellFormedMeasure md) ms = true.
Proof.
  revert i. induction ms as [|me ms IH]; intros i; simpl; [reflexivity|].
  destruct (BMSChartLoader.checkMeasure _ d i me) eqn:E; [discriminate|].
  intros H. rewrite (checkMeasure_none md d i me E). simpl. now apply (IH (Datatypes.S i)).
Qed.

Lemma validateChartDifficulty_ok md c d ms :
  BMSChartLoader.validateChartDifficulty c d (subdivision md) = Ok ms ->
  ms <> [] /\ forallb (wellFormedMeasure md) ms = true.
Proof.
  unfold BMSChartLoader.validateChartDifficulty.
  destruct (BMSChartLoader.measures c) as [ms'|]; [|discriminate].
  destruct ms' as [|me rest]; [discriminate|]. cbn [length Nat.eqb].
  destruct (BMSChartLoader.checkMeasures _ d 0 (me :: rest)) eqn:E; [discriminate|].
  intros H. inversion H; subst ms. split; [discriminate|].
  exact (checkMeasures_none md d 0 _ E).
Qed.

Lemma validateAll_ok md cs typed :
  BMSChartLoader.validateAll (subdivision md) cs = Ok typed ->
  Forall (fun dc => measures (snd dc) <> [] /\
            forallb (wellFormedMeasure md) (measures (snd dc)) = true) typed.
Proof.
  revert typed. induction cs as [|[d c] cs IH]; intros typed; simpl.
  - intros H. inversion H. constructor.
  - destruct (BMSChartLoader.validateChartDifficulty c d (subdivision md)) as [ms|] eqn:E;
      [|discriminate].
    destruct (BMSChartLoader.validateAll (subdivision md) cs) as [done|]; [|discriminate].
    intros H. inversion H; subst typed. constructor; [|now apply IH].
    exact (validateChartDifficulty_ok md c d ms E).
Qed.

Lemma lookup_chart_In d cs chart :
  lookup_chart d cs = Some chart -> exists k, In (k, chart) cs.
Proof.
  induction cs as [|[k c] cs IH]; simpl; [discriminate|].
  destruct (String.eqb k d).
  - intros H. inversion H; subst. exists k. now left.
  - intros H. destruct (IH H) as [k' Hk]. exists k'. now right.
Qed.

Lemma processChartData_ok raw cd :
  BMSChartLoader.processChartData raw = Ok cd ->
  charts cd <> [] /\
  Forall (fun dc => measures (snd dc) <> [] /\
            forallb (wellFormedMeasure (metadata cd)) (measures (snd dc)) = true)
    (charts cd).
Proof.
  unfold BMSChartLoader.processChartData.
  destruct (BMSChartLoader.metadata raw) as [md|]; [|discriminate].
  destruct (BMSChartLoader.title md); [|discriminate].
  destruct (BMSChartLoader.artist md); [|discriminate].
  destruct (BMSChartLoader.bpm md); [|discriminate].
  destruct (BMSChartLoader.subdivision md) as [sub|]; [|discriminate].
  destruct (BMSChartLoader.beatsPerMeasure md); [|discriminate].
  destruct (BMSChartLoader.charts raw) as [cs|]; [|discriminate].
  destruct cs as [|dc cs]; [discriminate|]. cbn [length Nat.eqb].
  destruct (BMSChartLoader.validateAll sub (dc :: cs)) as [typed|] eqn:E; [|discriminate].
  intros H. inversion H; subst cd; clear H. cbn [charts metadata]. split.
  - destruct dc as [d c]. simpl in E.
    destruct (BMSChartLoader.validateChartDifficulty c d sub); [|discriminate].
    destruct (BMSChartLoader.validateAll sub cs); [|discriminate].
    inversion E. discriminate.
  - match goal with
    | |- Forall (fun dc => _ /\ forallb (wellFormedMeasure ?m) _ = true) _ =>
        apply (validateAll_ok m (dc :: cs)); exact E
    end.
Qed.

(** Chart data that the loader accepts define at least one difficulty,
    and each difficulty has at least one measure and well-formed lanes
    only: the timing engine's own validation reports it valid, and the
    conversion schedules one note for each onset. *)
Theorem loaded_chart_is_valid raw cd d chart :
  BMSChartLoader.processChartData raw = Ok cd ->
  lookup_chart d (charts cd) = Some chart ->
  measures chart <> [] /\
  exists r notes,
    validateChart cd d = Ok r /\ isValid r = true /\ issues r = [] /\
    convertToGameFormat cd d = Ok notes /\
    length notes = totalOnsets (measures chart).
Proof.
  intros Hok Hc. destruct (processChartData_ok raw cd Hok) as [_ Hall].
  destruct (lookup_chart_In d _ chart Hc) as [k Hin].
  rewrite List.Forall_forall in Hall. destruct (Hall _ Hin) as [Hne Hwf]. simpl in *.
  split; [exact Hne|].
  destruct (wellFormed_converts cd d chart Hc Hwf) as (notes & Hn & Hl).
  pose proof (validateMeasures_length (metadata cd) 0 (measures chart) []) as Hi.
  apply (proj2 (illFormedLanes_zero _ _)) in Hwf as Hz. rewrite Hz in Hi.
  eexists. exists notes. split; [apply (validateChart_found cd d chart Hc)|].
  cbn [isValid issues]. repeat split; try assumption.
  destruct (validateMeasures _ _ _ _); [reflexivity | discriminate].
Qed.

Lemma loaded_chart_is_valid_witness :
  exists cd chart,
    BMSChartLoader.processChartData Scenario.rawChart = Ok cd /\
    lookup_chart "easy" (charts cd) = Some chart /\
    measures chart <> [] /\
    exists r notes,
      validateChart cd "easy" = Ok r /\ isValid r = true /\ issues r = [] /\
      convertToGameFormat cd "easy" = Ok notes /\
      length notes = totalOnsets (measures chart).
Proof.
  eexists. eexists. split; [reflexivity|]. split; [reflexivity|].
  apply (loaded_chart_is_valid Scenario.rawChart _ "easy"); reflexivity.
Defined.

(** *** Generated charts *)

Lemma templates_cases sub ty :
  BMSChartLoader.getPatternTemplates (Some sub) ty = [] \/ sub = 16%Z \/ sub = 8%Z.
Proof.
  destruct sub as [|p|p]; try (now left).
  do 5 (try (destruct p as [p|p|]; try (now left))); destruct ty; auto.
Qed.

Lemma templates_pass sub ty d i me :
  In me (BMSChartLoader.getPatternTemplates (Some sub) ty) ->
  BMSChartLoader.checkMeasure sub d i me = None.
Proof.
  destruct (templates_cases sub ty) as [E|[->| ->]].
  - rewrite E. intros [].
  - destruct ty; simpl; intros [<-|[<-|[]]]; reflexivity.
  - destruct ty; simpl; intros H; repeat destruct H as [<-|H]; try destruct H; reflexivity.
Qed.

Lemma generateMeasures_ok tpl i count :
  tpl <> [] ->
  exists ms,
    BMSChartLoader.generateMeasures tpl i count = Ok ms /\
    length ms = count /\
    Forall (fun me => In me tpl) ms /\
    forall j, (j < count)%nat ->
      nth_error ms j = nth_error tpl ((i + j) mod length tpl).
Proof.
  intros Hne. revert i. induction count as [|count IH]; intros i.
  - exists []. repeat split; [constructor | intros j Hj; lia].
  - simpl.
    assert (Hlt : (i mod length tpl < length tpl)%nat).
    { apply Nat.mod_upper_bound. destruct tpl; [congruence | discriminate]. }
    destruct (nth_error tpl (i mod length tpl)) as [me|] eqn:E.
    2:{ apply nth_error_None in E. lia. }
    destruct (IH (Datatypes.S i)) as (ms & -> & Hl & Hall & Hnth).
    exists (me :: ms). repeat split.
    + simpl. now rewrite Hl.
    + constructor; [eapply nth_error_In, E | exact Hall].
    + intros [|j] Hj; simpl.
      * now rewrite Nat.add_0_r.
      * rewrite Hnth by lia. f_equal. f_equal. lia.
Qed.

Lemma checkMeasures_templates sub ty d i ms :
  Forall (fun me => In me (BMSChartLoader.getPatternTemplates (Some sub) ty)) ms ->
  BMSChartLoader.checkMeasures sub d i ms = None.
Proof.
  intros H. revert i. induction H as [|me ms Hme _ IH]; intros i; simpl; [reflexivity|].
  rewrite (templates_pass sub ty d i me Hme). apply IH.
Qed.

(** [generateChart] with complete metadata has three outcomes.  Asked for
    no measure, it throws the loader's error for a difficulty without
    measures.  Asked for measures of a subdivision and pattern type that
    have no template (any subdivision but 8 and 16; advanced and expert at
    8), it throws instead of falling back to the basic templates.
    Otherwise it returns chart data whose difficulty has the requested
    number of measures, cycling through the templates. *)
Theorem generateChart_outcomes md d count ty sub :
  BMSChartLoader.title md <> None -> BMSChartLoader.artist md <> None ->
  BMSChartLoader.bpm md <> None -> BMSChartLoader.beatsPerMeasure md <> None ->
  BMSChartLoader.subdivision md = Some sub ->
  let tpl := BMSChartLoader.getPatternTemplates (Some sub) ty in
  (count = O ->
   BMSChartLoader.generateChart md d count ty = Throw (BMSChartLoader.NoMeasures d)) /\
  (count <> O -> tpl = [] ->
   BMSChartLoader.generateChart md d count ty = Throw BMSChartLoader.NoTemplate) /\
  (count <> O -> tpl <> [] ->
   exists cd chart,
     BMSChartLoader.generateChart md d count ty = Ok cd /\
     subdivision (metadata cd) = sub /\
     lookup_chart d (charts cd) = Some chart /\
     length (measures chart) = count /\
     forall j, (j < count)%nat ->
       nth_error (measures chart) j = nth_error tpl (j mod length tpl)).
Proof.
  intros Ht Ha Hb HB Hs tpl.
  unfold BMSChartLoader.generateChart. rewrite Hs. fold tpl.
  destruct (BMSChartLoader.title md) eqn:E1; [|congruence].
  destruct (BMSChartLoader.artist md) eqn:E2; [|congruence].
  destruct (BMSChartLoader.bpm md) eqn:E3; [|congruence].
  destruct (BMSChartLoader.beatsPerMeasure md) eqn:E4; [|congruence].
  repeat split.
  - intros ->. simpl. unfold BMSChartLoader.processChartData. cbn.
    now rewrite E1, E2, E3, Hs, E4.
  - intros Hc He. destruct count as [|count]; [congruence|]. rewrite He. reflexivity.
  - intros Hc Hne.
    destruct (generateMeasures_ok tpl 0 count Hne) as (ms & -> & Hl & Hall & Hnth).
    unfold BMSChartLoader.processChartData. cbn.
    rewrite E1, E2, E3, Hs, E4. cbn.
    unfold BMSChartLoader.validateChartDifficulty. cbn.
    destruct ms as [|me ms]; [simpl in Hl; congruence|]. cbn [length Nat.eqb].
    rewrite (checkMeasures_templates sub ty d 0 (me :: ms) Hall).
    eexists. eexists. split; [reflexivity|]. cbn.
    rewrite String.eqb_refl. repeat split; assumption.
Qed.

Lemma generateChart_outcomes_witness :
  BMSChartLoader.generateChart (Scenario.rawMetadata 16) "easy" 0 BMSChartLoader.expert
    = Throw (BMSChartLoader.NoMeasures "easy") /\
  BMSChartLoader.generateChart (Scenario.rawMetadata 8) "easy" 3 BMSChartLoader.expert
    = Throw BMSChartLoader.NoTemplate /\
  exists cd chart,
    BMSChartLoader.generateChart (Scenario.rawMetadata 16) "easy" 5 BMSChartLoader.expert
      = Ok cd /\
    lookup_chart "easy" (charts cd) = Some chart /\ length (measures chart) = 5%nat.
Proof.
  split; [|split].
  - apply (generateChart_outcomes (Scenario.rawMetadata 16) "easy" 0 BMSChartLoader.expert 16);
      try discriminate; reflexivity.
  - apply (generateChart_outcomes (Scenario.rawMetadata 8) "easy" 3 BMSChartLoader.expert 8);
      try discriminate; reflexivity.
  - destruct (generateChart_outcomes (Scenario.rawMetadata 16) "easy" 5
                BMSChartLoader.expert 16) as (_ & _ & H); try discriminate; try reflexivity.
    destruct H as (cd & chart & H1 & _ & H3 & H4 & _); try discriminate.
    exists cd, chart. repeat split; assumption.
Defined.

(** *** The estimated duration *)

Lemma onsetPositions_bound i cs :
  Forall (fun k => (i <= k < i + length cs)%nat) (onsetPositions i cs).
Proof.
  revert i. induction cs as [|c cs IH]; intros i; simpl; [constructor|].
  assert (H : Forall (fun k => (i <= k < i + Datatypes.S (length cs))%nat)
                (onsetPositions (Datatypes.S i) cs)).
  { eapply Forall_impl; [apply IH|]. simpl. intros k Hk. lia. }
  destruct (is_one c); [constructor; [lia | exact H] | exact H].
Qed.

Lemma length_ascii_list (s : string) : length (list_ascii_of_string s) = String.length s.
Proof. induction s as [|c s IH]; simpl; [reflexivity | now rewrite IH]. Qed.

Lemma laneNotes_onGrid md p m ln count :
  (m < count)%nat -> Forall (onGrid md count) (laneNotes md p m ln).
Proof.
  intros Hm. unfold laneNotes, invalidPattern. destruct p as [s|]; [|constructor].
  destruct (String.length s =? 0)%nat; [constructor|]. cbn [orb].
  destruct (Z.of_nat (String.length s) =? subdivision md)%Z eqn:E; [|constructor].
  cbn [negb]. apply Z.eqb_eq in E.
  apply Forall_map. eapply Forall_impl; [apply (onsetPositions_bound 0)|].
  intros k Hk. rewrite length_ascii_list in Hk.
  unfold onGrid. cbn. repeat split; [exact Hm | lia].
Qed.

Lemma measuresLoop_onGrid md count m ms notes :
  (m + length ms <= count)%nat ->
  Forall (onGrid md count) notes ->
  Forall (onGrid md count) (measuresLoop md m ms notes).
Proof.
  revert m notes. induction ms as [|me ms IH]; intros m notes Hm Hn; simpl; [exact Hn|].
  simpl in Hm. apply IH; [lia|].
  rewrite !processLane_laneNotes. rewrite !Forall_app.
  repeat split; [exact Hn | |]; apply laneNotes_onGrid; lia.
Qed.

Lemma longest_ge best cs :
  (length (measures best) <= length (measures (BMSChartLoader.longest best cs)))%nat /\
  forall k c, In (k, c) cs ->
    (length (measures c) <= length (measures (BMSChartLoader.longest best cs)))%nat.
Proof.
  revert best. induction cs as [|[k0 c0] cs IH]; intros best; simpl.
  - split; [lia | intros k c []].
  - destruct (length (measures best) <? length (measures c0))%nat eqn:E.
    + apply Nat.ltb_lt in E. destruct (IH c0) as [H1 H2]. split; [lia|].
      intros k c [H|H]; [inversion H; subst; exact H1 | eapply H2, H].
    + apply Nat.ltb_ge in E. destruct (IH best) as [H1 H2]. split; [exact H1|].
      intros k c [H|H]; [inversion H; subst; lia | eapply H2, H].
Qed.

Lemma onGrid_time md count n :
  0 < bpm md -> 0 < beatsPerMeasure md -> onGrid md count n ->
  offset md * 1000 <= hitTime n /\
  hitTime n < (Nq count * beatsPerMeasure md / bpm md * 60) * 1000 + offset md * 1000.
Proof.
  intros Hb HB (Hm & Hi & ->).
  unfold calculateNoteTime, secondsPerBeat.
  assert (Hs : 0 < Zq (subdivision md)).
  { unfold Zq. change 0 with (inject_Z 0). rewrite <- Zlt_Qlt. lia. }
  assert (Hi' : Nq (subdivisionIndex n) < Zq (subdivision md)).
  { unfold Nq, Zq. now rewrite <- Zlt_Qlt. }
  assert (Hi0 : 0 <= Nq (subdivisionIndex n)).
  { unfold Nq. change 0 with (inject_Z 0). rewrite <- Zle_Qle. lia. }
  assert (Hm0 : 0 <= Nq (measureIndex n)).
  { unfold Nq. change 0 with (inject_Z 0). rewrite <- Zle_Qle. lia. }
  assert (Hm' : Nq (measureIndex n) + 1 <= Nq count).
  { rewrite <- Nq_succ. unfold Nq. rewrite <- Zle_Qle. lia. }
  assert (Hf0 : 0 <= Nq (subdivisionIndex n) / Zq (subdivision md)).
  { unfold Qdiv. apply Qmult_le_0_compat; [exact Hi0|].
    apply Qlt_le_weak. now apply Qinv_lt_0_compat. }
  assert (Hf1 : Nq (subdivisionIndex n) / Zq (subdivision md) < 1).
  { apply Qlt_shift_div_r; [exact Hs | lra]. }
  assert (Hc : 0 < 60 / bpm md).
  { unfold Qdiv. apply Qmult_lt_0_compat; [reflexivity | now apply Qinv_lt_0_compat]. }
  assert (Hd : Nq count * beatsPerMeasure md / bpm md * 60
               == Nq count * beatsPerMeasure md * (60 / bpm md)).
  { field. intros H. rewrite H in Hb. discriminate. }
  rewrite Hd.
  set (c := 60 / bpm md) in *. set (f := Nq (subdivisionIndex n) / Zq (subdivision md)) in *.
  set (x := Nq (measureIndex n)) in *. set (N := Nq count) in *.
  set (B := beatsPerMeasure md) in *. set (off := offset md).
  clearbody c f x N B off.
  assert (H1 : 0 <= (x * B + f * B) * c).
  { apply Qmult_le_0_compat; [|lra]. nra. }
  assert (H2 : (x * B + f * B) * c < N * B * c).
  { apply Qmult_lt_compat_r; [exact Hc|]. nra. }
  split; lra.
Qed.

(** For a chart with a positive tempo and measure length,
    [estimateDuration] bounds the schedule of every difficulty: each note
    that [convertToGameFormat] returns is due no earlier than the offset
    and earlier than the offset plus the estimated duration. *)
Theorem estimate_bounds_schedule cd d notes :
  0 < bpm (metadata cd) -> 0 < beatsPerMeasure (metadata cd) ->
  convertToGameFormat cd d = Ok notes ->
  exists dur,
    BMSChartLoader.estimateDuration cd = Ok dur /\
    Forall (fun n => offset (metadata cd) * 1000 <= hitTime n /\
                     hitTime n < dur * 1000 + offset (metadata cd) * 1000) notes.
Proof.
  intros Hb HB. unfold convertToGameFormat.
  destruct (lookup_chart d (charts cd)) as [chart|] eqn:Hc; [|discriminate].
  intros H. inversion H; subst notes; clear H.
  destruct (lookup_chart_In d _ chart Hc) as [k Hin].
  unfold BMSChartLoader.estimateDuration.
  destruct (charts cd) as [|[k0 c0] rest] eqn:Ecs; [destruct Hin|].
  eexists. split; [reflexivity|].
  set (N := length (measures (BMSChartLoader.longest c0 rest))).
  assert (HN : (length (measures chart) <= N)%nat).
  { destruct (longest_ge c0 rest) as [H1 H2].
    destruct Hin as [H|H]; [inversion H; subst; exact H1 | eapply H2, H]. }
  apply BMSFacts.sortNotes_Forall.
  eapply Forall_impl; [apply (measuresLoop_onGrid (metadata cd) N 0); [simpl; lia | constructor]|].
  intros n Hn. apply (onGrid_time _ _ _ Hb HB Hn).
Qed.

Lemma estimate_bounds_schedule_witness :
  exists notes dur,
    convertToGameFormat createTestChart "hard" = Ok notes /\
    BMSChartLoader.estimateDuration createTestChart = Ok dur /\
    Forall (fun n => offset testMetadata * 1000 <= hitTime n /\
                     hitTime n < dur * 1000 + offset testMetadata * 1000) notes.
Proof.
  destruct (estimate_bounds_schedule createTestChart "hard" _ eq_refl eq_refl eq_refl)
    as (dur & Hd & Hall).
  eexists. exists dur. split; [reflexivity|]. split; [exact Hd | exact Hall].
Defined.

(** *** What the loader accepts *)

Lemma checkMeasure_wellFormed md d i me :
  wellFormedMeasure md me = true ->
  BMSChartLoader.checkMeasure (subdivision md) d i me = None.
Proof.
  unfold BMSChartLoader.checkMeasure, wellFormedMeasure, wellFormed,
    BMSChartLoader.emptyLane, BMSChartLoader.laneLength, BMSChartLoader.onlyBits.
  destruct (topLane me) as [t|]; [|discriminate].
  destruct (bottomLane me) as [b|]; [|now rewrite andb_false_r].
  destruct (String.length t =? 0)%nat; [discriminate|].
  destruct (String.length b =? 0)%nat; [now rewrite andb_false_r|].
  destruct (Z.of_nat (String.length t) =? subdivision md)%Z; [|discriminate].
  destruct (Z.of_nat (String.length b) =? subdivision md)%Z; [|now rewrite andb_false_r].
  destruct (forallb validChar (list_ascii_of_string t)); [|discriminate].
  destruct (forallb validChar (list_ascii_of_string b)); [reflexivity | discriminate].
Qed.

Lemma checkMeasures_wellFormed md d i ms :
  forallb (wellFormedMeasure md) ms = true ->
  BMSChartLoader.checkMeasures (subdivision md) d i ms = None.
Proof.
  revert i. induction ms as [|me ms IH]; intros i; simpl; [reflexivity|].
  intros H. apply andb_true_iff in H as [H1 H2].
  rewrite (checkMeasure_wellFormed md d i me H1). now apply IH.
Qed.

Lemma validateChartDifficulty_iff md c d :
  (exists ms, BMSChartLoader.validateChartDifficulty c d (subdivision md) = Ok ms) <->
  (exists ms, BMSChartLoader.measures c = Some ms /\ ms <> [] /\
     forallb (wellFormedMeasure md) ms = true).
Proof.
  split.
  - intros [ms H]. pose proof (validateChartDifficulty_ok md c d ms H) as [H1 H2].
    exists ms. split; [|tauto].
    unfold BMSChartLoader.validateChartDifficulty in H.
    destruct (BMSChartLoader.measures c) as [ms'|]; [|discriminate].
    destruct (length ms' =? 0)%nat; [discriminate|].
    destruct (BMSChartLoader.checkMeasures _ _ _ _); [discriminate|]. congruence.
  - intros (ms & Hm & Hne & Hwf). exists ms.
    unfold BMSChartLoader.validateChartDifficulty. rewrite Hm.
    destruct ms as [|me ms]; [congruence|]. cbn [length Nat.eqb].
    now rewrite (checkMeasures_wellFormed md d 0 _ Hwf).
Qed.

Lemma validateAll_iff md cs :
  (exists typed, BMSChartLoader.validateAll (subdivision md) cs = Ok typed) <->
  Forall (fun dc => exists ms, BMSChartLoader.measures (snd dc) = Some ms /\ ms <> [] /\
            forallb (wellFormedMeasure md) ms = true) cs.
Proof.
  induction cs as [|[d c] cs IH]; simpl.
  - split; [constructor | eauto].
  - split.
    + intros [typed H].
      destruct (BMSChartLoader.validateChartDifficulty c d (subdivision md)) as [ms|] eqn:E;
        [|discriminate].
      destruct (BMSChartLoader.validateAll (subdivision md) cs) as [done|]; [|discriminate].
      constructor; [|apply IH; eauto].
      apply (validateChartDifficulty_iff md c d). eauto.
    + intros H. inversion H as [|? ? Hc Hcs]; subst.
      apply (validateChartDifficulty_iff md c d) in Hc as [ms ->].
      apply IH in Hcs as [done ->]. eauto.
Qed.

(** With complete metadata, the loader accepts chart data exactly when
    they define at least one difficulty and every difficulty has a
    measures array that is not empty and whose lanes are all well formed
    for the subdivision; it throws on all other chart data. *)
Theorem loader_accepts_exactly_valid raw md b sub B cs :
  BMSChartLoader.metadata raw = Some md ->
  BMSChartLoader.title md <> None -> BMSChartLoader.artist md <> None ->
  BMSChartLoader.bpm md = Some b -> BMSChartLoader.subdivision md = Some sub ->
  BMSChartLoader.beatsPerMeasure md = Some B ->
  BMSChartLoader.charts raw = Some cs ->
  let typed := {| bpm := b; subdivision := sub; beatsPerMeasure := B;
                  offset := match BMSChartLoader.offset md with
                            | Some o => o
                            | None => 0%Q
                            end |} in
  ((exists cd, BMSChartLoader.processChartData raw = Ok cd) <->
   cs <> [] /\
   Forall (fun dc => exists ms, BMSChartLoader.measures (snd dc) = Some ms /\ ms <> [] /\
             forallb (wellFormedMeasure typed) ms = true) cs) /\
  (forall cd, BMSChartLoader.processChartData raw = Ok cd ->
     metadata cd = typed /\ List.map fst (charts cd) = List.map fst cs).
Proof.
  intros Hmd Ht Ha Hb Hs HB Hcs typed.
  unfold BMSChartLoader.processChartData. rewrite Hmd, Hb, Hs, HB, Hcs.
  destruct (BMSChartLoader.title md); [|congruence].
  destruct (BMSChartLoader.artist md); [|congruence].
  fold typed. pose proof (validateAll_iff typed cs) as Hiff. cbn [subdivision typed] in Hiff.
  split.
  - destruct cs as [|dc cs'].
    + cbn [length Nat.eqb]. split; [intros [cd H]; discriminate | intros [H _]; congruence].
    + cbn [length Nat.eqb].
      destruct (BMSChartLoader.validateAll sub (dc :: cs')) as [done|] eqn:E.
      * split; [intros _ | eauto]. split; [discriminate|]. apply Hiff. eauto.
      * split; [intros [cd H]; discriminate|].
        intros [_ H]. apply Hiff in H as [done H]. discriminate.
  - intros cd. destruct (length cs =? 0)%nat; [discriminate|].
    destruct (BMSChartLoader.validateAll sub cs) as [done|] eqn:E; [|discriminate].
    intros H. inversion H; subst cd; clear H. cbn [metadata charts].
    split; [reflexivity|].
    clear Hiff Hcs. revert done E. induction cs as [|[d c] cs' IH]; intros done E; simpl in E.
    + now inversion E.
    + destruct (BMSChartLoader.validateChartDifficulty c d sub); [|discriminate].
      destruct (BMSChartLoader.validateAll sub cs') as [done'|]; [|discriminate].
      inversion E; subst done. simpl. f_equal. now apply IH.
Qed.

Lemma loader_accepts_exactly_valid_witness :
  exists cd, BMSChartLoader.processChartData Scenario.rawChart = Ok cd.
Proof.
  destruct (loader_accepts_exactly_valid Scenario.rawChart (Scenario.rawMetadata 16)
              128 16 4
              [("easy"%string,
                {| BMSChartLoader.measures :=
                     Some [ BMSChartLoader.T "1000100010001000" "0010001000100010";
                            BMSChartLoader.T "1010000010100000" "0000101000001010" ] |})])
    as [[_ H] _]; try reflexivity; try discriminate.
  apply H. split; [discriminate|]. constructor; [|constructor].
  eexists. split; [reflexivity|]. split; [discriminate | reflexivity].
Defined.

End LoaderFacts.

(** ** The procedural charts: validation and difficulty *)

Module DifficultyFacts.
Import JS JSFacts BeatChartGenerator Schedule.






(** *** validateChart *)

Lemma validateLoop_cons i cur next rest found :
  validateLoop i (cur :: next :: rest) found =
    validateLoop (Datatypes.S i) (next :: rest)
      ((if ltb (hitTime next - hitTime cur) 100 then found ++ [TooClose i] else found)
       ++ (if ltb (spawnTime cur) 0 then [NegativeSpawn i] else [])).
Proof.
  cbn [validateLoop]. destruct (ltb (spawnTime cur) 0); [reflexivity|].
  now rewrite app_nil_r.
Qed.

Lemma validateLoop_app i chart found :
  validateLoop i chart found = found ++ validateLoop i chart [].
Proof.
  revert i found. induction chart as [|cur chart IH]; intros i found.
  - simpl. now rewrite app_nil_r.
  - destruct chart as [|next rest]; [simpl; now rewrite app_nil_r|].
    rewrite !validateLoop_cons. rewrite IH. symmetry. rewrite IH. symmetry.
    destruct (ltb (hitTime next - hitTime cur) 100), (ltb (spawnTime cur) 0);
      cbn [app]; rewrite <- ?app_assoc, ?app_nil_r; reflexivity.
Qed.

Lemma validateLoop_clean i chart :
  validateLoop i chart [] = [] <-> spaced chart.
Proof.
  revert i. induction chart as [|cur chart IH]; intros i.
  - simpl. split; [|reflexivity]. intros _ k c n Hk. destruct k; discriminate.
  - destruct chart as [|next rest].
    + simpl. split; [|reflexivity]. intros _ k c n _ Hk. destruct k; discriminate.
    + rewrite validateLoop_cons, validateLoop_app. split.
      * intros H. apply app_eq_nil in H as [H1 H2].
        apply IH in H2.
        destruct (ltb (hitTime next - hitTime cur) 100) eqn:E1;
          [destruct (ltb (spawnTime cur) 0); discriminate|].
        destruct (ltb (spawnTime cur) 0) eqn:E2; [discriminate|].
        apply ltb_ge in E1, E2.
        intros [|k] c n Hc Hn.
        -- inversion Hc; inversion Hn; subst. split; assumption.
        -- exact (H2 k c n Hc Hn).
      * intros H. destruct (H 0%nat cur next eq_refl eq_refl) as [H1 H2].
        apply ltb_ge in H1, H2. rewrite H1, H2. cbn [app].
        apply (IH (Datatypes.S i)). intros k c n Hc Hn. exact (H (Datatypes.S k) c n Hc Hn).
Qed.

Lemma validateChart_clean chart :
  isValid (validateChart chart) = true <-> spaced chart.
Proof.
  unfold validateChart. cbn [isValid]. rewrite <- (validateLoop_clean 0).
  rewrite Nat.eqb_eq. split.
  - intros H. now destruct (validateLoop 0 chart []).
  - now intros ->.
Qed.

(** [validateChart] reports a chart valid, and then with no issue,
    exactly when every two neighbours are at least 100 ms apart and the
    first of every two neighbours has no negative spawn time.  The
    spawn time of the last note is not inspected: a chart of one note is
    always valid. *)
Theorem validateChart_valid_iff chart :
  (isValid (validateChart chart) = true <-> spaced chart) /\
  (isValid (validateChart chart) = true <-> issues (validateChart chart) = []) /\
  (forall n, isValid (validateChart [n]) = true).
Proof.
  split; [apply validateChart_clean|]. split; [|reflexivity].
  unfold validateChart. cbn [isValid issues]. rewrite Nat.eqb_eq. split.
  - intros H. now destruct (validateLoop 0 chart []).
  - now intros ->.
Qed.



(** *** increaseDifficulty and decreaseDifficulty *)

Lemma increaseLoop_pairs random i chart :
  Forall2 addsLanes chart (increaseLoop random i chart).
Proof.
  revert i. induction chart as [|n chart IH]; intros i; simpl; constructor; [|apply IH].
  destruct (ltb (random i) (1 # 10)); unfold addsLanes; cbn; tauto.
Qed.

(** Whatever [Math.random] returns, [increaseDifficulty] keeps the notes of
    the chart in number and order, with their times, beat and section,
    and only adds lanes: a note keeps every lane that it played. *)
Theorem increaseDifficulty_adds_lanes random chart :
  Forall2 addsLanes chart (increaseDifficulty random chart).
Proof. apply increaseLoop_pairs. Qed.


Lemma sublist_keeps {A} (P : A -> Prop) (l l' : list A) :
  sublist l l' -> Forall P l' -> Forall P l.
Proof.
  induction 1 as [|x l l' H IH|x l l' H IH]; intros Hall; [constructor| |];
    inversion Hall; subst; [constructor; [assumption | now apply IH] | now apply IH].
Qed.

Lemma decreaseLoop_sublist i chart :
  sublist (decreaseLoop i chart) (List.map topOnly chart).
Proof.
  revert i. induction chart as [|n chart IH]; intros i; cbn [decreaseLoop List.map];
    [constructor|].
  destruct (ltb (8 # 10) (noteIntensity n) && (i mod 4 =? 3)%nat).
  - apply sublist_cons, IH.
  - unfold topOnly at 1. destruct (topLane n && bottomLane n) eqn:E.
    + apply andb_true_iff in E as [-> _]. apply sublist_skip, IH.
    + apply sublist_skip, IH.
Qed.

Lemma topOnly_single n : topLane (topOnly n) && bottomLane (topOnly n) = false.
Proof.
  unfold topOnly. destruct (topLane n && bottomLane n) eqn:E; [reflexivity | exact E].
Qed.

Lemma decreaseLoop_calm i chart :
  Forall (fun n => leb (noteIntensity n) (8 # 10) = true) chart ->
  decreaseLoop i chart = List.map topOnly chart.
Proof.
  intros H. revert i.
  induction H as [|n chart Hn _ IH]; intros i; cbn [decreaseLoop List.map]; [reflexivity|].
  apply leb_le in Hn. apply ltb_ge in Hn. rewrite Hn. cbn [andb]. rewrite IH.
  unfold topOnly at 2. destruct (topLane n && bottomLane n) eqn:E; [|reflexivity].
  apply andb_true_iff in E as [-> _]. reflexivity.
Qed.

(** [decreaseDifficulty] returns notes of the chart, in their order, each
    with a simultaneous hit turned into a top hit and otherwise unchanged:
    no returned note plays both lanes.  A chart with no note of intensity
    above 0.8 loses no note. *)
Theorem decreaseDifficulty_simplifies chart :
  sublist (decreaseDifficulty chart) (List.map topOnly chart) /\
  Forall (fun n => topLane n && bottomLane n = false) (decreaseDifficulty chart) /\
  (Forall (fun n => leb (noteIntensity n) (8 # 10) = true) chart ->
   decreaseDifficulty chart = List.map topOnly chart).
Proof.
  split; [apply decreaseLoop_sublist|]. split; [|apply decreaseLoop_calm].
  eapply sublist_keeps; [apply decreaseLoop_sublist|].
  apply Forall_map. apply Forall_forall. intros n _. apply topOnly_single.
Qed.








End DifficultyFacts.

(** ** The tally along the runs of the engine *)

Module ScoreFacts.
Import JS JSFacts GameEngineHold Tally HoldFrame.

Lemma tally_refl s : tally s s.
Proof. unfold tally, advances. split; [lia | tauto]. Qed.

Lemma tally_trans s1 s2 s3 : tally s1 s2 -> tally s2 s3 -> tally s1 s3.
Proof. unfold tally, advances. intros [H1 H2] [H3 H4]. split; [lia | tauto]. Qed.

Lemma tally_same s s' :
  GameStateManager.scores (gsm s') = GameStateManager.scores (gsm s) ->
  GameStateManager.stats (gsm s') = GameStateManager.stats (gsm s) ->
  tally s s'.
Proof.
  intros H1 H2. unfold tally, advances, consistent, judged. rewrite H1, H2.
  split; [lia | tauto].
Qed.

Lemma tally_gsm s s' : gsm s' = gsm s -> tally s s'.
Proof. intros H. apply tally_same; now rewrite H. Qed.

Lemma tally_score p j s : (0 <= p)%Z -> tally s (score p j s).
Proof.
  intros Hp. unfold tally, advances, consistent, judged, score, set_gsm,
    GameStateManager.updateScore. cbn.
  destruct j; cbn; split; lia.
Qed.

Lemma tally_modify id f s : tally s (modify id f s).
Proof. apply tally_gsm. apply modify_shell. Qed.

Lemma tally_completeHoldNote id j s : tally s (completeHoldNote id j s).
Proof.
  unfold completeHoldNote. destruct (heap s !! id) as [n|]; [|apply tally_refl].
  cbv zeta.
  match goal with
  | |- tally s (set_holds _ ?x) => apply (tally_trans s x); [|apply tally_gsm; reflexivity]
  end.
  eapply tally_trans; [|apply tally_modify].
  destruct j; try apply tally_refl; apply tally_score; lia.
Qed.

Lemma tally_updateHold gt id s : tally s (updateHold gt id s).
Proof.
  unfold updateHold. destruct (heap s !! id) as [n|]; [|apply tally_refl].
  destruct (holdingSince n) as [t0|]; [|apply tally_refl].
  match goal with
  | |- tally s (if _ then completeHoldNote _ _ ?x else _) =>
      assert (H : tally s x)
  end.
  { destruct (0 <? _)%Z eqn:E; [|apply tally_refl]. apply Z.ltb_lt in E.
    eapply tally_trans; [apply tally_modify | apply tally_score; lia]. }
  destruct (geb _ _); [|exact H].
  eapply tally_trans; [exact H | apply tally_completeHoldNote].
Qed.

Lemma tally_holdLoop gt keys s : tally s (holdLoop gt keys s).
Proof.
  revert s. induction keys as [|k keys IH]; intros s; simpl; [apply tally_refl|].
  destruct (mapGet k (activeHoldNotes s)) as [id|]; [|apply IH].
  eapply tally_trans; [apply tally_updateHold | apply IH].
Qed.

Lemma tally_clearAllNotes s : tally s (clearAllNotes s).
Proof.
  unfold clearAllNotes.
  match goal with
  | |- tally s (set_notes [] ?x) => apply (tally_trans s x); [|apply tally_gsm; reflexivity]
  end.
  generalize (notes s) as ids. intros ids. revert s.
  induction ids as [|id ids IH]; intros s; simpl; [apply tally_refl|].
  eapply tally_trans; [apply tally_modify | apply IH].
Qed.

Lemma tally_stopGame s : tally s (stopGame s).
Proof.
  unfold stopGame.
  match goal with
  | |- tally s (set_gsm _ (set_holds [] (clearAllNotes ?x))) =>
      eapply tally_trans; [apply (tally_gsm s x); reflexivity|];
      eapply tally_trans; [apply (tally_clearAllNotes x)|]
  end.
  apply tally_same; reflexivity.
Qed.

Lemma tally_update w ui now s : tally s (update w ui now s).
Proof.
  unfold update. destruct (negb (isPlaying s) || isPaused s); [apply tally_refl|].
  cbv zeta.
  match goal with
  | |- context [updateHoldNotes ?g ?x] =>
      assert (H : tally s (updateHoldNotes g x))
  end.
  { eapply tally_trans; [|apply tally_holdLoop].
    apply tally_gsm.
    match goal with
    | |- gsm (spawnNotes _ _ _ _ ?y) = _ =>
        rewrite (proj1 (HoldScoring.extends_spawnNotes w ui now (gameTime now s) y))
    end.
    reflexivity. }
  match goal with
  | |- context [if ?b then _ else _] => destruct b
  end; [|exact H].
  eapply tally_trans; [exact H | apply tally_stopGame].
Qed.

Lemma tally_slideNote id s : tally s (slideNote id s).
Proof.
  unfold slideNote. destruct (heap s !! id) as [n|]; [|apply tally_refl].
  destruct (negb (sliding n)); [apply tally_refl|].
  destruct (hit n || negb (attached n)); [apply tally_modify|].
  cbv zeta. destruct (ltb _ _); [|apply tally_modify].
  match goal with
  | |- tally s (set_notes _ ?x) => apply (tally_trans s x); [|apply tally_gsm; reflexivity]
  end.
  eapply tally_trans; [|apply tally_modify].
  eapply tally_trans; [apply tally_modify | apply tally_score; lia].
Qed.

Lemma calculateScore_nonneg j : (0 <= calculateScore j)%Z.
Proof. destruct j; simpl; lia. Qed.

Lemma tally_handleKeyPress w now l s : tally s (handleKeyPress w now l s).
Proof.
  unfold handleKeyPress. destruct (findHittableNote w l s) as [id|].
  - destruct (heap s !! id) as [n|]; [|apply tally_refl].
    destruct (type n).
    + cbv zeta. eapply tally_trans; [|apply tally_modify].
      eapply tally_trans; [apply tally_modify|].
      apply tally_score, calculateScore_nonneg.
    + cbv zeta. eapply tally_trans; [|apply tally_score, calculateScore_nonneg].
      match goal with
      | |- tally s (set_holds _ ?x) =>
          apply (tally_trans s x); [apply tally_modify | apply tally_gsm; reflexivity]
      end.
  - destruct (0 <? _)%nat; [apply tally_score; lia | apply tally_refl].
Qed.

Lemma tally_handleKeyRelease now l s : tally s (handleKeyRelease now l s).
Proof.
  unfold handleKeyRelease.
  destruct (mapGet l (activeHoldNotes s)) as [id|]; [|apply tally_refl].
  destruct (heap s !! id) as [n|]; [|apply tally_refl].
  destruct (isHolding n); [|apply tally_refl].
  destruct (geb _ _); apply tally_completeHoldNote.
Qed.

Lemma tally_createNote w ui now l h ty d s : tally s (createNote w ui now l h ty d s).
Proof. apply tally_gsm. apply (HoldScoring.extends_createNote w ui now l h ty d s). Qed.

Lemma tally_flowTick w ui now p i s : tally s (flowTick w ui now p i s).
Proof.
  unfold flowTick. destruct (negb (isPlaying s)); [apply tally_refl|]. cbv zeta.
  repeat match goal with
  | |- tally _ (if ?b then createNote _ _ _ _ _ _ _ ?x else ?x) =>
      apply (tally_trans _ x);
        [|destruct b; [apply tally_createNote | apply tally_refl]]
  end.
  apply tally_refl.
Qed.

Lemma tally_step w ui e s : tally s (step w ui e s).
Proof.
  destruct e; simpl.
  - apply tally_same; reflexivity.
  - apply tally_gsm; reflexivity.
  - apply tally_stopGame.
  - apply tally_update.
  - unfold handleInput. destruct (negb (isPlaying s) || isPaused s); [apply tally_refl|].
    destruct a; [apply tally_handleKeyPress | apply tally_handleKeyRelease].
  - apply tally_slideNote.
  - apply tally_flowTick.
  - apply tally_modify.
Qed.

Lemma tally_run w ui es s : tally s (run w ui es s).
Proof.
  unfold run. revert s. induction es as [|e es IH]; intros s; simpl; [apply tally_refl|].
  eapply tally_trans; [apply tally_step | apply IH].
Qed.

(** No sequence of engine events (starts, pauses, stops, frames, key
    presses and releases, slide and note-flow ticks) lowers the score,
    the best combo or a judgment count, and the bookkeeping stays
    consistent: from a fresh game, the combo is never negative, never
    above the best combo, and the best combo is never above the number of
    judgments other than misses. *)
Theorem scores_along_runs w ui es s :
  advances (gsm s) (gsm (run w ui es s)) /\
  consistent (gsm (run w ui es (new GameStateManager.init))).
Proof.
  split; [apply tally_run|].
  apply (tally_run w ui es (new GameStateManager.init)).
  unfold consistent, judged. cbn. lia.
Qed.

End ScoreFacts.

(** ** The target of a key press *)

Module TargetFacts.
Import JS JSFacts GameEngineHold Target HoldFrame.

Lemma closestLoop_cons w h l id rest c :
  closestLoop w h l (id :: rest) c =
    closestLoop w h l rest
      match h !! id with
      | None => c
      | Some n =>
          if Lane_eqb (lane n) l && negb (hit n) && attached n
             && match c with None => true | Some (_, cd) => ltb (distance w n) cd end
             && ltb (distance w n) 100
          then Some (id, distance w n) else c
      end.
Proof. simpl. now destruct (h !! id). Qed.

Lemma closestLoop_pick w h l ids c id d :
  closestLoop w h l ids c = Some (id, d) ->
  c = Some (id, d) \/
  (In id ids /\ exists n, hittable h l id n /\ d = distance w n /\ d < 100).
Proof.
  revert c. induction ids as [|i rest IH]; intros c H; [now left|].
  rewrite closestLoop_cons in H. apply IH in H.
  destruct H as [H|[Hin Hn]]; [|right; split; [now right | exact Hn]].
  destruct (h !! i) as [n|] eqn:Hi; [|now left].
  destruct (_ && _ && ltb (distance w n) 100) eqn:E; [|now left].
  inversion H; subst; clear H. right. split; [now left|]. exists n.
  apply andb_true_iff in E as [E Hd]. apply andb_true_iff in E as [E _].
  apply andb_true_iff in E as [E Ha]. apply andb_true_iff in E as [Hl Hh].
  apply Lane_eqb_eq in Hl. apply negb_true_iff in Hh. apply ltb_lt in Hd.
  repeat split; assumption.
Qed.

Lemma closestLoop_window w h l ids c :
  inWindow c -> inWindow (closestLoop w h l ids c).
Proof.
  revert c. induction ids as [|i rest IH]; intros c Hc; [exact Hc|].
  rewrite closestLoop_cons. apply IH.
  destruct (h !! i) as [n|]; [|exact Hc].
  destruct (_ && _ && ltb (distance w n) 100) eqn:E; [|exact Hc].
  apply andb_true_iff in E as [_ Hd]. now apply ltb_lt in Hd.
Qed.

Lemma closestLoop_lower w h l ids c x :
  bounds c x -> bounds (closestLoop w h l ids c) x.
Proof.
  revert c. induction ids as [|i rest IH]; intros c Hc; [exact Hc|].
  rewrite closestLoop_cons. apply IH.
  destruct (h !! i) as [n|]; [|exact Hc].
  destruct (_ && _ && ltb (distance w n) 100) eqn:E; [|exact Hc].
  apply andb_true_iff in E as [E Hd]. apply andb_true_iff in E as [_ Hb].
  apply ltb_lt in Hd. destruct c as [[j cd]|]; simpl in *.
  - apply ltb_lt in Hb. lra.
  - lra.
Qed.

Lemma closestLoop_covers w h l ids c id n :
  inWindow c -> In id ids -> hittable h l id n ->
  bounds (closestLoop w h l ids c) (distance w n).
Proof.
  revert c. induction ids as [|i rest IH]; intros c Hc Hin Hn; [destruct Hin|].
  rewrite closestLoop_cons. destruct Hin as [->|Hin].
  - apply closestLoop_lower. destruct Hn as (Hi & Hl & Hh & Ha).
    rewrite Hi, Hl, Hh, Ha, Lane_eqb_refl. cbn [negb andb].
    destruct c as [[j cd]|]; simpl in *.
    + destruct (ltb (distance w n) cd) eqn:E1; cbn [andb].
      * destruct (ltb (distance w n) 100) eqn:E2; simpl; [lra|].
        apply ltb_lt in E1. apply ltb_ge in E2. lra.
      * apply ltb_ge in E1. exact E1.
    + destruct (ltb (distance w n) 100) eqn:E2; simpl; [lra|]. now apply ltb_ge in E2.
  - apply IH; [|exact Hin | exact Hn].
    destruct (h !! i) as [m|]; [|exact Hc].
    destruct (_ && _ && ltb (distance w m) 100) eqn:E; [|exact Hc].
    apply andb_true_iff in E as [_ Hd]. now apply ltb_lt in Hd.
Qed.

Lemma findHittableNote_hittable w l s id :
  findHittableNote w l s = Some id -> exists n, hittable (heap s) l id n.
Proof.
  unfold findHittableNote.
  destruct (closestLoop w (heap s) l (notes s) None) as [[i d]|] eqn:E; [|discriminate].
  simpl. intros H. inversion H; subst i.
  destruct (closestLoop_pick _ _ _ _ _ _ _ E) as [H'|[_ (n & Hn & _)]]; [discriminate|].
  now exists n.
Qed.

(** [findHittableNote] returns the closest target: a live note of the lane
    that is not hit, whose element is in the document and which is less
    than 100 px from the hit zone, such that no other such note of the
    lane is closer.  It returns nothing exactly when every such note of
    the lane is 100 px or more from the hit zone. *)
Theorem findHittableNote_closest w l s :
  match findHittableNote w l s with
  | Some id =>
      In id (notes s) /\
      exists n, hittable (heap s) l id n /\ distance w n < 100 /\
        forall id' n', In id' (notes s) -> hittable (heap s) l id' n' ->
          distance w n <= distance w n'
  | None =>
      forall id' n', In id' (notes s) -> hittable (heap s) l id' n' ->
        100 <= distance w n'
  end.
Proof.
  unfold findHittableNote.
  destruct (closestLoop w (heap s) l (notes s) None) as [[id d]|] eqn:E; simpl.
  - destruct (closestLoop_pick _ _ _ _ _ _ _ E) as [H|[Hin (n & Hn & Hd & Hlt)]];
      [discriminate|].
    split; [exact Hin|]. exists n. subst d. repeat split; try apply Hn; [exact Hlt|].
    intros id' n' Hin' Hn'.
    pose proof (closestLoop_covers w (heap s) l (notes s) None id' n' I Hin' Hn') as Hb.
    rewrite E in Hb. exact Hb.
  - intros id' n' Hin' Hn'.
    pose proof (closestLoop_covers w (heap s) l (notes s) None id' n' I Hin' Hn') as Hb.
    rewrite E in Hb. exact Hb.
Qed.

End TargetFacts.

(** ** Note objects along the runs of the engine *)

Module AgingFacts.
Import JS JSFacts GameEngineHold Aging Target HoldFrame.

Lemma ages_refl n : ages n n.
Proof. unfold ages. repeat split; try tauto; [apply Qle_refl | lia]. Qed.

Lemma ages_trans n1 n2 n3 : ages n1 n2 -> ages n2 n3 -> ages n1 n3.
Proof.
  unfold ages.
  intros (A1 & A2 & A3 & A4 & A5 & A6 & A7 & A8 & A9 & A10)
         (B1 & B2 & B3 & B4 & B5 & B6 & B7 & B8 & B9 & B10).
  repeat split; try congruence; try tauto; [eapply Qle_trans; eassumption | lia].
Qed.

Lemma persists_refl s : persists s s.
Proof. intros id n H. exists n. split; [exact H | apply ages_refl]. Qed.

Lemma persists_trans s1 s2 s3 : persists s1 s2 -> persists s2 s3 -> persists s1 s3.
Proof.
  intros H1 H2 id n Hn. destruct (H1 id n Hn) as (n2 & Hn2 & A1).
  destruct (H2 id n2 Hn2) as (n3 & Hn3 & A2).
  exists n3. split; [exact Hn3 | eapply ages_trans; eassumption].
Qed.

Lemma persists_heap s s' : heap s' = heap s -> persists s s'.
Proof. intros H id n Hn. exists n. rewrite H. split; [exact Hn | apply ages_refl]. Qed.

Lemma persists_modify id f s :
  (forall n, heap s !! id = Some n -> ages n (f n)) -> persists s (modify id f s).
Proof.
  intros Hf id' n Hn. destruct (Nat.eq_dec id id') as [->|Hne].
  - exists (f n). split; [now apply modify_heap_eq | now apply Hf].
  - exists n. split; [now rewrite modify_heap_ne | apply ages_refl].
Qed.

Lemma ages_detach n : ages n (detach n).
Proof. unfold ages. cbn. repeat split; try tauto; [apply Qle_refl | lia]. Qed.

Lemma ages_stopSliding n : ages n (stopSliding n).
Proof. unfold ages. cbn. repeat split; try tauto; [apply Qle_refl | lia]. Qed.

Lemma ages_setHit n : ages n (setHit n).
Proof. unfold ages. cbn. repeat split; try tauto; [apply Qle_refl | lia]. Qed.

Lemma ages_startHolding t0 n : ages n (startHolding t0 n).
Proof. unfold ages. cbn. repeat split; try tauto; [apply Qle_refl | lia]. Qed.

Lemma ages_stopHolding n : ages n (stopHolding n).
Proof. unfold ages. cbn. repeat split; try tauto; [apply Qle_refl | lia]. Qed.

Lemma ages_moveLeft n : ages n (moveLeft n).
Proof. unfold ages. cbn. repeat split; try tauto; [lra | lia]. Qed.

Lemma ages_setHoldScore p n : (holdScore n <= p)%Z -> ages n (setHoldScore p n).
Proof. intros H. unfold ages. cbn. repeat split; try tauto. apply Qle_refl. Qed.

Lemma persists_score p j s : persists s (score p j s).
Proof. now apply persists_heap. Qed.

Lemma persists_completeHoldNote id j s : persists s (completeHoldNote id j s).
Proof.
  unfold completeHoldNote. destruct (heap s !! id) as [n|]; [|apply persists_refl].
  cbv zeta.
  match goal with
  | |- persists s (set_holds _ ?x) =>
      apply (persists_trans s x); [|now apply persists_heap]
  end.
  eapply persists_trans; [|apply persists_modify; intros; apply ages_stopHolding].
  destruct j; try apply persists_refl; apply persists_score.
Qed.

Lemma persists_updateHold gt id s : persists s (updateHold gt id s).
Proof.
  unfold updateHold. destruct (heap s !! id) as [n|] eqn:Hn; [|apply persists_refl].
  destruct (holdingSince n) as [t0|]; [|apply persists_refl].
  match goal with
  | |- persists s (if _ then completeHoldNote _ _ ?x else _) =>
      assert (H : persists s x)
  end.
  { destruct (0 <? _)%Z eqn:E; [|apply persists_refl]. apply Z.ltb_lt in E.
    eapply persists_trans; [|apply persists_score].
    apply persists_modify. intros n' Hn'. rewrite Hn in Hn'. inversion Hn'; subst n'.
    apply ages_setHoldScore. lia. }
  destruct (geb _ _); [|exact H].
  eapply persists_trans; [exact H | apply persists_completeHoldNote].
Qed.

Lemma persists_holdLoop gt keys s : persists s (holdLoop gt keys s).
Proof.
  revert s. induction keys as [|k keys IH]; intros s; simpl; [apply persists_refl|].
  destruct (mapGet k (activeHoldNotes s)) as [id|]; [|apply IH].
  eapply persists_trans; [apply persists_updateHold | apply IH].
Qed.

Lemma persists_clearAllNotes s : persists s (clearAllNotes s).
Proof.
  unfold clearAllNotes.
  match goal with
  | |- persists s (set_notes [] ?x) =>
      apply (persists_trans s x); [|now apply persists_heap]
  end.
  generalize (notes s) as ids. intros ids. revert s.
  induction ids as [|id ids IH]; intros s; simpl; [apply persists_refl|].
  eapply persists_trans; [|apply IH].
  apply persists_modify. intros; apply ages_detach.
Qed.

Lemma persists_stopGame s : persists s (stopGame s).
Proof.
  unfold stopGame.
  match goal with
  | |- persists s (set_gsm _ (set_holds [] (clearAllNotes ?x))) =>
      eapply persists_trans; [apply (persists_heap s x); reflexivity|];
      eapply persists_trans; [apply (persists_clearAllNotes x)|]
  end.
  now apply persists_heap.
Qed.

Lemma persists_extends s s' : HoldRun.extends s s' -> persists s s'.
Proof.
  intros H id n Hn. exists n. split; [now apply H | apply ages_refl].
Qed.

Lemma persists_update w ui now s : persists s (update w ui now s).
Proof.
  unfold update. destruct (negb (isPlaying s) || isPaused s); [apply persists_refl|].
  cbv zeta.
  match goal with
  | |- context [updateHoldNotes ?g (spawnNotes _ _ _ _ ?y)] =>
      assert (H : persists s (updateHoldNotes g (spawnNotes w ui now g y)));
        [eapply persists_trans; [|apply persists_holdLoop];
         apply (persists_trans s y); [now apply persists_heap|];
         apply persists_extends, HoldScoring.extends_spawnNotes|]
  end.
  match goal with
  | |- context [if ?b then _ else _] => destruct b
  end; [|exact H].
  eapply persists_trans; [exact H | apply persists_stopGame].
Qed.

Lemma persists_slideNote id s : persists s (slideNote id s).
Proof.
  unfold slideNote. destruct (heap s !! id) as [n|]; [|apply persists_refl].
  destruct (negb (sliding n)); [apply persists_refl|].
  destruct (hit n || negb (attached n));
    [apply persists_modify; intros; apply ages_stopSliding|].
  cbv zeta. destruct (ltb _ _); [|apply persists_modify; intros; apply ages_moveLeft].
  match goal with
  | |- persists s (set_notes _ ?x) =>
      apply (persists_trans s x); [|now apply persists_heap]
  end.
  eapply persists_trans;
    [|apply persists_modify; intros m _;
      apply (ages_trans m (detach m)); [apply ages_detach | apply ages_stopSliding]].
  eapply persists_trans; [|apply persists_score].
  apply persists_modify; intros; apply ages_moveLeft.
Qed.

Lemma persists_handleKeyPress w now l s : persists s (handleKeyPress w now l s).
Proof.
  unfold handleKeyPress. destruct (findHittableNote w l s) as [id|].
  - destruct (heap s !! id) as [n|]; [|apply persists_refl].
    destruct (type n); cbv zeta.
    + eapply persists_trans; [|apply persists_modify; intros; apply ages_detach].
      eapply persists_trans; [|apply persists_score].
      apply persists_modify; intros; apply ages_setHit.
    + eapply persists_trans; [|apply persists_score].
      match goal with
      | |- persists s (set_holds _ ?x) =>
          apply (persists_trans s x); [|now apply persists_heap]
      end.
      apply persists_modify; intros; apply ages_startHolding.
  - destruct (0 <? _)%nat; [apply persists_score | apply persists_refl].
Qed.

Lemma persists_handleKeyRelease now l s : persists s (handleKeyRelease now l s).
Proof.
  unfold handleKeyRelease.
  destruct (mapGet l (activeHoldNotes s)) as [id|]; [|apply persists_refl].
  destruct (heap s !! id) as [n|]; [|apply persists_refl].
  destruct (isHolding n); [|apply persists_refl].
  destruct (geb _ _); apply persists_completeHoldNote.
Qed.

Lemma persists_createNote w ui now l h ty d s :
  persists s (createNote w ui now l h ty d s).
Proof. apply persists_extends, HoldScoring.extends_createNote. Qed.

Lemma persists_flowTick w ui now p i s : persists s (flowTick w ui now p i s).
Proof.
  unfold flowTick. destruct (negb (isPlaying s)); [apply persists_refl|]. cbv zeta.
  repeat match goal with
  | |- persists _ (if ?b then createNote _ _ _ _ _ _ _ ?x else ?x) =>
      apply (persists_trans _ x);
        [|destruct b; [apply persists_createNote | apply persists_refl]]
  end.
  apply persists_refl.
Qed.

Lemma persists_step w ui e s : persists s (step w ui e s).
Proof.
  destruct e; simpl.
  - now apply persists_heap.
  - now apply persists_heap.
  - apply persists_stopGame.
  - apply persists_update.
  - unfold handleInput. destruct (negb (isPlaying s) || isPaused s); [apply persists_refl|].
    destruct a; [apply persists_handleKeyPress | apply persists_handleKeyRelease].
  - apply persists_slideNote.
  - apply persists_flowTick.
  - apply persists_modify; intros; apply ages_detach.
Qed.

Lemma persists_run w ui es s : persists s (run w ui es s).
Proof.
  unfold run. revert s. induction es as [|e es IH]; intros s; simpl; [apply persists_refl|].
  eapply persists_trans; [apply persists_step | apply IH].
Qed.

(** Along every sequence of engine events, a note object stays in the
    heap and only ages: it keeps its lane, type, hit time, duration and
    spawn time; once hit it stays hit, once its slide interval is cleared
    it stays cleared, once its element is removed it stays removed; it
    never moves away from the left edge and its progressive hold score
    never decreases. *)
Theorem notes_only_age w ui es s id n :
  heap s !! id = Some n ->
  exists n', heap (run w ui es s) !! id = Some n' /\ ages n n'.
Proof. intros H. exact (persists_run w ui es s id n H). Qed.

Lemma notes_only_age_witness :
  exists n',
    heap (Scenario.play [EInput 2720 top press; EUpdate 3720] Scenario.oneSecondHold)
      !! 0%nat = Some n' /\
    ages Scenario.slidNote n'.
Proof.
  apply (notes_only_age Scenario.width Scenario.uiReady
           [EInput 2720 top press; EUpdate 3720] Scenario.oneSecondHold 0%nat
           Scenario.slidNote).
  vm_compute. reflexivity.
Defined.

(** A note that has been hit is settled for good: after any sequence of
    events it is not the target of a press in any lane, and a callback of
    its slide interval changes neither the scores nor the live notes, so
    it is never counted as missed. *)
Theorem hit_note_is_settled w ui es s id n :
  heap s !! id = Some n -> hit n = true ->
  (forall l, findHittableNote w l (run w ui es s) <> Some id) /\
  gsm (slideNote id (run w ui es s)) = gsm (run w ui es s) /\
  notes (slideNote id (run w ui es s)) = notes (run w ui es s).
Proof.
  intros Hn Hh. destruct (persists_run w ui es s id n Hn) as (n' & Hn' & Ha).
  assert (Hh' : hit n' = true) by (apply Ha; exact Hh).
  split.
  - intros l E. apply TargetFacts.findHittableNote_hittable in E.
    destruct E as (m & Hm & _ & Hm' & _).
    rewrite Hn' in Hm. inversion Hm; subst m. congruence.
  - unfold slideNote. rewrite Hn'. destruct (negb (sliding n')); [split; reflexivity|].
    rewrite Hh'. cbn [orb]. split; apply modify_shell.
Qed.

Lemma hit_note_is_settled_witness :
  (forall l, findHittableNote Scenario.width l
               (Scenario.play [EUpdate 2736; ESlide 0] Scenario.oneSecondPressed)
             <> Some 0%nat) /\
  gsm (slideNote 0 (Scenario.play [EUpdate 2736; ESlide 0] Scenario.oneSecondPressed))
    = gsm (Scenario.play [EUpdate 2736; ESlide 0] Scenario.oneSecondPressed) /\
  notes (slideNote 0 (Scenario.play [EUpdate 2736; ESlide 0] Scenario.oneSecondPressed))
    = notes (Scenario.play [EUpdate 2736; ESlide 0] Scenario.oneSecondPressed).
Proof.
  apply (hit_note_is_settled Scenario.width Scenario.uiReady [EUpdate 2736; ESlide 0]
           Scenario.oneSecondPressed 0%nat Scenario.pressedNote);
    vm_compute; reflexivity.
Defined.

End AgingFacts.

(** ** The audio clock *)

Module AudioFacts.
Import JS AudioManager.

(** The clock of a loaded song counts playing time only.  While it plays
    it advances with the wall clock; paused, it is frozen at the time of
    the pause, whenever it is read; resumed, it continues from there, so
    that the length of the pause is left out; a second pause changes
    nothing; and after [stop], the next [play] starts again from zero. *)
Theorem audio_clock_counts_playing_time (c : Clock) (t0 tp tr now : Q) :
  hasAudio c = true ->
  getCurrentTime now (play t0 c) == pausedTime c + (now - t0) /\
  getCurrentTime now (pause tp (play t0 c)) == pausedTime c + (tp - t0) /\
  getCurrentTime now (play tr (pause tp (play t0 c)))
    == pausedTime c + (tp - t0) + (now - tr) /\
  pause now (pause tp (play t0 c)) = pause tp (play t0 c) /\
  getCurrentTime now (play tr (stop (play t0 c))) == now - tr.
Proof.
  intros Ha. unfold play, pause, stop, getCurrentTime. rewrite Ha. cbn.
  repeat split; ring.
Qed.

Lemma audio_clock_counts_playing_time_witness :
  getCurrentTime 5000 (play 3000 (pause 1000 (play 0 loaded))) == 3000.
Proof.
  destruct (audio_clock_counts_playing_time loaded 0 1000 3000 5000 eq_refl)
    as (_ & _ & H & _).
  rewrite H. reflexivity.
Defined.

End AudioFacts.

(** ** After the end of the game *)

Module SessionFacts.
Import JS JSFacts GameEngineHold Session HoldFrame.

Lemma tracked_shell s s' :
  heap s' = heap s -> notes s' = notes s -> tracked s -> tracked s'.
Proof. intros Hh Hn H id n. rewrite Hh, Hn. apply H. Qed.

Lemma tracked_modify id f s :
  (forall n, slidable (f n) = true -> slidable n = true) ->
  tracked s -> tracked (modify id f s).
Proof.
  intros Hf H id' n' Hn' Hs.
  replace (notes (modify id f s)) with (notes s) by (symmetry; apply modify_shell).
  apply modify_heap_some in Hn' as (n & Hn & [[_ ->]|[_ ->]]).
  - exact (H id' n Hn Hs).
  - exact (H id' n Hn (Hf n Hs)).
Qed.

Lemma slidable_detach n : slidable (detach n) = true -> slidable n = true.
Proof. unfold slidable. cbn. rewrite andb_false_r. discriminate. Qed.

Lemma slidable_stopSliding n : slidable (stopSliding n) = true -> slidable n = true.
Proof. unfold slidable. cbn. discriminate. Qed.

Lemma slidable_setHit n : slidable (setHit n) = true -> slidable n = true.
Proof. unfold slidable. cbn. rewrite andb_false_r. discriminate. Qed.

Lemma slidable_startHolding t0 n : slidable (startHolding t0 n) = true -> slidable n = true.
Proof. unfold slidable. cbn. rewrite andb_false_r. discriminate. Qed.

Lemma slidable_stopHolding n : slidable (stopHolding n) = true -> slidable n = true.
Proof. unfold slidable. cbn. tauto. Qed.

Lemma slidable_moveLeft n : slidable (moveLeft n) = true -> slidable n = true.
Proof. unfold slidable. cbn. tauto. Qed.

Lemma slidable_setHoldScore p n : slidable (setHoldScore p n) = true -> slidable n = true.
Proof. unfold slidable. cbn. tauto. Qed.

Lemma tracked_completeHoldNote id j s : tracked s -> tracked (completeHoldNote id j s).
Proof.
  intros H. unfold completeHoldNote. destruct (heap s !! id) as [n|]; [|exact H].
  cbv zeta.
  match goal with
  | |- tracked (set_holds _ ?x) => apply (tracked_shell x); [reflexivity | reflexivity |]
  end.
  apply tracked_modify; [apply slidable_stopHolding|].
  destruct j; try exact H; eapply tracked_shell; try exact H; reflexivity.
Qed.

Lemma tracked_updateHold gt id s : tracked s -> tracked (updateHold gt id s).
Proof.
  intros H. unfold updateHold. destruct (heap s !! id) as [n|]; [|exact H].
  destruct (holdingSince n) as [t0|]; [|exact H].
  match goal with
  | |- tracked (if _ then completeHoldNote _ _ ?x else _) => assert (Hx : tracked x)
  end.
  { destruct (0 <? _)%Z; [|exact H].
    match goal with
    | |- tracked (score _ _ ?y) => apply (tracked_shell y); [reflexivity | reflexivity |]
    end.
    apply tracked_modify; [apply slidable_setHoldScore | exact H]. }
  destruct (geb _ _); [now apply tracked_completeHoldNote | exact Hx].
Qed.

Lemma tracked_holdLoop gt keys s : tracked s -> tracked (holdLoop gt keys s).
Proof.
  revert s. induction keys as [|k keys IH]; intros s H; simpl; [exact H|].
  destruct (mapGet k (activeHoldNotes s)) as [id|]; [|now apply IH].
  now apply IH, tracked_updateHold.
Qed.

Lemma tracked_createNote w ui now l h ty d s :
  tracked s -> tracked (createNote w ui now l h ty d s).
Proof.
  intros H. unfold createNote. destruct (ui l); [|exact H].
  intros id n. unfold set_notes, set_heap. cbn. intros Hn Hs.
  apply in_or_app.
  destruct (Nat.lt_ge_cases id (length (heap s))) as [Hlt|Hge].
  - left. rewrite lookup_app_l in Hn by exact Hlt. exact (H id n Hn Hs).
  - right. apply lookup_lt_Some in Hn. rewrite length_app in Hn. simpl in Hn.
    left. lia.
Qed.

Lemma tracked_spawnOne w ui now c s : tracked s -> tracked (spawnOne w ui now c s).
Proof.
  intros H. unfold spawnOne.
  set (s1 := if cTop c then _ else s).
  set (s2 := if cBottom c then _ else s1).
  assert (H1 : tracked s1)
    by (unfold s1; destruct (cTop c); [now apply tracked_createNote | exact H]).
  assert (H2 : tracked s2)
    by (unfold s2; destruct (cBottom c); [now apply tracked_createNote | exact H1]).
  exact H2.
Qed.

Lemma tracked_spawnLoop w ui fuel now gt s :
  tracked s -> tracked (spawnLoop w ui fuel now gt s).
Proof.
  revert s. induction fuel as [|fuel IH]; intros s H; simpl; [exact H|].
  destruct (nth_error createDemoChart (chartIndex s)) as [c|]; [|exact H].
  destruct (leb (cSpawnTime c) gt); [|exact H].
  now apply IH, tracked_spawnOne.
Qed.

Lemma clear_settles ids s id n :
  heap (fold_left (fun acc i => modify i detach acc) ids s) !! id = Some n ->
  slidable n = true ->
  heap s !! id = Some n /\ ~ In id ids.
Proof.
  revert s. induction ids as [|i ids IH]; intros s Hn Hs; simpl in *; [tauto|].
  destruct (IH _ Hn Hs) as [Hm Hnin].
  apply modify_heap_some in Hm as (m & Hm & [[Hne ->]|[_ ->]]).
  - split; [exact Hm | intros [->|Hin]; tauto].
  - apply slidable_detach in Hs as Hs'. unfold slidable in Hs. cbn in Hs.
    rewrite andb_false_r in Hs. discriminate.
Qed.

Lemma settled_clearAllNotes s : tracked s -> settled (clearAllNotes s).
Proof.
  intros H id n Hn. unfold clearAllNotes, set_notes in Hn. cbn in Hn.
  destruct (slidable n) eqn:Hs; [|reflexivity].
  destruct (clear_settles _ _ _ _ Hn Hs) as [Hm Hnin].
  destruct (Hnin (H id n Hm Hs)).
Qed.

Lemma settled_tracked s : settled s -> tracked s.
Proof. intros H id n Hn Hs. rewrite (H id n Hn) in Hs. discriminate. Qed.

Lemma clear_shell ids s :
  isPlaying (fold_left (fun acc i => modify i detach acc) ids s) = isPlaying s /\
  gsm (fold_left (fun acc i => modify i detach acc) ids s) = gsm s.
Proof.
  revert s. induction ids as [|i ids IH]; intros s; simpl; [tauto|].
  destruct (IH (modify i detach s)) as [-> ->].
  split; apply modify_shell.
Qed.

Lemma halted_stopGame s : tracked s -> halted (stopGame s).
Proof.
  intros H. unfold halted, stopGame. cbn.
  split; [apply clear_shell|]. do 3 (split; [reflexivity|]).
  intros id n Hn.
  match type of Hn with
  | context [clearAllNotes ?x] =>
      apply (settled_clearAllNotes x) with (id := id); [|exact Hn]
  end.
  apply (tracked_shell s); [reflexivity | reflexivity | exact H].
Qed.

Lemma halted_tracked s : halted s -> tracked s.
Proof. intros (_ & _ & _ & _ & H). now apply settled_tracked. Qed.

Lemma tracked_update w ui now s : tracked s -> tracked (update w ui now s).
Proof.
  intros H. unfold update. destruct (negb (isPlaying s) || isPaused s); [exact H|].
  cbv zeta.
  match goal with
  | |- context [updateHoldNotes ?g (spawnNotes _ _ _ _ ?y)] =>
      assert (Hx : tracked (updateHoldNotes g (spawnNotes w ui now g y)));
        [apply tracked_holdLoop, tracked_spawnLoop;
         apply (tracked_shell s); [reflexivity | reflexivity | exact H]|]
  end.
  match goal with
  | |- context [if ?b then _ else _] => destruct b
  end; [|exact Hx].
  now apply halted_tracked, halted_stopGame.
Qed.

Lemma tracked_slideNote id s : tracked s -> tracked (slideNote id s).
Proof.
  intros H. unfold slideNote. destruct (heap s !! id) as [n|] eqn:Hid; [|exact H].
  destruct (negb (sliding n)); [exact H|].
  destruct (hit n || negb (attached n));
    [apply tracked_modify; [apply slidable_stopSliding | exact H]|].
  cbv zeta.
  destruct (ltb _ _); [|apply tracked_modify; [apply slidable_moveLeft | exact H]].
  intros id' n' Hn' Hs. unfold set_notes in *. cbn in *.
  apply modify_heap_some in Hn' as (m & Hm & Hcase).
  destruct Hcase as [[Hne ->]|[_ ->]];
    [|unfold slidable in Hs; cbn in Hs; discriminate].
  apply filter_In. split; [|now apply negb_true_iff, Nat.eqb_neq].
  replace (notes (modify id (fun n0 => stopSliding (detach n0))
                    (score 0 GameStateManager.miss (modify id moveLeft s))))
    with (notes s).
  2:{ symmetry. etransitivity; [apply modify_shell|]. cbn. apply modify_shell. }
  unfold score, set_gsm in Hm. cbn in Hm.
  rewrite modify_heap_ne in Hm by congruence. exact (H id' m Hm Hs).
Qed.

Lemma tracked_handleKeyPress w now l s : tracked s -> tracked (handleKeyPress w now l s).
Proof.
  intros H. unfold handleKeyPress. destruct (findHittableNote w l s) as [id|].
  - destruct (heap s !! id) as [n|]; [|exact H].
    destruct (type n); cbv zeta.
    + apply tracked_modify; [apply slidable_detach|].
      match goal with
      | |- tracked (score _ _ ?y) => apply (tracked_shell y); [reflexivity | reflexivity |]
      end.
      apply tracked_modify; [apply slidable_setHit | exact H].
    + match goal with
      | |- tracked (score _ _ (set_holds _ ?y)) =>
          apply (tracked_shell y); [reflexivity | reflexivity |]
      end.
      apply tracked_modify; [apply slidable_startHolding | exact H].
  - destruct (0 <? _)%nat; [|exact H].
    apply (tracked_shell s); [reflexivity | reflexivity | exact H].
Qed.

Lemma tracked_handleKeyRelease now l s : tracked s -> tracked (handleKeyRelease now l s).
Proof.
  intros H. unfold handleKeyRelease.
  destruct (mapGet l (activeHoldNotes s)) as [id|]; [|exact H].
  destruct (heap s !! id) as [n|]; [|exact H].
  destruct (isHolding n); [|exact H].
  destruct (geb _ _); now apply tracked_completeHoldNote.
Qed.

Lemma tracked_flowTick w ui now p i s : tracked s -> tracked (flowTick w ui now p i s).
Proof.
  intros H. unfold flowTick. destruct (negb (isPlaying s)); [exact H|]. cbv zeta.
  repeat match goal with
  | |- tracked (if ?b then createNote _ _ _ _ _ _ _ ?x else ?x) =>
      cut (tracked x);
        [let Hx := fresh in intros Hx; destruct b;
           [now apply tracked_createNote | exact Hx]|]
  end.
  exact H.
Qed.

Lemma tracked_step w ui e s :
  noStart [e] = true -> tracked s -> tracked (step w ui e s).
Proof.
  intros He H. destruct e; simpl in *; try discriminate.
  - apply (tracked_shell s); [reflexivity | reflexivity | exact H].
  - now apply halted_tracked, halted_stopGame.
  - now apply tracked_update.
  - unfold handleInput. destruct (negb (isPlaying s) || isPaused s); [exact H|].
    destruct a; [now apply tracked_handleKeyPress | now apply tracked_handleKeyRelease].
  - now apply tracked_slideNote.
  - now apply tracked_flowTick.
  - apply tracked_modify; [apply slidable_detach | exact H].
Qed.

Lemma tracked_run w ui es s :
  noStart es = true -> tracked s -> tracked (run w ui es s).
Proof.
  unfold run. revert s. induction es as [|e es IH]; intros s He H; simpl; [exact H|].
  simpl in He. apply andb_true_iff in He as [He Hes].
  apply IH; [exact Hes|]. apply tracked_step; [simpl; now rewrite He | exact H].
Qed.

Lemma tracked_startGame now s : settled s -> tracked (startGame now s).
Proof. intros H id n Hn Hs. cbn in Hn. rewrite (H id n Hn) in Hs. discriminate. Qed.

Lemma endGame_over g :
  GameStateManager.currentState g = GameStateManager.game_over ->
  GameStateManager.endGame g = g.
Proof. destruct g. cbn. now intros ->. Qed.

Lemma halted_step w ui e s :
  noStart [e] = true -> halted s ->
  halted (step w ui e s) /\ gsm (step w ui e s) = gsm s.
Proof.
  intros He H. pose proof H as (Hp & Hn & Hh & Hg & Hs).
  destruct e; simpl in *; try discriminate.
  - split; [|reflexivity]. unfold halted. cbn. tauto.
  - split.
    + now apply halted_stopGame, halted_tracked.
    + unfold stopGame. cbn. unfold clearAllNotes. rewrite Hn. cbn.
      now apply endGame_over.
  - unfold update. rewrite Hp. cbn. tauto.
  - unfold handleInput. rewrite Hp. cbn. tauto.
  - unfold slideNote. destruct (heap s !! id) as [n|] eqn:Hid; [|tauto].
    destruct (negb (sliding n)) eqn:Hsl; [tauto|].
    pose proof (Hs id n Hid) as Hq. unfold slidable in Hq.
    apply negb_false_iff in Hsl. rewrite Hsl in Hq. cbn in Hq.
    assert (Hc : hit n || negb (attached n) = true).
    { destruct (attached n), (hit n); cbn in *; congruence. }
    rewrite Hc. split; [|apply modify_shell].
    unfold halted.
    destruct (modify_shell id stopSliding s) as (-> & -> & _ & -> & -> & _).
    repeat split; try assumption.
    intros id' n' Hn'. apply modify_heap_some in Hn' as (m & Hm & [[_ ->]|[_ ->]]).
    * exact (Hs id' m Hm).
    * reflexivity.
  - unfold flowTick. rewrite Hp. cbn. tauto.
  - unfold detachNote. split; [|apply modify_shell]. unfold halted.
    destruct (modify_shell id detach s) as (-> & -> & _ & -> & -> & _).
    repeat split; try assumption.
    intros id' n' Hn'. apply modify_heap_some in Hn' as (m & Hm & [[_ ->]|[_ ->]]).
    * exact (Hs id' m Hm).
    * unfold slidable. cbn. now rewrite andb_false_r.
Qed.

Lemma halted_run w ui es s :
  noStart es = true -> halted s ->
  halted (run w ui es s) /\ gsm (run w ui es s) = gsm s.
Proof.
  unfold run. revert s. induction es as [|e es IH]; intros s He H; simpl; [tauto|].
  simpl in He. apply andb_true_iff in He as [He Hes].
  destruct (halted_step w ui e s) as [H1 H2]; [simpl; now rewrite He | exact H |].
  destruct (IH _ Hes H1) as [H3 H4]. split; [exact H3 | congruence].
Qed.

(** *** Whether the engine is playing *)

Lemma playing_modify id f s : isPlaying (modify id f s) = isPlaying s.
Proof. apply modify_shell. Qed.

Lemma playing_completeHoldNote id j s : isPlaying (completeHoldNote id j s) = isPlaying s.
Proof.
  unfold completeHoldNote. destruct (heap s !! id); [|reflexivity].
  cbv zeta. cbn [isPlaying set_holds]. rewrite playing_modify. now destruct j.
Qed.

Lemma playing_updateHold gt id s : isPlaying (updateHold gt id s) = isPlaying s.
Proof.
  unfold updateHold. destruct (heap s !! id); [|reflexivity].
  destruct (holdingSince _); [|reflexivity].
  match goal with
  | |- isPlaying (if _ then completeHoldNote _ _ ?x else _) = _ =>
      assert (Hx : isPlaying x = isPlaying s)
  end.
  { destruct (0 <? _)%Z; [|reflexivity]. cbn [isPlaying score set_gsm].
    apply playing_modify. }
  destruct (geb _ _); [now rewrite playing_completeHoldNote | exact Hx].
Qed.

Lemma playing_holdLoop gt keys s : isPlaying (holdLoop gt keys s) = isPlaying s.
Proof.
  revert s. induction keys as [|k keys IH]; intros s; simpl; [reflexivity|].
  destruct (mapGet k (activeHoldNotes s)); [|apply IH].
  now rewrite IH, playing_updateHold.
Qed.

Lemma playing_slideNote id s : isPlaying (slideNote id s) = isPlaying s.
Proof.
  unfold slideNote. destruct (heap s !! id) as [n|]; [|reflexivity].
  destruct (negb (sliding n)); [reflexivity|].
  destruct (hit n || negb (attached n)); [apply playing_modify|].
  cbv zeta. destruct (ltb _ _); [|apply playing_modify].
  cbn [isPlaying set_notes]. rewrite playing_modify. cbn [isPlaying score set_gsm].
  apply playing_modify.
Qed.

Lemma playing_handleKeyPress w now l s : isPlaying (handleKeyPress w now l s) = isPlaying s.
Proof.
  unfold handleKeyPress. destruct (findHittableNote w l s) as [id|].
  - destruct (heap s !! id) as [n|]; [|reflexivity].
    destruct (type n); cbv zeta.
    + rewrite playing_modify. cbn [isPlaying score set_gsm]. apply playing_modify.
    + cbn [isPlaying score set_gsm set_holds]. apply playing_modify.
  - now destruct (0 <? _)%nat.
Qed.

Lemma playing_handleKeyRelease now l s : isPlaying (handleKeyRelease now l s) = isPlaying s.
Proof.
  unfold handleKeyRelease.
  destruct (mapGet l (activeHoldNotes s)) as [id|]; [|reflexivity].
  destruct (heap s !! id) as [n|]; [|reflexivity].
  destruct (isHolding n); [|reflexivity].
  destruct (geb _ _); apply playing_completeHoldNote.
Qed.

Lemma playing_createNote w ui now l h ty d s :
  isPlaying (createNote w ui now l h ty d s) = isPlaying s.
Proof. apply (HoldScoring.extends_createNote w ui now l h ty d s). Qed.

Lemma playing_flowTick w ui now p i s : isPlaying (flowTick w ui now p i s) = isPlaying s.
Proof.
  unfold flowTick. destruct (negb (isPlaying s)); [reflexivity|]. cbv zeta.
  repeat match goal with
  | |- isPlaying (if ?b then createNote _ _ _ _ _ _ _ ?x else ?x) = _ =>
      transitivity (isPlaying x);
        [destruct b; [apply playing_createNote | reflexivity]|]
  end.
  reflexivity.
Qed.

Lemma playing_step w ui e s :
  noStart [e] = true -> tracked s ->
  (isPlaying (step w ui e s) = isPlaying s /\ tracked (step w ui e s)) \/
  halted (step w ui e s).
Proof.
  intros He H. destruct e; try discriminate.
  - left. split; [reflexivity | now apply tracked_step].
  - right. now apply halted_stopGame.
  - cbn [step]. unfold update. destruct (negb (isPlaying s) || isPaused s); [now left|].
    cbv zeta.
    match goal with
    | |- context [updateHoldNotes ?g (spawnNotes _ _ _ _ ?y)] =>
        assert (Hx : tracked (updateHoldNotes g (spawnNotes w ui now g y)));
          [apply tracked_holdLoop, tracked_spawnLoop;
           apply (tracked_shell s); [reflexivity | reflexivity | exact H]|];
        assert (Hp : isPlaying (updateHoldNotes g (spawnNotes w ui now g y)) = isPlaying s);
          [unfold updateHoldNotes; rewrite playing_holdLoop;
           apply (HoldScoring.extends_spawnNotes w ui now g y)|]
    end.
    match goal with
    | |- context [if ?b then _ else _] => destruct b
    end; [right; now apply halted_stopGame | left; split; assumption].
  - left. split; [|now apply tracked_step]. cbn [step]. unfold handleInput.
    destruct (negb (isPlaying s) || isPaused s); [reflexivity|].
    destruct a; [apply playing_handleKeyPress | apply playing_handleKeyRelease].
  - left. split; [apply playing_slideNote | now apply tracked_step].
  - left. split; [apply playing_flowTick | now apply tracked_step].
  - left. split; [apply playing_modify | now apply tracked_step].
Qed.

Lemma session_run w ui es s :
  noStart es = true ->
  (isPlaying s = true /\ tracked s) \/ halted s ->
  (isPlaying (run w ui es s) = true /\ tracked (run w ui es s)) \/
  halted (run w ui es s).
Proof.
  unfold run. revert s. induction es as [|e es IH]; intros s He H; simpl; [exact H|].
  simpl in He. apply andb_true_iff in He as [He Hes].
  assert (He' : noStart [e] = true) by (simpl; now rewrite He).
  apply IH; [exact Hes|]. destruct H as [[Hp Ht]|Hh].
  - destruct (playing_step w ui e s He' Ht) as [[Hp' Ht']|Hh]; [left | now right].
    split; [congruence | exact Ht'].
  - right. now apply halted_step.
Qed.

(** The end of a game is final.  Take an engine in which no note can
    slide off any more (a new engine, or one whose last game is over),
    start a game, and let any events but a second start happen.  As soon
    as the engine is not playing (after [stopGame], called or reached by
    the frame at the end of the song), it is halted: no live note, no
    active hold, the game-over screen, and no note that can still slide
    off.  From then on no event but a start changes the scores, the
    judgment counts or the screen, and the engine stays halted. *)
Theorem game_over_is_final w ui now es1 es2 s0 :
  settled s0 -> noStart es1 = true -> noStart es2 = true ->
  isPlaying (run w ui es1 (startGame now s0)) = false ->
  halted (run w ui es1 (startGame now s0)) /\
  gsm (run w ui es2 (run w ui es1 (startGame now s0)))
    = gsm (run w ui es1 (startGame now s0)) /\
  halted (run w ui es2 (run w ui es1 (startGame now s0))).
Proof.
  intros H0 H1 H2 Hp.
  assert (Ho : halted (run w ui es1 (startGame now s0))).
  { destruct (session_run w ui es1 (startGame now s0) H1) as [[Hp' _]|Hh].
    - left. split; [reflexivity | now apply tracked_startGame].
    - congruence.
    - exact Hh. }
  split; [exact Ho|].
  destruct (halted_run w ui es2 _ H2 Ho) as [Hh Hg]. split; assumption.
Qed.

Lemma game_over_is_final_witness :
  gsm (Scenario.play [EInput 4000 top press; ESlide 0; EUpdate 4016]
         (Scenario.play Scenario.stoppedEarly (startGame 0 Scenario.fresh)))
  = gsm (Scenario.play Scenario.stoppedEarly (startGame 0 Scenario.fresh)).
Proof.
  apply (game_over_is_final Scenario.width Scenario.uiReady 0
           Scenario.stoppedEarly [EInput 4000 top press; ESlide 0; EUpdate 4016]
           Scenario.fresh).
  - intros id n Hn. destruct id; discriminate.
  - reflexivity.
  - reflexivity.
  - vm_compute. reflexivity.
Defined.

End SessionFacts.

(** ** Spawning from the chart, and releasing a hold *)

Module SpawnFacts.
Import JS JSFacts GameEngineHold ActiveHolds HoldFrame.






(** *** Releasing a hold *)

(** Releasing the key of a lane that has an active hold always ends
    that hold, however short it was held: the lane leaves the map, the
    other lane keeps its entry, and the note stops holding.  The bonus
    follows the held share of the duration: perfect (500) for all of it,
    great (300) from 90%, good (100) from 70%, and no judgment at all
    below that. *)
Theorem release_resolves_hold now l s id :
  sound s -> mapGet l (activeHoldNotes s) = Some id ->
  mapGet l (activeHoldNotes (handleKeyRelease now l s)) = None /\
  (forall k, k <> l ->
     mapGet k (activeHoldNotes (handleKeyRelease now l s))
       = mapGet k (activeHoldNotes s)) /\
  exists n,
    heap s !! id = Some n /\
    heap (handleKeyRelease now l s) !! id = Some (stopHolding n) /\
    gsm (handleKeyRelease now l s) =
      let held := now - startTime s
                  - match holdStartTime n with Some t0 => t0 | None => 0 end in
      if geb held (duration n)
      then GameStateManager.updateScore 500 GameStateManager.perfect (gsm s)
      else if geb (held / duration n) (9 # 10)
      then GameStateManager.updateScore 300 GameStateManager.great (gsm s)
      else if geb (held / duration n) (7 # 10)
      then GameStateManager.updateScore 100 GameStateManager.good (gsm s)
      else gsm s.
Proof.
  intros Hs Hget.
  destruct (HoldInvariant.sound_entry s l id Hs Hget) as (n & Hn & Hl & Hh).
  assert (Hc : forall j,
    mapGet l (activeHoldNotes (completeHoldNote id j s)) = None /\
    (forall k, k <> l ->
       mapGet k (activeHoldNotes (completeHoldNote id j s)) = mapGet k (activeHoldNotes s)) /\
    heap (completeHoldNote id j s) !! id = Some (stopHolding n) /\
    gsm (completeHoldNote id j s) =
      match j with
      | GameStateManager.perfect =>
          GameStateManager.updateScore 500 GameStateManager.perfect (gsm s)
      | GameStateManager.great =>
          GameStateManager.updateScore 300 GameStateManager.great (gsm s)
      | GameStateManager.good =>
          GameStateManager.updateScore 100 GameStateManager.good (gsm s)
      | _ => gsm s
      end).
  { intros j. unfold completeHoldNote. rewrite Hn, Hl. cbv zeta.
    cbn [activeHoldNotes heap gsm set_holds].
    match goal with
    | |- context [modify id stopHolding ?x] =>
        destruct (modify_shell id stopHolding x) as (Hg & _ & _ & _ & Ha & _);
        assert (Hx : heap x !! id = Some n) by (destruct j; exact Hn);
        assert (Hy : activeHoldNotes x = activeHoldNotes s) by (destruct j; reflexivity);
        assert (Hz : gsm x = match j with
          | GameStateManager.perfect =>
              GameStateManager.updateScore 500 GameStateManager.perfect (gsm s)
          | GameStateManager.great =>
              GameStateManager.updateScore 300 GameStateManager.great (gsm s)
          | GameStateManager.good =>
              GameStateManager.updateScore 100 GameStateManager.good (gsm s)
          | _ => gsm s
          end) by (destruct j; reflexivity)
    end.
    rewrite Ha, Hy, Hg, Hz.
    split; [apply mapGet_delete_eq|]. split; [intros k Hk; now apply mapGet_delete_ne|].
    split; [now apply modify_heap_eq | reflexivity]. }
  set (held := now - startTime s
               - match holdStartTime n with Some t0 => t0 | None => 0 end).
  set (j := if geb held (duration n) then GameStateManager.perfect
            else if geb (held / duration n) (9 # 10) then GameStateManager.great
            else if geb (held / duration n) (7 # 10) then GameStateManager.good
            else GameStateManager.miss).
  assert (Hk : handleKeyRelease now l s = completeHoldNote id j s).
  { unfold handleKeyRelease. rewrite Hget, Hn, Hh. cbv zeta. fold held. unfold j.
    destruct (geb held (duration n)); [reflexivity|].
    destruct (geb (held / duration n) (9 # 10)); [reflexivity|].
    destruct (geb (held / duration n) (7 # 10)); reflexivity. }
  rewrite Hk. destruct (Hc j) as (H1 & H2 & H3 & H4).
  split; [exact H1|]. split; [exact H2|]. exists n.
  split; [exact Hn|]. split; [exact H3|]. rewrite H4. cbv zeta. fold held. unfold j.
  destruct (geb held (duration n)); [reflexivity|].
  destruct (geb (held / duration n) (9 # 10)); [reflexivity|].
  destruct (geb (held / duration n) (7 # 10)); reflexivity.
Qed.

Lemma release_resolves_hold_witness :
  mapGet top (activeHoldNotes (handleKeyRelease 3620 top Scenario.oneSecondPressed)) = None.
Proof.
  apply (release_resolves_hold 3620 top Scenario.oneSecondPressed 0%nat).
  - apply (HoldInvariant.sound_run Scenario.width Scenario.uiReady
             ([EInput 2720 top press]) Scenario.oneSecondHold).
    apply (HoldInvariant.sound_run Scenario.width Scenario.uiReady (Scenario.slides 0 170)).
    eapply HoldInvariant.calm_sound; [apply HoldInvariant.calm_createNote|].
    eapply HoldInvariant.calm_sound; [apply HoldInvariant.calm_startGame|].
    apply HoldInvariant.sound_new.
  - vm_compute. reflexivity.
Defined.

End SpawnFacts.

(** ** What a pause stops, and what a press changes *)

Module PauseFacts.
Import JS JSFacts GameEngineHold HoldFrame.

Lemma pause_modify id f s : modify id f (pauseGame s) = pauseGame (modify id f s).
Proof. unfold modify. cbn [heap pauseGame]. now destruct (heap s !! id). Qed.

Lemma pause_createNote w ui now l h ty d s :
  createNote w ui now l h ty d (pauseGame s) = pauseGame (createNote w ui now l h ty d s).
Proof. unfold createNote. now destruct (ui l). Qed.

Lemma pause_slideNote id s : slideNote id (pauseGame s) = pauseGame (slideNote id s).
Proof.
  unfold slideNote. cbn [heap pauseGame]. destruct (heap s !! id) as [n|]; [|reflexivity].
  destruct (negb (sliding n)); [reflexivity|].
  destruct (hit n || negb (attached n)); [apply pause_modify|].
  cbv zeta. rewrite pause_modify.
  destruct (ltb _ _); [|reflexivity].
  change (score 0 GameStateManager.miss (pauseGame (modify id moveLeft s)))
    with (pauseGame (score 0 GameStateManager.miss (modify id moveLeft s))).
  rewrite pause_modify. reflexivity.
Qed.

Lemma pause_flowTick w ui now p i s :
  flowTick w ui now p i (pauseGame s) = pauseGame (flowTick w ui now p i s).
Proof.
  unfold flowTick. cbn [isPlaying pauseGame]. destruct (negb (isPlaying s)); [reflexivity|].
  cbv zeta.
  destruct ((_ =? 1)%nat || (_ =? 3)%nat), ((_ =? 2)%nat || (_ =? 3)%nat),
    (_ =? 4)%nat, (_ =? 5)%nat; rewrite ?pause_createNote; reflexivity.
Qed.

(** A pause stops the frames and the keys, and nothing else.  While the
    engine is paused, [update] and [handleInput] do nothing; but a
    callback of a slide interval or of the note flow does exactly what it
    does in the running game: notes keep sliding, slide off and are
    counted as missed, and new notes keep appearing, during the pause. *)
Theorem pause_stops_frames_and_keys_only w ui now l a id p i s :
  (isPaused s = true ->
   update w ui now s = s /\ handleInput w now l a s = s) /\
  slideNote id (pauseGame s) = pauseGame (slideNote id s) /\
  flowTick w ui now p i (pauseGame s) = pauseGame (flowTick w ui now p i s).
Proof.
  split; [|split; [apply pause_slideNote | apply pause_flowTick]].
  intros Hp. unfold update, handleInput. rewrite Hp, orb_true_r. tauto.
Qed.

(** A press changes at most one note object: the target that
    [findHittableNote] returns.  Every other note object, and the array
    of live notes, stay as they are, however many notes are stacked in
    the hit window. *)
Theorem press_changes_one_note w now l s :
  notes (handleKeyPress w now l s) = notes s /\
  length (heap (handleKeyPress w now l s)) = length (heap s) /\
  forall id, findHittableNote w l s <> Some id ->
    heap (handleKeyPress w now l s) !! id = heap s !! id.
Proof.
  unfold handleKeyPress. destruct (findHittableNote w l s) as [t|].
  - destruct (heap s !! t) as [n|]; [|repeat split].
    destruct (type n); cbv zeta.
    + split; [|split].
      * etransitivity; [apply modify_shell|]. cbn [notes score set_gsm]. apply modify_shell.
      * rewrite modify_length. cbn [heap score set_gsm]. apply modify_length.
      * intros id Hid. rewrite modify_heap_ne by congruence.
        cbn [heap score set_gsm]. apply modify_heap_ne. congruence.
    + cbn [notes heap score set_gsm set_holds]. split; [apply modify_shell|].
      split; [apply modify_length|].
      intros id Hid. apply modify_heap_ne. congruence.
  - destruct (0 <? _)%nat; repeat split.
Qed.

End PauseFacts.

(** ** The sections of the song *)

Module SectionFacts.
Import JS JSFacts BeatChartGenerator.

Lemma last_cons {A} (x : A) l d d' : List.last (x :: l) d = List.last (x :: l) d'.
Proof.
  revert x. induction l as [|y l IH]; intros x; [reflexivity|].
  change (List.last (y :: l) d = List.last (y :: l) d'). apply IH.
Qed.

Lemma last_shift {A} (s : A) l d : List.last l s = List.last (s :: l) d.
Proof.
  destruct l as [|y l]; [reflexivity|].
  change (List.last (y :: l) s = List.last (y :: l) d). apply last_cons.
Qed.

Lemma getCurrentSection_found beat l dflt :
  (In (getCurrentSection beat l dflt) l /\
   start (getCurrentSection beat l dflt) <= Nq beat /\
   Nq beat < stop (getCurrentSection beat l dflt)) \/
  (getCurrentSection beat l dflt = List.last l dflt /\
   Forall (fun s => Nq beat < start s \/ stop s <= Nq beat) l).
Proof.
  revert dflt. induction l as [|s l IH]; intros dflt; [right; split; [reflexivity | constructor]|].
  cbn [getCurrentSection].
  destruct (geb (Nq beat) (start s)) eqn:E1.
  - destruct (ltb (Nq beat) (stop s)) eqn:E2; cbn [andb].
    + left. apply geb_ge in E1. apply ltb_lt in E2. split; [now left | split; assumption].
    + apply ltb_ge in E2. destruct (IH s) as [(Hin & H1 & H2)|[Hl Hall]].
      * left. split; [now right | split; assumption].
      * right. split; [|constructor; [now right | exact Hall]].
        rewrite Hl. apply last_shift.
  - cbn [andb]. apply geb_lt in E1. destruct (IH s) as [(Hin & H1 & H2)|[Hl Hall]].
    + left. split; [now right | split; assumption].
    + right. split; [|constructor; [now left | exact Hall]].
      rewrite Hl. apply last_shift.
Qed.

(** Every beat below 256, and every beat of the song, lies in the
    section that [getCurrentSection] returns for it: the sections of
    [defineSongStructure] leave no gap.  A beat that is neither is given
    the outro, which does not contain it. *)
Theorem section_contains_beat totalBeats beat :
  let sec := getCurrentSection beat (defineSongStructure totalBeats) noSection in
  In sec (defineSongStructure totalBeats) /\
  ((Z.of_nat beat < Z.max 256 totalBeats)%Z ->
   start sec <= Nq beat /\ Nq beat < stop sec) /\
  ((Z.max 256 totalBeats <= Z.of_nat beat)%Z -> name sec = "outro"%string).
Proof.
  cbv zeta.
  assert (H0 : 0 <= Nq beat).
  { unfold Nq. change 0 with (inject_Z 0). rewrite <- Zle_Qle. lia. }
  pose proof (getCurrentSection_found beat (defineSongStructure totalBeats) noSection) as Hf.
  set (sec := getCurrentSection beat (defineSongStructure totalBeats) noSection) in *.
  clearbody sec. destruct Hf as [(Hin & H1 & H2)|[Hl Hall]].
  - split; [exact Hin|]. split; [tauto|].
    intros Hge.
    assert (Hq : 256 <= Nq beat /\ Zq totalBeats <= Nq beat).
    { unfold Nq, Zq. change 256 with (inject_Z 256). rewrite <- !Zle_Qle. lia. }
    unfold defineSongStructure in Hin. simpl in Hin.
    repeat (destruct Hin as [Hin|Hin];
            [rewrite <- Hin in H1, H2; cbn in H1, H2; try reflexivity; exfalso; lra|]).
    destruct Hin.
  - assert (Ho : name sec = "outro"%string) by (rewrite Hl; reflexivity).
    split; [rewrite Hl; unfold defineSongStructure; simpl; tauto|].
    split; [|intros _; exact Ho].
    intros Hlt. exfalso.
    assert (Hq : Nq beat < 256 \/ Nq beat < Zq totalBeats).
    { unfold Nq, Zq. change 256 with (inject_Z 256). rewrite <- !Zlt_Qlt. lia. }
    unfold defineSongStructure in Hall.
    repeat match goal with
    | H : Forall _ (_ :: _) |- _ => inversion H; subst; clear H
    end.
    cbn in *. lra.
Qed.

Lemma section_contains_beat_witness :
  start (getCurrentSection 70 (defineSongStructure 300) noSection) <= Nq 70 /\
  Nq 70 < stop (getCurrentSection 70 (defineSongStructure 300) noSection).
Proof.
  apply (section_contains_beat 300 70). reflexivity.
Defined.

End SectionFacts.
